(** * qgrep: the chunked store (build.cpp) and the scan pipeline (search.cpp)

    A shallow embedding of the chunk builder [Builder::BuilderImpl] of
    src/build.cpp and of the scan worker of src/search.cpp, with the
    properties of the store that the specification states about them.

    Conventions.
    - [size_t] values are [N] with the 64-bit wrap-around written out
      ([sz_add], [sz_sub], [sz_mul]); [unsigned int] and [uint32_t] values are
      [N] with the 32-bit wrap-around ([u32]).
    - A [char] buffer is a [list byte]; a pointer into a buffer is an offset.
    - [assert] aborts the program unless it is compiled out (NDEBUG); the
      builder is parametrised by [ndebug] and returns an [Outcome].
    - A [double] is a [spec_float] of the Standard Library at binary64.
    - The collaborators that are not part of the two source files (the
      encoding converter, the regular-expression engine) are Section
      variables; the ordered output of orderedoutput.hpp is modelled from
      the specification. *)

From Stdlib Require Import ZArith NArith Lia Bool List QArith Qround.
From Stdlib Require Import Init.Byte Floats.SpecFloat.
From Stdlib Require Import Reals Lra.
From stdpp Require Import base option list strings gmap.

Local Open Scope N_scope.

(** ** Machine integers *)

Definition SIZE_MOD : N := 2 ^ 64.
Definition UINT_MOD : N := 2 ^ 32.

Definition sz (x : N) : N := x mod SIZE_MOD.
Definition sz_add (a b : N) : N := sz (a + b).
Definition sz_mul (a b : N) : N := sz (a * b).
(** [a - b] on [size_t]: wraps when [b > a]. *)
Definition sz_sub (a b : N) : N := sz (a + SIZE_MOD - sz b).

Definition u32 (x : N) : N := x mod UINT_MOD.

(** Buffers are indexed by [size_t] values. *)
Definition takeN {A} (n : N) (l : list A) : list A := take (N.to_nat n) l.
Definition dropN {A} (n : N) (l : list A) : list A := drop (N.to_nat n) l.
Definition lengthN {A} (l : list A) : N := N.of_nat (length l).

(** ** Bytes *)

Definition LF : byte := x0a.
Definition CR : byte := x0d.

Definition is_LF (c : byte) : bool := Byte.eqb c LF.
Definition is_CR (c : byte) : bool := Byte.eqb c CR.

(** The number of line feeds of a buffer, as [countLines] of search.cpp and
    the second component of [skipByLines] of build.cpp count them. *)
Fixpoint count_LF (l : list byte) : N :=
  match l with
  | [] => 0
  | c :: l' => (if is_LF c then 1 else 0) + count_LF l'
  end.

(** ** EOL normalisation (build.cpp, [normalizeEOL] and [readFile]) *)

Module EOL.

(** [data[i]] of the source; [None] stands for a read out of the buffer. *)
Definition rd (data : list byte) (i : N) : option byte := data !! N.to_nat i.
(** [data[i] = c] of the source. *)
Definition wr (data : list byte) (i : N) (c : byte) : list byte :=
  <[N.to_nat i := c]> data.

(** The [for] loop of [normalizeEOL], on the buffer that it rewrites in
    place: [i] is the read index and [result] the write index.  One unit of
    [fuel] is one iteration; [i] grows at every iteration, so [size - i]
    iterations are enough. *)
Fixpoint normalizeEOL_loop (fuel : nat) (data : list byte) (size i result : N)
  : list byte * N :=
  match fuel with
  | O => (data, result)
  | S fuel' =>
    if i <? size then
      match rd data i with
      | Some c =>
        if is_CR c then
          let data1 := wr data result LF in
          let i1 :=
            if (i + 1 <? size) &&
               match rd data1 (i + 1) with Some d => is_LF d | None => false end
            then i + 1 else i in
          normalizeEOL_loop fuel' data1 size (i1 + 1) (result + 1)
        else
          normalizeEOL_loop fuel' (wr data result c) size (i + 1) (result + 1)
      | None => (data, result)
      end
    else (data, result)
  end.

Definition normalizeEOL (data : list byte) (size : N) : list byte * N :=
  normalizeEOL_loop (N.to_nat size) data size 0 0.

(** The tail of [readFile]: the bytes read from the stream are normalised in
    place and the vector is resized to the returned size.  The [assert]
    between the two, [size <= result.size()], always holds
    ([normalizeEOL_size_le]) and is left out. *)
Definition readFile (raw : list byte) : list byte :=
  match raw with
  | [] => []
  | _ =>
    let '(data, size) := normalizeEOL raw (N.of_nat (length raw)) in
    take (N.to_nat size) data
  end.

(** The normalisation as the specification words it: a CR LF pair becomes one
    LF, a remaining CR becomes LF, any other byte is kept. *)
Fixpoint normalize_spec (l : list byte) : list byte :=
  match l with
  | [] => []
  | c :: l' =>
    if is_CR c then
      match l' with
      | d :: l'' => if is_LF d then LF :: normalize_spec l'' else LF :: normalize_spec l'
      | [] => [LF]
      end
    else c :: normalize_spec l'
  end.

(** The bytes that are not part of a line ending. *)
Definition other_bytes (l : list byte) : list byte :=
  filter (fun c => is_CR c = false /\ is_LF c = false) l.

End EOL.

(** ** The chunk builder (build.cpp, [Builder::BuilderImpl]) *)

Module Build.

(** What a run of builder code ends in: a result, a failed [assert], or a
    [while] loop that was still running when its iteration budget ended. *)
Inductive Outcome (A : Type) : Type :=
| Done (a : A)
| AssertFailed
| OutOfFuel.

Arguments Done {A} a.
Arguments AssertFailed {A}.
Arguments OutOfFuel {A}.

Definition bind {A B : Type} (m : Outcome A) (k : A -> Outcome B) : Outcome B :=
  match m with
  | Done a => k a
  | AssertFailed => AssertFailed
  | OutOfFuel => OutOfFuel
  end.

#[global] Instance Outcome_bind : MBind Outcome :=
  fun A B k m => bind m k.
#[global] Instance Outcome_ret : MRet Outcome := @Done.

(** [struct Blob]: a slice [(offset, count)] of a buffer.  The buffer of a
    pending record is referenced by that record alone (the prefix records cut
    from it live in the chunk under construction, which is written and dropped
    before the buffer can grow), so the shared pointer is a value here. *)
Record Blob : Type := {
  offset : N;
  count : N;
  storage : list byte
}.

(** [struct File]. *)
Record File : Type := {
  name : string;
  contents : Blob;
  startLine : N;
  fileSize : N;
  timeStamp : N
}.

(** [struct Chunk]. *)
Record Chunk : Type := {
  files : list File;
  totalSize : N
}.

(** Modelled from the spec: [DataChunkHeader] of format.hpp, which is not
    among the sources (section 6 of the specification lists its fields). *)
Record DataChunkHeader : Type := {
  fileCount : N;
  uncompressedSize : N;
  compressedSize : N;
  indexSize : N;
  indexHashIterations : N
}.

(** Modelled from the spec: [DataChunkFileHeader] of format.hpp (section 6):
    six 32-bit and two 64-bit fields, 40 bytes. *)
Record DataChunkFileHeader : Type := {
  nameOffset : N;
  nameLength : N;
  dataOffset : N;
  dataSize : N;
  h_startLine : N;
  reserved : N;
  h_fileSize : N;
  h_timeStamp : N
}.

Definition sizeof_DataChunkFileHeader : N := 40.

(** One chunk record of the output stream [outData].  A chunk built by the
    packer is kept as the [Chunk] that [flushChunk] materialises, indexes,
    compresses and writes; a chunk passed through [appendChunk] is the
    caller's header, index bytes and compressed payload as they are written. *)
Inductive ChunkRecord : Type :=
| Built (chunk : Chunk)
| Raw (header : DataChunkHeader) (index compressed : list byte).

(** The state of [BuilderImpl]: the pending queue, its size and the chunk
    records written to [outData] after the file header, oldest first. *)
Record Builder : Type := {
  pendingFiles : list File;
  pendingSize : N;
  outData : list ChunkRecord
}.

(** [BuilderImpl()] followed by [start]. *)
Definition start : Builder :=
  {| pendingFiles := []; pendingSize := 0; outData := [] |}.

(** [Blob::size]. *)
Definition Blob_size (b : Blob) : N := count b.

(** The pointer returned by [Blob::data]: the buffer from [offset] on. *)
Definition Blob_ptr (b : Blob) : list byte := dropN (offset b) (storage b).

(** The [size()] bytes at [data()]: the contents of the slice. *)
Definition Blob_bytes (b : Blob) : list byte := takeN (count b) (Blob_ptr b).

(** [Blob(std::vector<char>)]. *)
Definition Blob_of (v : list byte) : Blob :=
  {| offset := 0; count := lengthN v; storage := v |}.

(** Conversions around the [std::pair<int, int>] that [skipByLines] fills:
    a [size_t] stored to an [int] keeps its low 32 bits, an [int] read back as
    [size_t] is sign-extended, and read back as [unsigned int] keeps its bits. *)
Definition int_of_size (x : N) : N := x mod UINT_MOD.
Definition size_of_int (x : N) : N :=
  if x <? 2 ^ 31 then x else x + (SIZE_MOD - UINT_MOD).

(** The loop of [skipByLines]; [i] is the index of the head of [data]. *)
Fixpoint skipByLines_loop (data : list byte) (i : N) (result : N * N) : N * N :=
  match data with
  | [] => result
  | c :: rest =>
    skipByLines_loop rest (i + 1)
      (if is_LF c then (int_of_size (i + 1), u32 (snd result + 1)) else result)
  end.

Definition skipByLines (data : list byte) (dataSize : N) : N * N :=
  let result := skipByLines_loop (takeN dataSize data) 0 (0, 0) in
  (size_of_int (fst result), snd result).

Fixpoint skipOneLine_loop (data : list byte) (i : N) (dataSize : N) : N :=
  match data with
  | [] => dataSize
  | c :: rest => if is_LF c then i + 1 else skipOneLine_loop rest (i + 1) dataSize
  end.

Definition skipOneLine (data : list byte) (dataSize : N) : N :=
  skipOneLine_loop (takeN dataSize data) 0 dataSize.

(** [getChunkNameTotalSize], [getChunkDataTotalSize]. *)
Definition getChunkNameTotalSize (chunk : Chunk) : N :=
  fold_left (fun result f => sz_add result (N.of_nat (String.length (name f))))
            (files chunk) 0.

Definition getChunkDataTotalSize (chunk : Chunk) : N :=
  fold_left (fun result f => sz_add result (Blob_size (contents f)))
            (files chunk) 0.

(** The file headers that [prepareChunkData] lays out at the front of the
    chunk buffer; [nameOffset] and [dataOffset] are the running offsets. *)
Fixpoint prepareHeaders (fs : list File) (nameOffset dataOffset : N)
  : list DataChunkFileHeader :=
  match fs with
  | [] => []
  | f :: fs' =>
    {| nameOffset := u32 nameOffset;
       nameLength := u32 (N.of_nat (String.length (name f)));
       dataOffset := u32 dataOffset;
       dataSize := u32 (Blob_size (contents f));
       h_startLine := startLine f;
       reserved := 0;
       h_fileSize := fileSize f;
       h_timeStamp := timeStamp f |}
    :: prepareHeaders fs'
         (sz_add nameOffset (N.of_nat (String.length (name f))))
         (sz_add dataOffset (Blob_size (contents f)))
  end.

(** [prepareChunkData]: the headers, and the size of the buffer (headers,
    names, data), which is the [uncompressedSize] of the chunk header. *)
Definition chunkHeaderSize (chunk : Chunk) : N :=
  sz_mul sizeof_DataChunkFileHeader (lengthN (files chunk)).

Definition chunkFileHeaders (chunk : Chunk) : list DataChunkFileHeader :=
  prepareHeaders (files chunk) (chunkHeaderSize chunk)
    (sz_add (chunkHeaderSize chunk) (getChunkNameTotalSize chunk)).

Definition chunkUncompressedSize (chunk : Chunk) : N :=
  sz_add (sz_add (chunkHeaderSize chunk) (getChunkNameTotalSize chunk))
         (getChunkDataTotalSize chunk).

(** The data region of the chunk buffer: the contents of the records. *)
Definition chunkData (chunk : Chunk) : list byte :=
  concat (map (fun f => Blob_bytes (contents f)) (files chunk)).

(** [getChunkIndexSize]. *)
Definition getChunkIndexSize (dataSize : N) : N :=
  let indexSize := dataSize / 50 in
  if indexSize <? 1024 then 0 else indexSize.

Section Builder.

(** [true] when the code is compiled with NDEBUG: [assert] does nothing. *)
Variable ndebug : bool.
(** [kChunkSize] of constants.hpp, which is not among the sources. *)
Variable kChunkSize : N.

Definition assert (c : bool) : Outcome unit :=
  if ndebug || c then Done tt else AssertFailed.

(** [Blob::data], with its assertion. *)
Definition Blob_data (b : Blob) : Outcome (list byte) :=
  assert (sz_add (offset b) (count b) <=? lengthN (storage b)) ;;
  Done (Blob_ptr b).

(** [splitPrefix]: the prefix record, and the file that keeps the rest. *)
Definition splitPrefix (file : File) (size : N) : Outcome (File * File) :=
  assert (size <=? Blob_size (contents file)) ;;
  let c := contents file in
  let result :=
    {| name := name file;
       contents := {| offset := offset c; count := size; storage := storage c |};
       startLine := startLine file;
       fileSize := fileSize file;
       timeStamp := timeStamp file |} in
  let file' :=
    {| name := name file;
       contents := {| offset := sz_add (offset c) size;
                      count := sz_sub (count c) size;
                      storage := storage c |};
       startLine := startLine file;
       fileSize := fileSize file;
       timeStamp := timeStamp file |} in
  Done (result, file').

(** [appendChunkFile]. *)
Definition appendChunkFile (chunk : Chunk) (file : File) : Chunk :=
  {| files := files chunk ++ [file];
     totalSize := sz_add (totalSize chunk) (Blob_size (contents file)) |}.

Definition set_startLine (file : File) (l : N) : File :=
  {| name := name file; contents := contents file; startLine := l;
     fileSize := fileSize file; timeStamp := timeStamp file |}.

(** [appendChunkFilePrefix]: the chunk and the file after the call. *)
Definition appendChunkFilePrefix (chunk : Chunk) (file : File) (remainingSize : N)
  : Outcome (Chunk * File) :=
  data ← Blob_data (contents file);
  let dataSize := Blob_size (contents file) in
  assert (remainingSize <? dataSize) ;;
  let skip := skipByLines data remainingSize in
  if (0 <? fst skip) || (match files chunk with [] => true | _ => false end) then
    let skipSize := if 0 <? fst skip then fst skip else skipOneLine data dataSize in
    let skipLines := if 0 <? fst skip then snd skip else 1 in
    '(prefix, file') ← splitPrefix file skipSize;
    Done ({| files := files chunk ++ [prefix];
             totalSize := sz_add (totalSize chunk) skipSize |},
          set_startLine file' (u32 (startLine file' + skipLines)))
  else Done (chunk, file).

(** The [while] loop of [flushChunk(size_t)]: every iteration pops the front
    of the pending queue, and a split ends the loop. *)
Fixpoint fillChunk (size : N) (chunk : Chunk) (pending : list File)
  : Outcome (Chunk * list File) :=
  if totalSize chunk <? size then
    match pending with
    | [] => Done (chunk, [])
    | file :: rest =>
      let remainingSize := sz_sub size (totalSize chunk) in
      if Blob_size (contents file) <=? remainingSize then
        fillChunk size (appendChunkFile chunk file) rest
      else
        '(chunk', file') ← appendChunkFilePrefix chunk file remainingSize;
        Done (chunk', file' :: rest)
    end
  else Done (chunk, pending).

(** [flushChunk(const Chunk&)]: an empty chunk is not written.  What the
    source does to a chunk that is written ([prepareChunkData],
    [prepareChunkIndex], the compression, the statistics) does not change the
    pending queue; the record keeps the chunk, and [chunkFileHeaders],
    [chunkUncompressedSize] and [chunkData] give its layout. *)
Definition flushChunk_chunk (chunk : Chunk) (out : list ChunkRecord)
  : list ChunkRecord :=
  match files chunk with
  | [] => out
  | _ => out ++ [Built chunk]
  end.

(** [flushChunk(size_t)]. *)
Definition flushChunk (size : N) (b : Builder) : Outcome Builder :=
  '(chunk, pending) ← fillChunk size {| files := []; totalSize := 0 |}
                                      (pendingFiles b);
  assert (totalSize chunk <=? pendingSize b) ;;
  Done {| pendingFiles := pending;
          pendingSize := sz_sub (pendingSize b) (totalSize chunk);
          outData := flushChunk_chunk chunk (outData b) |}.

(** [flushIfNeeded]; one unit of fuel is one iteration of the [while]. *)
Fixpoint flushIfNeeded_loop (fuel : nat) (b : Builder) : Outcome Builder :=
  if sz_mul kChunkSize 2 <=? pendingSize b then
    match fuel with
    | O => OutOfFuel
    | S fuel' => b' ← flushChunk kChunkSize b; flushIfNeeded_loop fuel' b'
    end
  else Done b.

(** An iteration that changes the state takes a byte off the pending size or
    a record off the pending queue, so this budget is exhausted only by a loop
    that no longer changes the state. *)
Definition loopBudget (b : Builder) : nat :=
  (N.to_nat (pendingSize b) + length (pendingFiles b))%nat.

Definition flushIfNeeded (b : Builder) : Outcome Builder :=
  flushIfNeeded_loop (loopBudget b) b.

(** [flush]. *)
Fixpoint flush_loop (fuel : nat) (b : Builder) : Outcome Builder :=
  if 0 <? pendingSize b then
    match fuel with
    | O => OutOfFuel
    | S fuel' => b' ← flushChunk kChunkSize b; flush_loop fuel' b'
    end
  else Done b.

Definition flush (b : Builder) : Outcome Builder :=
  flush_loop (loopBudget b) b.

(** [appendFilePart]; [data] stands for the pair [(data, dataSize)]. *)
Definition appendFilePart (path : string) (startLine' : N) (data : list byte)
    (lastWriteTime fileSize' : N) (b : Builder) : Outcome Builder :=
  let dataSize := lengthN data in
  b1 ←
    match last (pendingFiles b) with
    | Some file =>
      if String.eqb (name file) path then
        assert (startLine file <? startLine') ;;
        assert ((timeStamp file =? lastWriteTime) && (fileSize file =? fileSize')) ;;
        let c := contents file in
        assert (sz_add (offset c) (count c) =? lengthN (storage c)) ;;
        let file' :=
          {| name := name file;
             contents := {| offset := offset c;
                            count := sz_add (count c) dataSize;
                            storage := storage c ++ data |};
             startLine := startLine file;
             fileSize := fileSize file;
             timeStamp := timeStamp file |} in
        Done {| pendingFiles := removelast (pendingFiles b) ++ [file'];
                pendingSize := sz_add (pendingSize b) dataSize;
                outData := outData b |}
      else
        Done {| pendingFiles :=
                  pendingFiles b ++
                  [{| name := path; contents := Blob_of data;
                      startLine := startLine'; fileSize := fileSize';
                      timeStamp := lastWriteTime |}];
                pendingSize := sz_add (pendingSize b) dataSize;
                outData := outData b |}
    | None =>
      Done {| pendingFiles :=
                [{| name := path; contents := Blob_of data;
                    startLine := startLine'; fileSize := fileSize';
                    timeStamp := lastWriteTime |}];
              pendingSize := sz_add (pendingSize b) dataSize;
              outData := outData b |}
    end;
  flushIfNeeded b1.

(** [writeChunk(header, compressedData, index, firstFileIsSuffix)]: the three
    writes to [outData]. *)
Definition writeChunk (header : DataChunkHeader) (compressedData index : list byte)
    (b : Builder) : Builder :=
  {| pendingFiles := pendingFiles b;
     pendingSize := pendingSize b;
     outData := outData b ++
                [Raw header (takeN (indexSize header) index)
                            (takeN (compressedSize header) compressedData)] |}.

(** [appendChunk]: the returned [bool] and the builder after the call. *)
Definition appendChunk (header : DataChunkHeader) (compressedData index : list byte)
    (b : Builder) : Outcome (bool * Builder) :=
  b1 ← flushIfNeeded b;
  let kChunkMaxSize := sz_mul kChunkSize 3 / 2 in
  let kChunkMinSize := kChunkMaxSize / 2 in
  let write (b4 : Builder) : Outcome (bool * Builder) :=
    assert ((pendingSize b4 =? 0) &&
            match pendingFiles b4 with [] => true | _ => false end) ;;
    Done (true, writeChunk header compressedData index b4) in
  if 0 <? pendingSize b1 then
    if sz_mul kChunkSize 2 <? pendingSize b1 then Done (false, b1)
    else if pendingSize b1 <? kChunkMinSize then Done (false, b1)
    else
      b2 ← (if kChunkMaxSize <? pendingSize b1
            then flushChunk (pendingSize b1 / 2) b1 else Done b1);
      assert (pendingSize b2 <? kChunkMaxSize) ;;
      b3 ← flushChunk (pendingSize b2) b2;
      write b3
  else write b1.

(** [convertToUTF8] of encoding.hpp, which is not among the sources. *)
Variable convertToUTF8 : list byte -> list byte.

(** A project file as [buildProject] meets it: the [FileInfo] of the project
    scan, and the bytes that [FileStream] reads ([None]: it cannot be
    opened). *)
Record SourceFile : Type := {
  path : string;
  raw : option (list byte);
  lastWriteTime : N;
  fi_fileSize : N
}.

(** The bytes that [appendFile] hands to [appendFilePart]. *)
Definition fileContents (rawBytes : list byte) : list byte :=
  convertToUTF8 (EOL.readFile rawBytes).

(** [appendFile]. *)
Definition appendFile (f : SourceFile) (b : Builder) : Outcome (bool * Builder) :=
  match raw f with
  | None => Done (false, b)
  | Some rawBytes =>
    b' ← appendFilePart (path f) 0 (fileContents rawBytes)
                        (lastWriteTime f) (fi_fileSize f) b;
    Done (true, b')
  end.

(** The loop of [buildProject] over the project files. *)
Fixpoint appendFiles (fs : list SourceFile) (b : Builder) : Outcome Builder :=
  match fs with
  | [] => Done b
  | f :: fs' => r ← appendFile f b; appendFiles fs' (snd r)
  end.

(** [buildProject]: the builder is started, every file is appended and the
    destructor of the builder flushes.  The result is the sequence of chunk
    records of the data file. *)
Definition buildProject (fs : list SourceFile) : Outcome (list ChunkRecord) :=
  b ← appendFiles fs start;
  b' ← flush b;
  Done (outData b').

End Builder.

End Build.

(** ** The hash-iteration count of the bloom index (build.cpp) *)

Module Bloom.

(** The arithmetic of [double]: IEEE 754 binary64, round to nearest even. *)
Definition prec : Z := 53.
Definition emax : Z := 1024.

(** [static_cast<double>] of an [unsigned int]; the value is exact. *)
Definition double_of_uint (x : N) : spec_float :=
  match x with
  | N0 => S754_zero false
  | Npos p => S754_finite false p 0
  end.

(** The [double] nearest to the literal [0.693147181]. *)
Definition double_0_693147181 : spec_float :=
  S754_finite false 6243314772129019 (-53).

(** The value of a finite [double] of mantissa [m] and exponent [e], times
    [2 ^ s]. *)
Definition scaled (m : positive) (e s : Z) : Z := (Zpos m * 2 ^ (e + s))%Z.

(** [x < y] on [double]: the comparison of the two values; false on a NaN. *)
Definition double_ltb (x y : spec_float) : bool :=
  match x, y with
  | S754_nan, _ | _, S754_nan => false
  | S754_infinity sx, S754_infinity sy => sx && negb sy
  | S754_infinity sx, _ => sx
  | _, S754_infinity sy => negb sy
  | S754_zero _, S754_zero _ => false
  | S754_zero _, S754_finite sy _ _ => negb sy
  | S754_finite sx _ _, S754_zero _ => sx
  | S754_finite sx mx ex, S754_finite sy my ey =>
    let s := (- Z.min ex ey)%Z in
    match sx, sy with
    | false, false => (scaled mx ex s <? scaled my ey s)%Z
    | true, true => (scaled my ey s <? scaled mx ex s)%Z
    | true, false => true
    | false, true => false
    end
  end.

(** [static_cast<unsigned int>] of a [double]: the fraction is dropped.
    [getIndexHashIterations] casts values from 1 to 16 only. *)
Definition uint_of_double (x : spec_float) : N :=
  match x with
  | S754_finite false m e =>
    u32 (Z.to_N (if (e <? 0)%Z then Zpos m / 2 ^ (- e) else Zpos m * 2 ^ e)%Z)
  | _ => 0
  end.

(** The [double k] of [getIndexHashIterations]. *)
Definition hashIterations_k (indexSize itemCount : N) : spec_float :=
  let m := u32 (u32 indexSize * 8) in
  let n := u32 itemCount in
  if n =? 0 then double_of_uint 1
  else SFdiv prec emax (SFmul prec emax double_0_693147181 (double_of_uint m))
             (double_of_uint n).

(** The [return] of [getIndexHashIterations]. *)
Definition clampCast (k : spec_float) : N :=
  if double_ltb k (double_of_uint 1) then 1
  else if double_ltb (double_of_uint 16) k then 16
  else uint_of_double k.

(** [getIndexHashIterations]. *)
Definition getIndexHashIterations (indexSize itemCount : N) : N :=
  clampCast (hashIterations_k indexSize itemCount).

End Bloom.

(** ** The scan of one file record (search.cpp) *)

Module Search.

(** The bytes of [buf] from offset [b] up to offset [e]. *)
Definition slice (buf : list byte) (b e : N) : list byte :=
  takeN (e - b) (dropN b buf).

(** [findLineStart(begin, pos)]: [revseg] holds the bytes from [begin] up to
    [s], the last one first, so that its head is [s[-1]]. *)
Fixpoint findLineStart_loop (revseg : list byte) (s begin : N) : N :=
  match revseg with
  | [] => begin
  | c :: rest => if is_LF c then s else findLineStart_loop rest (s - 1) begin
  end.

Definition findLineStart (buf : list byte) (begin pos : N) : N :=
  findLineStart_loop (rev (slice buf begin pos)) pos begin.

(** [findLineEnd(pos, end)]: [seg] holds the bytes from [s] up to [end]. *)
Fixpoint findLineEnd_loop (seg : list byte) (s end_ : N) : N :=
  match seg with
  | [] => end_
  | c :: rest => if is_LF c then s else findLineEnd_loop rest (s + 1) end_
  end.

Definition findLineEnd (buf : list byte) (pos end_ : N) : N :=
  findLineEnd_loop (slice buf pos end_) pos end_.

(** [countLines(begin, end)]. *)
Definition countLines (buf : list byte) (begin end_ : N) : N :=
  u32 (count_LF (slice buf begin end_)).

(** The arguments of one call of [processMatch]: the line, the column, the
    offset in [data] of the text to print and its length. *)
Record Report : Type := {
  line : N;
  column : N;
  text : N;
  textLength : N
}.

Section Scan.

(** The regular-expression engine of regex.hpp, which is not among the
    sources.  [rangePrepare data] is the buffer that is searched in place of
    [data]; [rangeSearch r] is the first match in the bytes [r], as its
    offset in [r] and its length. *)
Variable rangePrepare : list byte -> list byte.
Variable rangeSearch : list byte -> option (N * N).

(** The [while] loop of [processFile].  [begin] and the match are offsets in
    [range]; every entry of the result is a match, as the offset of its first
    byte, with what is reported for it.  One unit of fuel is one iteration;
    [None] means that the loop was still running when the fuel ended. *)
Fixpoint processFile_loop (fuel : nat) (range : list byte) (size begin line : N)
  : option (list (N * Report)) :=
  match fuel with
  | O => None
  | S fuel' =>
    match rangeSearch (slice range begin size) with
    | None => Some []
    | Some (off, len) =>
      let mdata := begin + off in
      let line' := u32 (line + u32 (1 + countLines range begin mdata)) in
      let lbeg := findLineStart range begin mdata in
      let lend := findLineEnd range (mdata + len) size in
      let report :=
        {| line := line'; column := u32 (mdata - lbeg + 1);
           text := lbeg; textLength := lend - lbeg |} in
      if lend =? size then Some [(mdata, report)]
      else
        match processFile_loop fuel' range size (lend + 1) line' with
        | Some rest => Some ((mdata, report) :: rest)
        | None => None
        end
    end
  end.

(** [processFile]; [data] stands for the pair [(data, size)], and
    [startLine] is an [unsigned int]. *)
Definition processFile (data : list byte) (startLine : N)
  : option (list (N * Report)) :=
  processFile_loop (S (length data)) (rangePrepare data) (lengthN data) 0
                   (u32 startLine).

End Scan.

End Search.

(** ** The ordered output and the worker pool (search.cpp, orderedoutput.hpp) *)

Module Ordered.
Section Emitter.

(** What a worker writes to its sink: a sequence of output items. *)
Context {A : Type}.

(** Modelled from the spec: [OrderedOutput] of orderedoutput.hpp, which is
    not among the sources.  Section 4.5 of the specification: producers call
    [begin(i)] to get a private sink, append text, then [end(sink)]; the
    emitter releases sinks to the terminal strictly in ascending [i], and a
    chunk that finishes before its predecessor is held back.  Section 9: a
    structure keyed by chunk index with a cursor tracking the next index to
    release. *)
Record Emitter : Type := {
  cursor : N;
  held : gmap N (list A);
  terminal : list A
}.

Definition initial : Emitter := {| cursor := 0; held := ∅; terminal := [] |}.

(** Modelled from the spec: the release of the sinks that are held, from the
    cursor on, for as long as the next one has ended.  One unit of fuel is
    one sink. *)
Fixpoint release (fuel : nat) (e : Emitter) : Emitter :=
  match fuel with
  | O => e
  | S fuel' =>
    match held e !! cursor e with
    | Some text =>
      release fuel' {| cursor := cursor e + 1;
                       held := delete (cursor e) (held e);
                       terminal := terminal e ++ text |}
    | None => e
    end
  end.

(** Modelled from the spec: [end(sink)] for the sink of chunk [i], which
    holds [text].  The sink is private to its worker from [begin(i)] on, so
    the emitter first sees it here. *)
Definition end_ (i : N) (text : list A) (e : Emitter) : Emitter :=
  let held' := <[i := text]> (held e) in
  release (size held')
          {| cursor := cursor e; held := held'; terminal := terminal e |}.

(** The work items of [searchProject]: the chunks are read in order and
    [chunkIndex], an [unsigned int], counts them from 0.  [outputs] holds,
    for every chunk in read order, what [processChunk] writes for it between
    [begin(chunkIndex)] and [end]. *)
Definition searchTasks (outputs : list (list A)) : list (N * list A) :=
  imap (fun i out => (u32 (N.of_nat i), out)) outputs.

(** Modelled from the spec: the worker pool ([WorkQueue] of workqueue.hpp,
    not among the sources) runs the work items concurrently (section 5);
    [order] lists them as their calls of [processChunk] reach [end].  The
    output of a chunk is private to its worker until then. *)
Definition runWorkers (order : list (N * list A)) : Emitter :=
  fold_left (fun e task => end_ (fst task) (snd task) e) order initial.

End Emitter.
End Ordered.

(** * The vocabulary of the properties *)

Import Build Bloom Search Ordered.

(** ** Lines *)

(** The offset just after the last line feed of [l], or 0. *)
Fixpoint lastLF (l : list byte) : N :=
  match l with
  | [] => 0
  | c :: l' =>
    let r := lastLF l' in
    if 0 <? r then r + 1 else if is_LF c then 1 else 0
  end.

(** The offset just after the first line feed of [l]. *)
Fixpoint firstLF (l : list byte) : N :=
  match l with
  | [] => 0
  | c :: l' => if is_LF c then 1 else 1 + firstLF l'
  end.


(** ** File records *)

Definition bytesOf (f : File) : list byte := Blob_bytes (contents f).
Definition sizeOf (f : File) : N := count (contents f).

Fixpoint sumCount (fs : list File) : N :=
  match fs with
  | [] => 0
  | f :: fs' => sizeOf f + sumCount fs'
  end.

(** A record whose slice lies in its buffer. *)
Definition wfFile (f : File) : Prop :=
  offset (contents f) + count (contents f) <= lengthN (storage (contents f)) /\
  lengthN (storage (contents f)) < SIZE_MOD.

(** The two records that [splitPrefix] makes of [f] at [k] bytes, the second
    one [lines] lines further. *)
Definition prefixOf (f : File) (k : N) : File :=
  {| name := name f;
     contents := {| offset := offset (contents f); count := k;
                    storage := storage (contents f) |};
     startLine := startLine f; fileSize := fileSize f; timeStamp := timeStamp f |}.

Definition suffixOf (f : File) (k lines : N) : File :=
  {| name := name f;
     contents := {| offset := offset (contents f) + k;
                    count := count (contents f) - k;
                    storage := storage (contents f) |};
     startLine := u32 (startLine f + lines);
     fileSize := fileSize f; timeStamp := timeStamp f |}.

(** The lines that a record adds to the start line of the next record of its
    file: its line feeds, and 1 when it has none. *)
Definition lineStep (p : File) : N := N.max 1 (count_LF (bytesOf p)).

(** [p] and [t] are a prefix of [f], cut after a line feed or at the end of
    [f], and the rest of [f]. *)
Definition IsSplit (f p t : File) : Prop :=
  exists k, 1 <= k <= sizeOf f /\ p = prefixOf f k /\
            t = suffixOf f k (lineStep p) /\
            (0 < count_LF (bytesOf p) \/ k = sizeOf f).

(** What one run of the loop of [flushChunk] does to the pending queue: the
    records [moved] go to the chunk and [pending'] stays. *)
Inductive Moved (pending moved pending' : list File) : Prop :=
| Moved_whole :
    pending = moved ++ pending' -> Moved pending moved pending'
| Moved_split (whole : list File) (f p t : File) (rest : list File) :
    pending = whole ++ f :: rest -> moved = whole ++ [p] ->
    pending' = t :: rest -> wfFile f -> IsSplit f p t ->
    Moved pending moved pending'.

(** The bytes and the records of a pending queue: what the flush loops use up. *)
Definition measure (l : list File) : N := sumCount l + lengthN l.

(** ** The output of a build *)

Definition recFiles (r : ChunkRecord) : list File :=
  match r with
  | Built c => files c
  | Raw _ _ _ => []
  end.

(** The file records of the chunks of an output stream, in stream order. *)
Definition emitted (out : list ChunkRecord) : list File :=
  concat (map recFiles out).

Definition allRecords (b : Builder) : list File :=
  emitted (outData b) ++ pendingFiles b.

Definition named (n : string) (l : list File) : list File :=
  filter (fun f => name f = n) l.

(** The records of the file [n] in an output stream, in stream order. *)
Definition recordsOf (n : string) (out : list ChunkRecord) : list File :=
  named n (emitted out).

(** The lines that the records [rs] add up to: see [lineStep]. *)
Fixpoint lineSum (rs : list File) : N :=
  match rs with
  | [] => 0
  | r :: rs' => lineStep r + lineSum rs'
  end.

(** The line feeds of the records [rs], taken together. *)
Definition linesOf (rs : list File) : N :=
  count_LF (concat (map bytesOf rs)).

(** A builder whose [pendingSize] is the size of its pending records. *)
Definition WF (b : Builder) : Prop :=
  Forall wfFile (pendingFiles b) /\
  pendingSize b = sumCount (pendingFiles b) /\
  pendingSize b < SIZE_MOD.

Definition chunkOK (size : N) (r : ChunkRecord) : Prop :=
  match r with
  | Built c =>
    files c <> [] /\ totalSize c = sumCount (files c) /\
    Forall (fun f => sizeOf f <= size \/ files c = [f]) (files c)
  | Raw _ _ _ => True
  end.

(** [f] is a record of the file [n] with contents [d]: the bytes from [off]
    on, which start at line [sl]. *)
Definition recordAt (n : string) (d : list byte) (off sl : N) (f : File) : Prop :=
  name f = n /\ storage (contents f) = d /\ offset (contents f) = off /\
  startLine f = sl /\ off + sizeOf f <= lengthN d.

(** The records [rs] cut the bytes of [d] from [off] on into consecutive
    pieces, every piece but the last one of at least one byte and cut after a
    line feed or at the end of [d]. *)
Inductive CChain (n : string) (d : list byte) : N -> N -> list File -> Prop :=
| CChain_last off sl f :
    recordAt n d off sl f -> off + sizeOf f = lengthN d ->
    CChain n d off sl [f]
| CChain_cons off sl f rs :
    recordAt n d off sl f -> 1 <= sizeOf f ->
    (0 < count_LF (bytesOf f) \/ off + sizeOf f = lengthN d) ->
    CChain n d (off + sizeOf f) (u32 (sl + lineStep f)) rs ->
    CChain n d off sl (f :: rs).

(** The invariant of a build that has taken the files [done], by name and
    contents. *)
Record Inv (size : N) (done : list (string * list byte)) (b : Builder) : Prop := {
  inv_wf : WF b;
  inv_nodup : NoDup (map name (pendingFiles b));
  inv_names : forall r, r ∈ allRecords b -> name r ∈ map fst done;
  inv_chain : forall n d, (n, d) ∈ done -> CChain n d 0 0 (named n (allRecords b));
  inv_chunks : Forall (chunkOK size) (outData b)
}.

(** One call of [flushChunk(size)] on a well-formed builder, as a relation. *)
Definition FlushStep (size : N) (b b' : Builder) : Prop :=
  exists moved pending',
    b' = {| pendingFiles := pending';
            pendingSize := sumCount pending';
            outData := flushChunk_chunk
                         {| files := moved; totalSize := sumCount moved |}
                         (outData b) |} /\
    Moved (pendingFiles b) moved pending' /\
    Forall (fun r => sizeOf r <= size \/ moved = [r]) moved.

(** The record that [appendFilePart] queues for a whole file. *)
Definition newRecord (path : string) (data : list byte) (mtime fsize : N) : File :=
  {| name := path; contents := Blob_of data; startLine := 0;
     fileSize := fsize; timeStamp := mtime |}.

(** The files of a project that can be read, with their contents. *)
Definition sources (convertToUTF8 : list byte -> list byte) (fs : list SourceFile)
    : list (string * list byte) :=
  omap (fun f => match raw f with
                 | Some rawBytes => Some (path f, fileContents convertToUTF8 rawBytes)
                 | None => None
                 end) fs.

(** A file whose contents fit the 32-bit [dataSize] of its header. *)
Definition smallFile (convertToUTF8 : list byte -> list byte) (f : SourceFile) : Prop :=
  match raw f with
  | Some rawBytes => lengthN (fileContents convertToUTF8 rawBytes) < UINT_MOD
  | None => True
  end.

(** ** Matches *)




(** ** The emitter *)

(** The output of the first [k] chunks. *)
Definition inOrder {A : Type} (outputs : list (list A)) (k : N) : list A :=
  concat (take (N.to_nat k) outputs).

Definition isTask {A : Type} (outputs : list (list A)) (task : N * list A) : Prop :=
  outputs !! N.to_nat (fst task) = Some (snd task).

(** The emitter after the chunks [done] have ended: everything below the
    cursor has ended and is on the terminal, in order; what has ended at or
    above the cursor is held. *)
Definition emitterInv {A : Type} (outputs : list (list A)) (done : list (N * list A))
    (e : Emitter) : Prop :=
  (forall j, j < cursor e -> j ∈ map fst done) /\
  (forall j t, held e !! j = Some t <-> (j, t) ∈ done /\ cursor e <= j) /\
  terminal e = inOrder outputs (cursor e).

(** ** Hash iterations *)

(** The value of a nonnegative [double]; an infinity is given the value 17,
    beyond the clamp. *)
Definition double_value (x : spec_float) : Q :=
  match x with
  | S754_finite false m e =>
    if (e <? 0)%Z then Zpos m # Z.to_pos (2 ^ (- e)) else (Zpos m * 2 ^ e)%Z # 1
  | S754_infinity false => 17 # 1
  | _ => 0 # 1
  end.

Definition clamp (lo hi x : Z) : Z := Z.max lo (Z.min hi x).

(** Rounding to the nearest integer, halves up. *)
Definition round_R (x : R) : Z := Int_part (x + / 2).

(** The iteration count in the words of the specification, section 4.3:
    [ln 2 * m / n] with [m = index_size * 8], rounded to the nearest integer
    and clamped to [1, 16]; 1 when [n = 0]. *)
Definition spec_iterations (indexSize itemCount : N) : Z :=
  if itemCount =? 0 then 1%Z
  else clamp 1 16 (round_R (ln 2 * IZR (Z.of_N (indexSize * 8))
                            / IZR (Z.of_N itemCount))).

Definition nonnegD (x : spec_float) : Prop :=
  match x with
  | S754_zero false | S754_finite false _ _ | S754_infinity false => True
  | _ => False
  end.

(** ** The buffer of a chunk (build.cpp, [prepareChunkData]) *)

Module ChunkData.

(** [std::copy(first, last, data.begin() + off)]: the bytes [src] over those
    of [data] from offset [off] on.  A copy past the end of [data], which is
    undefined in the source, is cut at the end here. *)
Definition copy_at (data : list byte) (off : N) (src : list byte) : list byte :=
  take (length data)
       (take (N.to_nat off) data ++ src ++ drop (N.to_nat off + length src) data).

(** The bytes of a [std::string]. *)
Definition nameBytes (f : File) : list byte := String.list_byte_of_string (name f).

(** The header that the loop of [prepareChunkData] fills for [f]. *)
Definition fileHeader (f : File) (nameOffset dataOffset : N) : DataChunkFileHeader :=
  {| Build.nameOffset := u32 nameOffset;
     nameLength := u32 (N.of_nat (String.length (name f)));
     Build.dataOffset := u32 dataOffset;
     dataSize := u32 (Blob_size (contents f));
     h_startLine := startLine f;
     reserved := 0;
     h_fileSize := fileSize f;
     h_timeStamp := timeStamp f |}.

(** The sizes and the bytes of the names of the records. *)
Fixpoint sumNames (fs : list File) : N :=
  match fs with
  | [] => 0
  | f :: fs' => N.of_nat (String.length (name f)) + sumNames fs'
  end.

Definition names (fs : list File) : list byte := concat (map nameBytes fs).

Section Buffer.

Variable ndebug : bool.

(** The bytes of a [DataChunkFileHeader] in memory, which the source writes
    through a [reinterpret_cast] of the buffer; format.hpp is not among the
    sources. *)
Variable encodeFileHeader : DataChunkFileHeader -> list byte.

(** The loop of [prepareChunkData]; [i] is the index of the head of [fs]. *)
Fixpoint prepareChunkData_loop (fs : list File) (i : N) (data : list byte)
    (nameOffset dataOffset : N) : Outcome (list byte * N * N) :=
  match fs with
  | [] => Done (data, nameOffset, dataOffset)
  | f :: fs' =>
    let data1 := copy_at data nameOffset (nameBytes f) in
    src ← Blob_data ndebug (contents f);
    let data2 := copy_at data1 dataOffset (takeN (Blob_size (contents f)) src) in
    let data3 := copy_at data2 (sz_mul sizeof_DataChunkFileHeader i)
                         (encodeFileHeader (fileHeader f nameOffset dataOffset)) in
    prepareChunkData_loop fs' (i + 1) data3
      (sz_add nameOffset (N.of_nat (String.length (name f))))
      (sz_add dataOffset (Blob_size (contents f)))
  end.

(** [prepareChunkData]: the buffer of the chunk and the offset of its data. *)
Definition prepareChunkData (chunk : Chunk) : Outcome (list byte * N) :=
  let headerSize := sz_mul sizeof_DataChunkFileHeader (lengthN (files chunk)) in
  let nameSize := getChunkNameTotalSize chunk in
  let dataSize := getChunkDataTotalSize chunk in
  let totalSize := sz_add (sz_add headerSize nameSize) dataSize in
  let data := repeat x00 (N.to_nat totalSize) in
  r ← prepareChunkData_loop (files chunk) 0 data headerSize (sz_add headerSize nameSize);
  let '(data', nameOffset, dataOffset) := r in
  assert ndebug ((nameOffset =? sz_add headerSize nameSize) &&
                 (dataOffset =? totalSize)) ;;
  Done (data', sz_add headerSize nameSize).

End Buffer.

(** What [processChunk] of search.cpp reads for a file header: the bytes of
    the buffer at [(nameOffset, nameLength)] and at [(dataOffset, dataSize)]. *)
Definition nameOf (data : list byte) (h : DataChunkFileHeader) : list byte :=
  takeN (nameLength h) (dropN (Build.nameOffset h) data).

Definition dataOf (data : list byte) (h : DataChunkFileHeader) : list byte :=
  takeN (dataSize h) (dropN (Build.dataOffset h) data).

End ChunkData.

(** ** The n-gram set and the index of a chunk (build.cpp, [IntSet] and
    [prepareChunkIndex]) *)

Module Index.

(** [struct IntSet]: an open-addressing table of [unsigned int] keys, where 0
    marks a free slot, and the number of keys that were stored. *)
Record IntSet : Type := {
  data : list N;
  size : N
}.

(** [IntSet(capacity)]; the capacity is 16 when none is given. *)
Definition IntSet_new (capacity : N) : IntSet :=
  {| data := repeat 0 (N.to_nat capacity); size := 0 |}.

Definition IntSet_default : IntSet := IntSet_new 16.

(** [data[h]].  The index is masked with [data.size() - 1] and so is inside
    a vector that is not empty; for an empty vector, which the source never
    makes (capacities are 16 and its doublings) and on which it is
    undefined, the read gives 0 here and the write nothing. *)
Definition at_ (data : list N) (h : N) : N := nth (N.to_nat h) data 0.

(** [v & (data.size() - 1)], stored to the [unsigned int h]. *)
Definition slot (data : list N) (v : N) : N :=
  u32 (N.land v (sz_sub (lengthN data) 1)).

(** [struct ChunkIndex]. *)
Record ChunkIndex : Type := {
  ci_data : list byte;
  ci_size : N;
  ci_iterations : N
}.

(** [ChunkIndex()]. *)
Definition ChunkIndex_empty : ChunkIndex :=
  {| ci_data := []; ci_size := 0; ci_iterations := 0 |}.

Section Index.

Variable ndebug : bool.

(** Of bloom.hpp and casefold.hpp, which are not among the sources:
    [bloomHash2], [ngram], [casefold], and [bloomFilterUpdate], which gets the
    index, its size, an n-gram and the iteration count, and updates the
    index. *)
Variable bloomHash2 : N -> N.
Variable ngram : byte -> byte -> byte -> byte -> N.
Variable casefold : byte -> byte.
Variable bloomFilterUpdate : list byte -> N -> N -> N -> list byte.

(** The [while] loop of [insert]; one unit of fuel is one iteration. *)
Fixpoint insert_loop (fuel : nat) (s : IntSet) (key h : N) : Outcome IntSet :=
  match fuel with
  | O => OutOfFuel
  | S fuel' =>
    if at_ (data s) h =? key then Done s
    else if at_ (data s) h =? 0 then
      Done {| data := <[N.to_nat h := key]> (data s); size := u32 (size s + 1) |}
    else insert_loop fuel' s key (slot (data s) (u32 (h + 7)))
  end.

(** The loop of [grow], over the slots of the old table; [insert] is
    [IntSet::insert] on the new one. *)
Fixpoint grow_loop (insert : IntSet -> N -> Outcome IntSet) (old : list N)
    (res : IntSet) : Outcome IntSet :=
  match old with
  | [] => Done res
  | x :: old' =>
    res' ← (if x =? 0 then Done res else insert res x);
    grow_loop insert old' res'
  end.

(** [grow]: the keys are inserted into a table of twice the capacity, whose
    vector is swapped in; [size] stays. *)
Definition grow_with (insert : IntSet -> N -> Outcome IntSet) (s : IntSet)
  : Outcome IntSet :=
  res ← grow_loop insert (data s) (IntSet_new (sz_mul (lengthN (data s)) 2));
  Done {| data := data res; size := size s |}.

(** [insert], which calls [grow], which calls [insert] on the new table;
    [depth] bounds the nesting of these calls.  The probe visits a slot at
    most once in [data.size()] iterations, which is the budget of the
    [while] loop. *)
Fixpoint insert_rec (depth : nat) (s : IntSet) (key : N) : Outcome IntSet :=
  match depth with
  | O => OutOfFuel
  | S depth' =>
    assert ndebug (negb (key =? 0)) ;;
    s1 ← (if lengthN (data s) <? u32 (size s * 2)
          then grow_with (insert_rec depth') s else Done s);
    insert_loop (length (data s1)) s1 key (slot (data s1) (u32 (bloomHash2 key)))
  end.

(** [IntSet::insert].  The new table of [grow] has room for all the keys of
    the old one, so the [insert] of [grow] does not grow: the nesting is 2. *)
Definition insert (s : IntSet) (key : N) : Outcome IntSet := insert_rec 2 s key.

(** The first loop of [prepareChunkIndex], over the bytes [filedata] from the
    byte [i - 3] on: the n-grams of four bytes without a line feed go to the
    set. *)
Fixpoint collect (filedata : list byte) (ngrams : IntSet) : Outcome IntSet :=
  match filedata with
  | a :: ((b :: c :: d :: _) as rest) =>
    ngrams' ←
      (if negb (is_LF a) && negb (is_LF b) && negb (is_LF c) && negb (is_LF d)
       then
         let n := u32 (ngram (casefold a) (casefold b) (casefold c) (casefold d)) in
         if negb (n =? 0) then insert ngrams n else Done ngrams
       else Done ngrams);
    collect rest ngrams'
  | _ => Done ngrams
  end.

(** The second loop: the bloom filter gets the keys of the table, in the
    order of the slots. *)
Fixpoint fill (index : list byte) (indexSize iterations : N) (slots : list N)
  : list byte :=
  match slots with
  | [] => index
  | n :: slots' =>
    fill (if negb (n =? 0) then bloomFilterUpdate index indexSize n iterations
          else index)
         indexSize iterations slots'
  end.

(** [prepareChunkIndex(data, offset, size)]. *)
Definition prepareChunkIndex (data : list byte) (offset size : N)
  : Outcome ChunkIndex :=
  let indexSize := getChunkIndexSize size in
  if indexSize =? 0 then Done ChunkIndex_empty
  else
    ngrams ← collect (takeN size (dropN offset data)) IntSet_default;
    let iterations := Bloom.getIndexHashIterations indexSize (Index.size ngrams) in
    Done {| ci_data := fill (repeat x00 (N.to_nat indexSize)) indexSize iterations
                            (Index.data ngrams);
            ci_size := indexSize;
            ci_iterations := iterations |}.

End Index.

End Index.

(** ** A growth flush that is cut short (build.cpp, [appendFile]) *)

Section CutShort.
Variable ndebug : bool.
Variable kChunkSize : N.
Variable convertToUTF8 : list byte -> list byte.

(** The first statement of [appendFilePart], before its growth flush: the
    bytes go to the last pending record when it is of the same path, and to
    a new record otherwise. *)
Definition queueFilePart (path : string) (startLine' : N) (data : list byte)
    (lastWriteTime fileSize' : N) (b : Builder) : Outcome Builder :=
  let dataSize := lengthN data in
  match last (pendingFiles b) with
  | Some file =>
    if String.eqb (name file) path then
      assert ndebug (startLine file <? startLine') ;;
      assert ndebug ((timeStamp file =? lastWriteTime) && (fileSize file =? fileSize')) ;;
      let c := contents file in
      assert ndebug (sz_add (offset c) (count c) =? lengthN (storage c)) ;;
      let file' :=
        {| name := name file;
           contents := {| offset := offset c;
                          count := sz_add (count c) dataSize;
                          storage := storage c ++ data |};
           startLine := startLine file;
           fileSize := fileSize file;
           timeStamp := timeStamp file |} in
      Done {| pendingFiles := removelast (pendingFiles b) ++ [file'];
              pendingSize := sz_add (pendingSize b) dataSize;
              outData := outData b |}
    else
      Done {| pendingFiles :=
                pendingFiles b ++
                [{| name := path; contents := Blob_of data;
                    startLine := startLine'; fileSize := fileSize';
                    timeStamp := lastWriteTime |}];
              pendingSize := sz_add (pendingSize b) dataSize;
              outData := outData b |}
  | None =>
    Done {| pendingFiles :=
              [{| name := path; contents := Blob_of data;
                  startLine := startLine'; fileSize := fileSize';
                  timeStamp := lastWriteTime |}];
            pendingSize := sz_add (pendingSize b) dataSize;
            outData := outData b |}
  end.

(** [flushChunk(size_t)] when the [flushChunk(const Chunk&)] at its end
    throws [std::bad_alloc]: the buffer of the chunk, its index or its
    compressed data cannot be allocated.  By then the chunk is off the
    pending queue and its size off [pendingSize]; nothing is written. *)
Definition flushChunk_bad_alloc (size : N) (b : Builder) : Outcome Builder :=
  b' ← flushChunk ndebug size b;
  Done {| pendingFiles := pendingFiles b'; pendingSize := pendingSize b';
          outData := outData b |}.

(** [appendFile] when the first [flushChunk] of the growth flush of its
    [appendFilePart] throws [std::bad_alloc]: the exception leaves
    [flushIfNeeded] and [appendFilePart], and the [catch] of [appendFile]
    returns [false].  Without a growth flush nothing is thrown. *)
Definition appendFile_bad_alloc (f : SourceFile) (b : Builder)
  : Outcome (bool * Builder) :=
  match raw f with
  | None => Done (false, b)
  | Some rawBytes =>
    b1 ← queueFilePart (path f) 0 (fileContents convertToUTF8 rawBytes)
                       (lastWriteTime f) (fi_fileSize f) b;
    if sz_mul kChunkSize 2 <=? pendingSize b1 then
      b2 ← flushChunk_bad_alloc kChunkSize b1;
      Done (false, b2)
    else
      b2 ← flushIfNeeded ndebug kChunkSize b1;
      Done (true, b2)
  end.

End CutShort.

(** ** The file count of the statistics (build.cpp, [writeChunk]) *)

(** [firstFileIsSuffix] of [writeChunk(chunk, index, data)]. *)
Definition firstFileIsSuffix (chunk : Chunk) : bool :=
  match files chunk with
  | [] => false
  | f :: _ => negb (startLine f =? 0)
  end.

(** What the two [writeChunk] add to [statistics.fileCount] for a chunk of
    the packer: [header.fileCount - firstFileIsSuffix] on [unsigned int],
    [header.fileCount] being [chunk.files.size()]. *)
Definition countedFiles (chunk : Chunk) : N :=
  u32 (u32 (lengthN (files chunk)) + UINT_MOD
       - (if firstFileIsSuffix chunk then 1 else 0)).

(** [statistics.fileCount], a [size_t] that the constructor sets to 0, after
    the chunks of [out] were written.  A chunk that was passed through
    [appendChunk] counts with the [firstFileIsSuffix] of the caller, which
    the records do not keep: it is left out here, and a build from files has
    none. *)
Definition fileCountOf (out : list ChunkRecord) : N :=
  fold_left (fun n rec =>
               match rec with
               | Built c => sz_add n (countedFiles c)
               | Raw _ _ _ => n
               end) out 0.

(** A record that starts its file. *)
Definition startsFile (r : File) : Prop := startLine r = 0.

(** Only the first record of a chunk can be the rest of a file; no two
    records of a chunk are of the same file. *)
Definition countedChunk (rec : ChunkRecord) : Prop :=
  match rec with
  | Built c => Forall startsFile (tail (files c)) /\ NoDup (map name (files c))
  | Raw _ _ _ => True
  end.

(** The same of the pending queue and of all the chunks written. *)
Definition Counted (b : Builder) : Prop :=
  Forall startsFile (tail (pendingFiles b)) /\
  NoDup (map name (pendingFiles b)) /\
  Forall countedChunk (outData b).

(** The files of a project that have a record in the output. *)
Definition storedFiles (fs : list SourceFile) (out : list ChunkRecord)
  : list SourceFile :=
  filter (fun f => recordsOf (path f) out <> []) fs.

(** ** Line-aligned records *)

(** A record that ends where its buffer ends. *)
Definition atEnd (r : File) : Prop :=
  offset (contents r) + count (contents r) = lengthN (storage (contents r)).

(** A record that ends at the end of its buffer or with a line feed. *)
Definition lineAligned (r : File) : Prop :=
  atEnd r \/ last (bytesOf r) = Some LF.

(** The number of bytes that [appendChunkFilePrefix] cuts off the front of
    [f] when [remainingSize] bytes are left in the chunk and it cuts: up to
    the last line feed of the first [remainingSize] bytes, else up to the
    first line feed of the record, else the whole record. *)
Definition cutAt (f : File) (remainingSize : N) : N :=
  let l1 := takeN remainingSize (bytesOf f) in
  if 0 <? lastLF l1 then lastLF l1
  else if 0 <? count_LF (bytesOf f) then firstLF (bytesOf f)
  else sizeOf f.

(** A chunk record that the packer built, of at most [size] bytes of data
    or of one record. *)
Definition boundedChunk (size : N) (rec : ChunkRecord) : Prop :=
  match rec with
  | Built c =>
    files c <> [] /\ totalSize c = sumCount (files c) /\
    (totalSize c <= size \/ length (files c) = 1%nat)
  | Raw _ _ _ => False
  end.

(** The bytes of all the records of a builder, written and pending. *)
Definition allBytes (b : Builder) : list byte :=
  concat (map bytesOf (allRecords b)).

(** The invariant of the packer on the ends of the records: a pending record
    ends where its buffer ends, a written record ends there or with a line
    feed, and every chunk written is bounded. *)
Definition Good (size : N) (b : Builder) : Prop :=
  Forall atEnd (pendingFiles b) /\
  Forall lineAligned (emitted (outData b)) /\
  Forall (boundedChunk size) (outData b).

(** ** Reported lines *)

(** The text that is reported with the match at offset [fst e] of [buf] is
    the line of the match: it starts at the start of [buf] or after a line
    feed, ends at the end of [buf] or before a line feed, and holds no line
    feed. *)
Definition reportedText (buf : list byte) (e : N * Report) : Prop :=
  let m := fst e in
  let first := text (snd e) in
  let last := text (snd e) + textLength (snd e) in
  first <= m /\ m <= last /\ last <= lengthN buf /\
  count_LF (slice buf first last) = 0 /\
  (first = 0 \/ buf !! N.to_nat (first - 1) = Some LF) /\
  (last = lengthN buf \/ buf !! N.to_nat last = Some LF).

(** The reported lines are apart and in ascending order: each starts after
    the line feed that ends the one before; the first one at [from] or
    after. *)
Fixpoint ascending (from : N) (events : list (N * Report)) : Prop :=
  match events with
  | [] => True
  | e :: rest =>
    from <= text (snd e) /\
    ascending (text (snd e) + textLength (snd e) + 1) rest
  end.

(** ** The n-gram set *)

(** The keys of a table. *)
Definition keysOf (s : Index.IntSet) : list N :=
  filter (fun x => x <> 0) (Index.data s).

(** The probe of [insert] for [key] in the table [d], from the slot [h] on,
    ends at the slot [e]: the first one on its way that holds [key] or is
    free. *)
Inductive Probe (d : list N) (key : N) : N -> N -> Prop :=
| Probe_end (h : N) :
    Index.at_ d h = key \/ Index.at_ d h = 0 -> Probe d key h h
| Probe_step (h e : N) :
    Index.at_ d h <> key -> Index.at_ d h <> 0 ->
    Probe d key (Index.slot d (u32 (h + 7))) e -> Probe d key h e.

(** The probe for [key] finds it. *)
Definition stored (bloomHash2 : N -> N) (d : list N) (key : N) : Prop :=
  exists e, Probe d key (Index.slot d (u32 (bloomHash2 key))) e /\
            Index.at_ d e = key.

(** The invariant of [IntSet]: the capacity is a power of two, no key is
    stored twice, [size] is the number of keys, and the probe for a key of
    the table finds it. *)
Definition wfSet (bloomHash2 : N -> N) (s : Index.IntSet) : Prop :=
  (exists k, lengthN (Index.data s) = 2 ^ k) /\
  NoDup (keysOf s) /\
  Index.size s = lengthN (keysOf s) /\
  forall x, x ∈ keysOf s -> stored bloomHash2 (Index.data s) x.

(** The n-grams that [prepareChunkIndex] collects from [filedata]: those of
    the windows of four bytes without a line feed, zero left out. *)
Fixpoint ngramsOf (ngram : byte -> byte -> byte -> byte -> N)
    (casefold : byte -> byte) (filedata : list byte) : list N :=
  match filedata with
  | a :: ((b :: c :: d :: _) as rest) =>
    (if negb (is_LF a) && negb (is_LF b) && negb (is_LF c) && negb (is_LF d)
     then
       let n := u32 (ngram (casefold a) (casefold b) (casefold c) (casefold d)) in
       if negb (n =? 0) then [n] else []
     else []) ++ ngramsOf ngram casefold rest
  | _ => []
  end.

(** ** Inputs of the examples *)

(** The reference value of [kChunkSize], 512 KiB. *)
Definition kChunkSize_512K : N := 524288.

(** [n] bytes ['a']. *)
Definition aFile (n : N) : list byte := repeat x61 (N.to_nat n).

(** A file that can be read, with its size on disk. *)
Definition sourceOf (p : string) (d : list byte) : SourceFile :=
  {| path := p; raw := Some d; lastWriteTime := 0; fi_fileSize := lengthN d |}.

(** [big.txt]: 1 MiB of ['a'], no line feed. *)
Definition big_txt : SourceFile := sourceOf "big.txt" (aFile 1048576).

(** Twelve bytes ['a'] and no line feed; the two bytes ["b\n"]. *)
Definition line12 : list byte := repeat x61 12.
Definition line8 : list byte := repeat x61 8.
Definition b_txt : SourceFile := sourceOf "b.txt" [x62; x0a].

Definition hdr0 : DataChunkHeader :=
  {| fileCount := 1; uncompressedSize := 50; compressedSize := 3; indexSize := 0;
     indexHashIterations := 0 |}.

(** ["a\nb\nc\nd\ne"] *)
Definition lines5 : list byte := [x61; x0a; x62; x0a; x63; x0a; x64; x0a; x65].

(** A project whose first file, ["a\nb\nc\nd\ne"], is cut in three at a chunk
    size of 4; a project whose first file is one line of eight bytes; a
    project of one line of twelve bytes. *)
Definition splitProject : list SourceFile := [sourceOf "a.txt" lines5; b_txt].
Definition cutProject : list SourceFile := [sourceOf "big.txt" line8; b_txt].
Definition longProject : list SourceFile := [sourceOf "long.txt" line12].

(** A builder with nine bytes pending, more than twice a chunk size of 4. *)
Definition over2C : Builder :=
  {| pendingFiles := [newRecord "a.txt" lines5 0 9];
     pendingSize := 9;
     outData := [] |}.

(** A builder with five bytes pending. *)
Definition under : Builder :=
  {| pendingFiles := [newRecord "a.txt" [x61; x0a; x62; x0a; x63] 0 5];
     pendingSize := 5;
     outData := [] |}.

(** A regular expression engine for one byte [c] that is no line feed:
    [rangePrepare] is the identity and [rangeSearch] finds the first [c]. *)
Fixpoint findByte (c : byte) (r : list byte) : option N :=
  match r with
  | [] => None
  | x :: r' => if Byte.eqb x c then Some 0 else N.succ <$> findByte c r'
  end.

Definition searchByte (c : byte) (r : list byte) : option (N * N) :=
  (fun off => (off, 1)) <$> findByte c r.

(** ["a\nxb\nb"] *)
Definition twoHits : list byte := [x61; x0a; x78; x62; x0a; x62].

(** The output of three chunks, and an order in which their workers end. *)
Definition threeChunks : list (list N) := [[10]; [20; 21]; [30]].
Definition lastFirst : list (N * list N) := [(2, [30]); (0, [10]); (1, [20; 21])].

(** ** More inputs of the examples *)

(** A project of two empty files. *)
Definition emptyProject : list SourceFile := [sourceOf "e.txt" []; sourceOf "f.txt" []].

(** A chunk of two records: ["a\nb\nc\nd\ne"] and ["b\n"]. *)
Definition twoRecords : Chunk :=
  {| files := [newRecord "a.txt" lines5 0 9; newRecord "b.txt" [x62; x0a] 0 2];
     totalSize := 11 |}.

(** The [n] low bytes of [x], the lowest first. *)
Fixpoint littleEndian (n : nat) (x : N) : list byte :=
  match n with
  | O => []
  | S n' => default x00 (Byte.of_N (x mod 256)) :: littleEndian n' (x / 256)
  end.

(** The bytes of a [DataChunkFileHeader] in the memory of a little-endian
    machine: the fields in the order of section 6, without padding. *)
Definition headerBytes (h : DataChunkFileHeader) : list byte :=
  littleEndian 4 (Build.nameOffset h) ++ littleEndian 4 (nameLength h) ++
  littleEndian 4 (Build.dataOffset h) ++ littleEndian 4 (dataSize h) ++
  littleEndian 4 (h_startLine h) ++ littleEndian 4 (reserved h) ++
  littleEndian 8 (h_fileSize h) ++ littleEndian 8 (h_timeStamp h).

(** Stand-ins for the functions of bloom.hpp and casefold.hpp in the
    examples: an n-gram is its four bytes, the lowest first; nothing is
    folded; the hash is the key; and the filter sets the byte of the key. *)
Definition packNgram (a b c d : byte) : N :=
  Byte.to_N a + 256 * (Byte.to_N b + 256 * (Byte.to_N c + 256 * Byte.to_N d)).

Definition markByte (index : list byte) (indexSize n iterations : N) : list byte :=
  <[N.to_nat (n mod indexSize) := xff]> index.

(** ["a\nb\nc\nd\ne\nf\ng"] *)
Definition lines7 : list byte :=
  [x61; x0a; x62; x0a; x63; x0a; x64; x0a; x65; x0a; x66; x0a; x67].

(** The builder after [appendFile] of ["a\nb\nc\nd\ne\nf\ng"] at a chunk
    size of 4, when the first chunk of the growth flush cannot be
    allocated. *)
Definition cutShort : Builder :=
  match appendFile_bad_alloc false 4 (fun x => x) (sourceOf "a.txt" lines7) start with
  | Done (_, b) => b
  | _ => start
  end.

(** * Properties *)

(** ** Machine integers and bytes *)

Lemma sz_small x : x < SIZE_MOD -> sz x = x.
Proof. apply N.mod_small. Qed.

Lemma sz_lt x : sz x < SIZE_MOD.
Proof. apply N.mod_lt. discriminate. Qed.

Lemma sz_sub_le a b : b <= a -> a < SIZE_MOD -> sz_sub a b = a - b.
Proof.
  intros Hle Ha. unfold sz_sub.
  rewrite (sz_small b) by lia.
  unfold sz. replace (a + SIZE_MOD - b) with ((a - b) + 1 * SIZE_MOD) by lia.
  rewrite N.Div0.mod_add. apply N.mod_small. lia.
Qed.

Lemma u32_small x : x < UINT_MOD -> u32 x = x.
Proof. apply N.mod_small. Qed.

Lemma is_LF_true c : is_LF c = true <-> c = LF.
Proof.
  unfold is_LF. split; [apply Byte.byte_dec_bl | apply Byte.byte_dec_lb].
Qed.

Lemma is_CR_true c : is_CR c = true <-> c = CR.
Proof.
  unfold is_CR. split; [apply Byte.byte_dec_bl | apply Byte.byte_dec_lb].
Qed.

Lemma is_CR_LF : is_CR LF = false.
Proof. reflexivity. Qed.

Lemma is_LF_LF : is_LF LF = true.
Proof. reflexivity. Qed.

Lemma is_LF_not_CR c : is_LF c = true -> is_CR c = false.
Proof. intros H. apply is_LF_true in H. subst. reflexivity. Qed.

Lemma count_LF_app l1 l2 : count_LF (l1 ++ l2) = count_LF l1 + count_LF l2.
Proof. induction l1 as [|c l1 IH]; simpl; [reflexivity | rewrite IH; lia]. Qed.

Lemma count_LF_le_length l : count_LF l <= N.of_nat (length l).
Proof.
  induction l as [|c l IH]; simpl length; simpl count_LF; [lia|].
  destruct (is_LF c); lia.
Qed.

Lemma count_LF_0 l : count_LF l = 0 <-> Forall (fun c => is_LF c = false) l.
Proof.
  induction l as [|c l IH]; simpl.
  - split; [constructor | reflexivity].
  - rewrite Forall_cons. destruct (is_LF c).
    + split; [lia | intros [? _]; congruence].
    + rewrite N.add_0_l, IH. tauto.
Qed.

(** ** EOL normalisation *)

Import EOL.

(** A write at the write index, seen on the three parts of the buffer: the
    bytes already produced, the gap left by collapsed pairs, and the input
    still to read, whose head [c] has just been consumed. *)
Lemma wr_step (out junk rest : list byte) (c x : byte) :
  wr (out ++ junk ++ c :: rest) (N.of_nat (length out)) x
  = (out ++ [x]) ++ tail (junk ++ [c]) ++ rest.
Proof.
  unfold wr. rewrite Nat2N.id.
  rewrite insert_app_r_alt by lia. rewrite Nat.sub_diag.
  rewrite <- (assoc_L (++)). f_equal.
  destruct junk as [|j junk]; simpl; [reflexivity|].
  rewrite <- (assoc_L (++)). reflexivity.
Qed.

Lemma rd_head (pre rest : list byte) (i : N) :
  i = N.of_nat (length pre) -> rd (pre ++ rest) i = head rest.
Proof.
  intros ->. unfold rd. rewrite Nat2N.id.
  rewrite lookup_app_r by lia. rewrite Nat.sub_diag.
  destruct rest; reflexivity.
Qed.

Lemma length_tail_snoc (junk : list byte) (c : byte) :
  length (tail (junk ++ [c])) = length junk.
Proof. destruct junk; simpl; [reflexivity|]. rewrite length_app. simpl. lia. Qed.

Lemma normalize_spec_CR_LF (c d : byte) (l : list byte) :
  is_CR c = true -> is_LF d = true ->
  normalize_spec (c :: d :: l) = LF :: normalize_spec l.
Proof. intros Hc Hd. cbn [normalize_spec]. rewrite Hc, Hd. reflexivity. Qed.

Lemma normalize_spec_CR (c : byte) (l : list byte) :
  is_CR c = true -> match l with d :: _ => is_LF d = false | [] => True end ->
  normalize_spec (c :: l) = LF :: normalize_spec l.
Proof.
  intros Hc Hl. destruct l as [|d l]; cbn [normalize_spec]; rewrite Hc.
  - reflexivity.
  - rewrite Hl. reflexivity.
Qed.

Lemma normalize_spec_other (c : byte) (l : list byte) :
  is_CR c = false -> normalize_spec (c :: l) = c :: normalize_spec l.
Proof. intros Hc. cbn [normalize_spec]. rewrite Hc. reflexivity. Qed.

(** The loop invariant: with [out] produced, a gap [junk] and [rest] to read,
    the loop ends with [out] followed by the normalisation of [rest]. *)
Lemma normalizeEOL_loop_inv (fuel : nat) :
  forall (out junk rest : list byte) (size i result : N),
    result = N.of_nat (length out) ->
    i = N.of_nat (length out + length junk) ->
    size = i + N.of_nat (length rest) ->
    (length rest <= fuel)%nat ->
    forall data result',
      normalizeEOL_loop fuel (out ++ junk ++ rest) size i result = (data, result') ->
      take (N.to_nat result') data = out ++ normalize_spec rest.
Proof.
  induction fuel as [|fuel IH];
    intros out junk rest size i result Hr Hi Hs Hf data result' Hrun.
  - destruct rest; [|simpl in Hf; lia]. simpl in Hrun.
    injection Hrun as <- <-. subst result.
    rewrite Nat2N.id, take_app_length. symmetry. apply app_nil_r.
  - destruct rest as [|c rest].
    + simpl in Hrun.
      replace (i <? size) with false in Hrun
        by (symmetry; apply N.ltb_ge; simpl in Hs; lia).
      injection Hrun as <- <-. subst result.
      rewrite Nat2N.id, take_app_length. symmetry. apply app_nil_r.
    + cbn [normalizeEOL_loop] in Hrun.
      replace (i <? size) with true in Hrun
        by (symmetry; apply N.ltb_lt; simpl in Hs; lia).
      rewrite (assoc_L (++) out junk (c :: rest)) in Hrun.
      rewrite (rd_head (out ++ junk) (c :: rest) i) in Hrun
        by (rewrite length_app; exact Hi).
      cbn [head] in Hrun.
      rewrite <- (assoc_L (++) out junk (c :: rest)) in Hrun.
      subst result. rewrite !wr_step in Hrun.
      destruct (is_CR c) eqn:Hc.
      * destruct rest as [|d rest].
        -- replace (i + 1 <? size) with false in Hrun
             by (symmetry; apply N.ltb_ge; simpl in Hs; lia).
           cbn [andb] in Hrun.
           rewrite normalize_spec_CR by (exact Hc || exact I).
           replace (out ++ LF :: normalize_spec [])
             with ((out ++ [LF]) ++ normalize_spec [])
             by (rewrite <- (assoc_L (++)); reflexivity).
           eapply (IH (out ++ [LF]) (tail (junk ++ [c])) []); [ | | | | exact Hrun].
           ++ rewrite length_app. simpl. lia.
           ++ rewrite length_app, length_tail_snoc. simpl. lia.
           ++ simpl in Hs |- *. lia.
           ++ simpl. lia.
        -- replace (i + 1 <? size) with true in Hrun
             by (symmetry; apply N.ltb_lt; simpl in Hs; lia).
           cbn [andb] in Hrun.
           rewrite (assoc_L (++) (out ++ [LF]) (tail (junk ++ [c])) (d :: rest))
             in Hrun.
           rewrite (rd_head _ (d :: rest) (i + 1)) in Hrun
             by (rewrite !length_app, length_tail_snoc; simpl; lia).
           cbn [head] in Hrun.
           destruct (is_LF d) eqn:Hd.
           ++ rewrite normalize_spec_CR_LF by assumption.
              replace (out ++ LF :: normalize_spec rest)
                with ((out ++ [LF]) ++ normalize_spec rest)
                by (rewrite <- (assoc_L (++)); reflexivity).
              replace (((out ++ [LF]) ++ tail (junk ++ [c])) ++ d :: rest)
                with ((out ++ [LF]) ++ (tail (junk ++ [c]) ++ [d]) ++ rest) in Hrun
                by (rewrite <- !(assoc_L (++)); reflexivity).
              eapply (IH (out ++ [LF]) (tail (junk ++ [c]) ++ [d]) rest);
                [ | | | | exact Hrun].
              ** rewrite length_app. simpl. lia.
              ** rewrite !length_app, length_tail_snoc. simpl. lia.
              ** simpl in Hs |- *. lia.
              ** simpl in Hf. lia.
           ++ rewrite normalize_spec_CR by assumption.
              replace (out ++ LF :: normalize_spec (d :: rest))
                with ((out ++ [LF]) ++ normalize_spec (d :: rest))
                by (rewrite <- (assoc_L (++)); reflexivity).
              rewrite <- (assoc_L (++) (out ++ [LF]) (tail (junk ++ [c])) (d :: rest))
                in Hrun.
              eapply (IH (out ++ [LF]) (tail (junk ++ [c])) (d :: rest));
                [ | | | | exact Hrun].
              ** rewrite length_app. simpl. lia.
              ** rewrite length_app, length_tail_snoc. simpl. lia.
              ** simpl in Hs |- *. lia.
              ** simpl in Hf |- *. lia.
      * rewrite normalize_spec_other by assumption.
        replace (out ++ c :: normalize_spec rest)
          with ((out ++ [c]) ++ normalize_spec rest)
          by (rewrite <- (assoc_L (++)); reflexivity).
        eapply (IH (out ++ [c]) (tail (junk ++ [c])) rest); [ | | | | exact Hrun].
        -- rewrite length_app. simpl. lia.
        -- rewrite length_app, length_tail_snoc. simpl. lia.
        -- simpl in Hs |- *. lia.
        -- simpl in Hf. lia.
Qed.

Lemma readFile_spec (raw : list byte) : readFile raw = normalize_spec raw.
Proof.
  destruct raw as [|c raw]; [reflexivity|].
  unfold readFile, normalizeEOL.
  destruct (normalizeEOL_loop _ _ _ _ _) as [data size] eqn:Hrun.
  apply (normalizeEOL_loop_inv _ [] [] (c :: raw) _ 0 0) in Hrun;
    [exact Hrun | reflexivity | reflexivity | simpl; lia | simpl; lia].
Qed.

Lemma normalize_spec_no_CR (l : list byte) :
  Forall (fun c => is_CR c = false) (normalize_spec l).
Proof.
  induction l as [l IH] using (induction_ltof1 _ (@length byte)).
  unfold ltof in IH.
  destruct l as [|c l]; [constructor|].
  cbn [normalize_spec]. destruct (is_CR c) eqn:Hc.
  - destruct l as [|d l]; [repeat constructor|].
    destruct (is_LF d); constructor; try reflexivity; apply IH; simpl; lia.
  - constructor; [exact Hc | apply IH; simpl; lia].
Qed.

Lemma normalize_spec_other_bytes (l : list byte) :
  other_bytes (normalize_spec l) = other_bytes l.
Proof.
  induction l as [l IH] using (induction_ltof1 _ (@length byte)).
  unfold ltof in IH. unfold other_bytes in *.
  destruct l as [|c l]; [reflexivity|].
  cbn [normalize_spec]. destruct (is_CR c) eqn:Hc.
  - rewrite (filter_cons_False _ c l) by (rewrite Hc; intros [? _]; discriminate).
    destruct l as [|d l]; [reflexivity|].
    destruct (is_LF d) eqn:Hd.
    + rewrite (filter_cons_False _ d l) by (rewrite Hd; intros [_ ?]; discriminate).
      rewrite filter_cons_False by (intros [_ ?]; discriminate).
      apply IH. simpl. lia.
    + rewrite filter_cons_False by (intros [_ ?]; discriminate).
      apply IH. simpl. lia.
  - rewrite !filter_cons. rewrite Hc.
    destruct (decide _); [f_equal|]; apply IH; simpl; lia.
Qed.

Lemma normalizeEOL_loop_size (fuel : nat) :
  forall (data : list byte) (size i result : N) data' result',
    result <= i -> i <= size ->
    normalizeEOL_loop fuel data size i result = (data', result') ->
    result' <= size.
Proof.
  induction fuel as [|fuel IH]; intros data size i result data' result' Hr Hi;
    cbn [normalizeEOL_loop].
  - intros [= _ <-]. lia.
  - destruct (i <? size) eqn:E; [|intros [= _ <-]; lia].
    apply N.ltb_lt in E.
    destruct (rd data i) as [c|]; [|intros [= _ <-]; lia].
    destruct (is_CR c).
    + destruct (i + 1 <? size) eqn:E1; cbn [andb].
      * apply N.ltb_lt in E1.
        destruct (match rd _ (i + 1) with Some d => is_LF d | None => false end);
          apply IH; lia.
      * apply IH; lia.
    + apply IH; lia.
Qed.

(** The returned size is within the buffer: the [assert] of [readFile]
    holds. *)
Lemma normalizeEOL_size_le (raw : list byte) :
  snd (normalizeEOL raw (lengthN raw)) <= lengthN raw.
Proof.
  unfold normalizeEOL.
  destruct (normalizeEOL_loop _ raw (lengthN raw) 0 0) as [data' result'] eqn:E.
  cbn [snd]. eapply normalizeEOL_loop_size; [| |exact E]; lia.
Qed.

(** A buffer without CR is left as it is. *)
Lemma normalize_spec_id (l : list byte) :
  Forall (fun c => is_CR c = false) l -> normalize_spec l = l.
Proof.
  induction 1 as [|c l Hc _ IH]; [reflexivity|].
  cbn [normalize_spec]. rewrite Hc, IH. reflexivity.
Qed.

(** C5. EOL normalisation replaces every CR LF pair by one LF and every
    remaining CR by LF, and keeps every other byte, in order: the bytes that
    [readFile] returns are those of [normalize_spec]; none of them is a CR,
    and the bytes other than CR and LF are those of the input, in the same
    order. *)
Theorem normalizeEOL_correct (raw : list byte) :
  readFile raw = normalize_spec raw /\
  Forall (fun c => is_CR c = false) (readFile raw) /\
  other_bytes (readFile raw) = other_bytes raw.
Proof.
  rewrite readFile_spec. split; [reflexivity|]. split.
  - apply normalize_spec_no_CR.
  - apply normalize_spec_other_bytes.
Qed.


(** ** Lines of a buffer: [skipByLines] and [skipOneLine] *)

Lemma lengthN_cons {A} (x : A) l : lengthN (x :: l) = 1 + lengthN l.
Proof. unfold lengthN. simpl length. lia. Qed.

Lemma lengthN_app {A} (l1 l2 : list A) : lengthN (l1 ++ l2) = lengthN l1 + lengthN l2.
Proof. unfold lengthN. rewrite length_app. lia. Qed.

Lemma lengthN_takeN {A} n (l : list A) : n <= lengthN l -> lengthN (takeN n l) = n.
Proof. unfold lengthN, takeN. intros H. rewrite length_take. lia. Qed.

Lemma takeN_takeN {A} n m (l : list A) : n <= m -> takeN n (takeN m l) = takeN n l.
Proof. unfold takeN. intros H. rewrite take_take. f_equal. lia. Qed.

Lemma takeN_all {A} n (l : list A) : lengthN l <= n -> takeN n l = l.
Proof. unfold takeN, lengthN. intros H. apply take_ge. lia. Qed.

Lemma lastLF_le l : lastLF l <= lengthN l.
Proof.
  induction l as [|c l IH]; [reflexivity|].
  rewrite lengthN_cons. cbn [lastLF].
  destruct (0 <? lastLF l); [lia|]. destruct (is_LF c); lia.
Qed.

Lemma lastLF_pos_iff l : 0 < lastLF l <-> 0 < count_LF l.
Proof.
  induction l as [|c l IH]; [reflexivity|].
  cbn [lastLF count_LF].
  destruct (0 <? lastLF l) eqn:E.
  - apply N.ltb_lt in E. lia.
  - apply N.ltb_ge in E. destruct (is_LF c); lia.
Qed.

Lemma lastLF_pos l : (0 <? lastLF l) = (0 <? count_LF l).
Proof.
  pose proof (lastLF_pos_iff l) as H.
  destruct (0 <? count_LF l) eqn:E.
  - apply N.ltb_lt in E. apply N.ltb_lt. tauto.
  - apply N.ltb_ge in E. apply N.ltb_ge. lia.
Qed.

Lemma count_LF_take_lastLF l : count_LF (takeN (lastLF l) l) = count_LF l.
Proof.
  induction l as [|c l IH]; [reflexivity|].
  cbn [lastLF]. pose proof (lastLF_pos_iff l) as Hp.
  destruct (0 <? lastLF l) eqn:E.
  - unfold takeN in *.
    replace (N.to_nat (lastLF l + 1)) with (S (N.to_nat (lastLF l))) by lia.
    cbn [take count_LF]. rewrite IH. reflexivity.
  - apply N.ltb_ge in E.
    destruct (is_LF c) eqn:Hc; unfold takeN; simpl; rewrite ?Hc; lia.
Qed.

Lemma skipByLines_loop_spec l : forall i p k,
  skipByLines_loop l i (p, k)
  = (if 0 <? lastLF l then int_of_size (i + lastLF l) else p,
     if 0 <? count_LF l then u32 (k + count_LF l) else k).
Proof.
  induction l as [|c l IH]; intros i p k; [reflexivity|].
  cbn [skipByLines_loop lastLF count_LF snd].
  pose proof (lastLF_pos_iff l) as Hp.
  destruct (is_LF c) eqn:Hc; rewrite IH.
  - replace (0 <? 1 + count_LF l) with true by (symmetry; apply N.ltb_lt; lia).
    destruct (0 <? lastLF l) eqn:E.
    + apply N.ltb_lt in E.
      replace (0 <? lastLF l + 1) with true by (symmetry; apply N.ltb_lt; lia).
      replace (0 <? count_LF l) with true by (symmetry; apply N.ltb_lt; lia).
      f_equal; [f_equal; lia|].
      unfold u32. rewrite N.Div0.add_mod_idemp_l. f_equal. lia.
    + apply N.ltb_ge in E.
      replace (0 <? count_LF l) with false by (symmetry; apply N.ltb_ge; lia).
      replace (count_LF l) with 0 by lia. rewrite N.add_0_r. reflexivity.
  - rewrite N.add_0_l. destruct (0 <? lastLF l) eqn:E.
    + apply N.ltb_lt in E.
      replace (0 <? lastLF l + 1) with true by (symmetry; apply N.ltb_lt; lia).
      f_equal. f_equal. lia.
    + reflexivity.
Qed.

Lemma skipByLines_spec data n :
  n < 2 ^ 31 -> n <= lengthN data ->
  skipByLines data n = (lastLF (takeN n data), count_LF (takeN n data)).
Proof.
  intros Hn Hlen. unfold skipByLines. rewrite skipByLines_loop_spec.
  cbn [fst snd].
  pose proof (lastLF_le (takeN n data)) as H1.
  pose proof (count_LF_le_length (takeN n data)) as H2.
  fold (lengthN (takeN n data)) in H2.
  rewrite lengthN_takeN in H1, H2 by assumption.
  pose proof (lastLF_pos_iff (takeN n data)) as Hp.
  assert (H31 : 2 ^ 31 < UINT_MOD) by reflexivity.
  f_equal.
  - destruct (0 <? lastLF (takeN n data)) eqn:E.
    + rewrite N.add_0_l. unfold int_of_size. rewrite N.mod_small by lia.
      unfold size_of_int. replace (_ <? 2 ^ 31) with true; [reflexivity|].
      symmetry. apply N.ltb_lt. lia.
    + apply N.ltb_ge in E. unfold size_of_int. simpl. lia.
  - destruct (0 <? count_LF (takeN n data)) eqn:E.
    + rewrite N.add_0_l. apply u32_small. lia.
    + apply N.ltb_ge in E. lia.
Qed.

Lemma skipOneLine_loop_spec l : forall i n,
  skipOneLine_loop l i n = if 0 <? count_LF l then i + firstLF l else n.
Proof.
  induction l as [|c l IH]; intros i n; [reflexivity|].
  cbn [skipOneLine_loop firstLF count_LF].
  destruct (is_LF c) eqn:Hc.
  - replace (0 <? 1 + count_LF l) with true by (symmetry; apply N.ltb_lt; lia).
    reflexivity.
  - rewrite IH, N.add_0_l. destruct (0 <? count_LF l); [lia | reflexivity].
Qed.

Lemma firstLF_bounds l : 0 < count_LF l -> 1 <= firstLF l <= lengthN l.
Proof.
  induction l as [|c l IH]; simpl; [lia|].
  rewrite lengthN_cons. destruct (is_LF c); [lia|].
  rewrite N.add_0_l. intros H. specialize (IH H). lia.
Qed.

Lemma count_LF_take_firstLF l : 0 < count_LF l -> count_LF (takeN (firstLF l) l) = 1.
Proof.
  induction l as [|c l IH]; simpl; [lia|].
  destruct (is_LF c) eqn:Hc.
  - intros _. unfold takeN. simpl. rewrite Hc. reflexivity.
  - rewrite N.add_0_l. intros H. specialize (IH H).
    unfold takeN in *. replace (N.to_nat (1 + firstLF l)) with (S (N.to_nat (firstLF l))) by lia.
    cbn [take count_LF]. rewrite Hc, IH. reflexivity.
Qed.

Lemma skipOneLine_spec data n :
  skipOneLine data n
  = if 0 <? count_LF (takeN n data) then firstLF (takeN n data) else n.
Proof. unfold skipOneLine. rewrite skipOneLine_loop_spec. reflexivity. Qed.

(** ** The split of a record: [appendChunkFilePrefix] *)

Section SplitPrefix.
Variable ndebug : bool.

Lemma assert_true c : c = true -> assert ndebug c = Done tt.
Proof. intros ->. unfold assert. rewrite orb_true_r. reflexivity. Qed.

Lemma bind_Done {A B} (a : A) (k : A -> Outcome B) : (Done a ≫= k) = k a.
Proof. reflexivity. Qed.

Lemma Blob_ptr_length (f : File) :
  wfFile f -> sizeOf f <= lengthN (Blob_ptr (contents f)).
Proof.
  intros [H1 H2]. unfold Blob_ptr, dropN, lengthN in *. rewrite length_drop.
  unfold sizeOf. lia.
Qed.

Lemma bytesOf_prefixOf (f : File) (k : N) :
  bytesOf (prefixOf f k) = takeN k (Blob_ptr (contents f)).
Proof. reflexivity. Qed.

Lemma bytesOf_length (f : File) : wfFile f -> lengthN (bytesOf f) = sizeOf f.
Proof.
  intros H. unfold bytesOf, Blob_bytes. apply lengthN_takeN.
  apply Blob_ptr_length. exact H.
Qed.

Lemma appendChunkFilePrefix_spec (chunk : Chunk) (f : File) (rem : N) :
  wfFile f -> rem < sizeOf f -> rem < 2 ^ 31 ->
  totalSize chunk + sizeOf f < SIZE_MOD ->
  (appendChunkFilePrefix ndebug chunk f rem = Done (chunk, f) /\
   files chunk <> [] /\ count_LF (takeN rem (bytesOf f)) = 0)
  \/
  (exists p t,
     appendChunkFilePrefix ndebug chunk f rem
     = Done ({| files := files chunk ++ [p];
                totalSize := totalSize chunk + sizeOf p |}, t) /\
     IsSplit f p t /\
     (sizeOf p <= rem \/ (files chunk = [] /\ rem < sizeOf p))).
Proof.
  intros Hwf Hrem H31 Htot.
  pose proof (Blob_ptr_length f Hwf) as Hlen.
  destruct Hwf as [Hw1 Hw2].
  unfold appendChunkFilePrefix, Blob_data.
  rewrite (assert_true (_ <=? _))
    by (apply N.leb_le; unfold sz_add; rewrite sz_small; unfold sizeOf in *; lia).
  rewrite !bind_Done.
  rewrite (assert_true (_ <? _)) by (apply N.ltb_lt; exact Hrem).
  rewrite bind_Done.
  rewrite skipByLines_spec by (unfold sizeOf in *; lia).
  cbn [fst snd].
  set (data := Blob_ptr (contents f)) in *.
  assert (Hb : takeN rem (bytesOf f) = takeN rem data).
  { unfold bytesOf, Blob_bytes. fold data. apply takeN_takeN. unfold sizeOf in *. lia. }
  rewrite Hb.
  set (l1 := takeN rem data) in *.
  pose proof (lastLF_le l1) as Hl1. 
  assert (Hl1len : lengthN l1 = rem) by (apply lengthN_takeN; lia).
  rewrite Hl1len in Hl1.
  pose proof (lastLF_pos_iff l1) as Hp.
  destruct (0 <? lastLF l1) eqn:E.
  - apply N.ltb_lt in E. right. cbn [orb].
    unfold splitPrefix.
    rewrite assert_true by (apply N.leb_le; unfold Blob_size, sizeOf in *; lia).
    rewrite !bind_Done.
    exists (prefixOf f (lastLF l1)), (suffixOf f (lastLF l1) (count_LF l1)).
    assert (Hbp : bytesOf (prefixOf f (lastLF l1)) = takeN (lastLF l1) l1).
    { rewrite bytesOf_prefixOf. fold data. symmetry. exact (takeN_takeN _ _ _ Hl1). }
    split; [|split].
    + unfold set_startLine, prefixOf, suffixOf. cbn.
      unfold sz_add. rewrite !sz_small by (unfold sizeOf in *; lia).
      rewrite sz_sub_le by (unfold sizeOf in *; lia). reflexivity.
    + exists (lastLF l1). split; [unfold sizeOf in *; lia|].
      split; [reflexivity|]. unfold lineStep. rewrite Hbp, count_LF_take_lastLF.
      split; [f_equal; lia | left; lia].
    + left. cbn. lia.
  - apply N.ltb_ge in E. cbn [orb].
    destruct (files chunk) as [|f0 fs0] eqn:Hfiles.
    + right. rewrite skipOneLine_spec.
      unfold Blob_size. fold (sizeOf f).
      set (l2 := takeN (sizeOf f) data) in *.
      assert (Hl2 : l2 = bytesOf f) by reflexivity.
      assert (Hl2len : lengthN l2 = sizeOf f) by (apply lengthN_takeN; lia).
      assert (Hl1l2 : l1 = takeN rem l2)
        by (symmetry; apply takeN_takeN; lia).
      destruct (0 <? count_LF l2) eqn:E2.
      * apply N.ltb_lt in E2.
        pose proof (firstLF_bounds l2 E2) as Hfb. rewrite Hl2len in Hfb.
        unfold splitPrefix.
        rewrite assert_true by (apply N.leb_le; unfold Blob_size; fold (sizeOf f); lia).
        rewrite !bind_Done.
        exists (prefixOf f (firstLF l2)), (suffixOf f (firstLF l2) 1).
        assert (Hbp : bytesOf (prefixOf f (firstLF l2)) = takeN (firstLF l2) l2).
        { rewrite bytesOf_prefixOf. fold data. symmetry.
          apply takeN_takeN. lia. }
        assert (Hgt : rem < firstLF l2).
        { apply N.nle_gt. intros Hle.
          assert (count_LF (takeN (firstLF l2) l1) = 1).
          { rewrite Hl1l2, takeN_takeN by lia. apply count_LF_take_firstLF. exact E2. }
          assert (count_LF l1 = 0) by lia.
          assert (Hx : l1 = takeN (firstLF l2) l1 ++ dropN (firstLF l2) l1)
            by (unfold takeN, dropN; symmetry; apply take_drop).
          rewrite Hx, count_LF_app in H0. lia. }
        split; [|split].
        -- unfold set_startLine, prefixOf, suffixOf. cbn.
           unfold sz_add. rewrite !sz_small by (unfold sizeOf in *; lia).
           rewrite sz_sub_le by (unfold sizeOf in *; lia). reflexivity.
        -- exists (firstLF l2). split; [lia|]. split; [reflexivity|].
           unfold lineStep. rewrite Hbp, count_LF_take_firstLF by exact E2.
           split; [reflexivity | left; lia].
        -- right. split; [reflexivity|]. cbn. exact Hgt.
      * apply N.ltb_ge in E2.
        unfold splitPrefix.
        rewrite assert_true by (apply N.leb_le; unfold Blob_size; fold (sizeOf f); lia).
        rewrite !bind_Done.
        exists (prefixOf f (sizeOf f)), (suffixOf f (sizeOf f) 1).
        split; [|split].
        -- unfold set_startLine, prefixOf, suffixOf. cbn.
           unfold sz_add. rewrite !sz_small by (unfold sizeOf in *; lia).
           rewrite sz_sub_le by (unfold sizeOf in *; lia). reflexivity.
        -- exists (sizeOf f). split; [lia|]. split; [reflexivity|].
           unfold lineStep. rewrite bytesOf_prefixOf. fold data. fold l2.
           replace (count_LF l2) with 0 by lia.
           split; [reflexivity | right; reflexivity].
        -- right. split; [reflexivity|]. cbn. exact Hrem.
    + left. split; [reflexivity|]. split; [discriminate | lia].
Qed.
End SplitPrefix.

(** ** One chunk: [fillChunk] and [flushChunk] *)

Lemma sumCount_app l1 l2 : sumCount (l1 ++ l2) = sumCount l1 + sumCount l2.
Proof. induction l1 as [|f l1 IH]; simpl; [reflexivity|]. rewrite IH. lia. Qed.

Lemma sumCount_cons f l : sumCount (f :: l) = sizeOf f + sumCount l.
Proof. reflexivity. Qed.

Lemma IsSplit_size f p t : IsSplit f p t -> sizeOf p + sizeOf t = sizeOf f /\ 1 <= sizeOf p.
Proof.
  intros (k & Hk & -> & -> & _). unfold sizeOf, prefixOf, suffixOf. simpl.
  unfold sizeOf in Hk. lia.
Qed.

Lemma IsSplit_name f p t : IsSplit f p t -> name p = name f /\ name t = name f.
Proof. intros (k & Hk & -> & -> & _). split; reflexivity. Qed.

Lemma IsSplit_wf f p t : wfFile f -> IsSplit f p t -> wfFile p /\ wfFile t.
Proof.
  intros [H1 H2] (k & Hk & -> & -> & _). unfold wfFile, prefixOf, suffixOf, sizeOf in *.
  simpl. lia.
Qed.

Lemma Moved_cons f pending moved pending' :
  Moved pending moved pending' -> Moved (f :: pending) (f :: moved) pending'.
Proof.
  intros [H | whole g p t rest H1 H2 H3 Hwf Hs].
  - apply Moved_whole. rewrite H. reflexivity.
  - apply (Moved_split _ _ _ (f :: whole) g p t rest); subst; auto.
Qed.

Lemma Moved_sum pending moved pending' :
  Moved pending moved pending' ->
  sumCount moved + sumCount pending' = sumCount pending.
Proof.
  intros [H | whole g p t rest H1 H2 H3 Hwf Hs]; subst.
  - rewrite sumCount_app. reflexivity.
  - rewrite !sumCount_app, !sumCount_cons. simpl.
    apply IsSplit_size in Hs. lia.
Qed.

Lemma Moved_wf pending moved pending' :
  Forall wfFile pending -> Moved pending moved pending' ->
  Forall wfFile moved /\ Forall wfFile pending'.
Proof.
  intros Hwf [H | whole g p t rest H1 H2 H3 Hg Hs]; subst.
  - apply Forall_app in Hwf. exact Hwf.
  - apply Forall_app in Hwf as [Hw1 Hw2]. apply Forall_cons in Hw2 as [Hw2 Hw3].
    destruct (IsSplit_wf _ _ _ Hw2 Hs) as [Hp Ht].
    split.
    + apply Forall_app. split; [exact Hw1 | constructor; [exact Hp | constructor]].
    + constructor; assumption.
Qed.

Lemma pow31_lt_SIZE_MOD : 2 ^ 31 < SIZE_MOD.
Proof. reflexivity. Qed.

Section FillChunk.
Variable ndebug : bool.

Lemma fillChunk_spec (size : N) :
  size < 2 ^ 31 ->
  forall (pending : list File) (chunk : Chunk),
    Forall wfFile pending ->
    totalSize chunk + sumCount pending < SIZE_MOD ->
    exists moved pending',
      fillChunk ndebug size chunk pending
      = Done ({| files := files chunk ++ moved;
                 totalSize := totalSize chunk + sumCount moved |}, pending') /\
      Moved pending moved pending' /\
      Forall (fun r => sizeOf r <= size \/ (files chunk = [] /\ moved = [r])) moved /\
      measure pending' <= measure pending /\
      (totalSize chunk < size -> files chunk = [] -> pending <> [] ->
       measure pending' < measure pending /\ moved <> []).
Proof.
  intros H31. pose proof pow31_lt_SIZE_MOD as Hpow.
  induction pending as [|f rest IH]; intros chunk Hwf Htot.
  - exists [], []. cbn [fillChunk]. destruct chunk as [fs ts]. cbn.
    rewrite app_nil_r, N.add_0_r.
    split; [destruct (ts <? size); reflexivity|].
    split; [apply Moved_whole; reflexivity|].
    split; [constructor|].
    split; [reflexivity | intros _ _ H; congruence].
  - cbn [fillChunk]. destruct (totalSize chunk <? size) eqn:Hts.
    2:{ exists [], (f :: rest). destruct chunk as [fs ts]. cbn.
        rewrite app_nil_r, N.add_0_r.
        split; [reflexivity|].
        split; [apply Moved_whole; reflexivity|].
        split; [constructor|].
        split; [reflexivity|].
        apply N.ltb_ge in Hts. cbn in Hts. intros. lia. }
    apply N.ltb_lt in Hts.
    apply Forall_cons in Hwf as [Hf Hrest].
    rewrite sumCount_cons in Htot.
    rewrite sz_sub_le by lia.
    unfold Blob_size. fold (sizeOf f).
    destruct (sizeOf f <=? size - totalSize chunk) eqn:Hfit.
    + apply N.leb_le in Hfit.
      destruct (IH (appendChunkFile chunk f) Hrest)
        as (moved & pending' & Hrun & Hm & Hall & Hle & _).
      { cbn. unfold sz_add, Blob_size. fold (sizeOf f). rewrite sz_small by lia. lia. }
      exists (f :: moved), pending'. split; [|split; [|split; [|split]]].
      * rewrite Hrun. cbn [appendChunkFile files totalSize].
        unfold sz_add, Blob_size. fold (sizeOf f).
        rewrite sz_small by lia. rewrite <- (assoc_L (++)).
        rewrite sumCount_cons. cbn [app].
        do 3 f_equal. lia.
      * apply Moved_cons. exact Hm.
      * constructor; [left; lia|].
        eapply Forall_impl; [exact Hall|]. cbn. intros r [Hr | [Hr _]]; [left; exact Hr|].
        destruct (files chunk); discriminate.
      * unfold measure in *. rewrite sumCount_cons, lengthN_cons. lia.
      * intros _ _ _. split; [|discriminate].
        unfold measure in *. rewrite sumCount_cons, lengthN_cons. lia.
    + apply N.leb_gt in Hfit.
      destruct (appendChunkFilePrefix_spec ndebug chunk f (size - totalSize chunk))
        as [(Hrun & Hne & _) | (p & t & Hrun & Hs & Hsz)]; try assumption; try lia.
      * exists [], (f :: rest). rewrite Hrun. cbn.
        destruct chunk as [fs ts]. cbn. rewrite app_nil_r, N.add_0_r.
        split; [reflexivity|].
        split; [apply Moved_whole; reflexivity|].
        split; [constructor|].
        split; [reflexivity|].
        cbn in Hne. intros. congruence.
      * exists [p], (t :: rest). rewrite Hrun, bind_Done.
        change (sumCount [p]) with (sizeOf p + 0). cbn beta iota.
        pose proof (IsSplit_size _ _ _ Hs) as [Hsum Hp1].
        split; [|split; [|split; [|split]]].
        -- rewrite N.add_0_r. reflexivity.
        -- apply (Moved_split _ _ _ [] f p t rest); auto.
        -- constructor; [|constructor].
           destruct Hsz as [Hsz | [Hsz _]]; [left; lia | right; split; [exact Hsz | reflexivity]].
        -- unfold measure. rewrite !sumCount_cons, !lengthN_cons. lia.
        -- intros _ _ _. split; [|discriminate].
           unfold measure. rewrite !sumCount_cons, !lengthN_cons. lia.
Qed.
End FillChunk.

Lemma emitted_app out1 out2 : emitted (out1 ++ out2) = emitted out1 ++ emitted out2.
Proof. unfold emitted. rewrite map_app, concat_app. reflexivity. Qed.

Lemma named_app n l1 l2 : named n (l1 ++ l2) = named n l1 ++ named n l2.
Proof. apply filter_app. Qed.

Lemma named_cons_eq n f l : name f = n -> named n (f :: l) = f :: named n l.
Proof. intros H. unfold named. rewrite filter_cons_True by exact H. reflexivity. Qed.

Lemma named_cons_ne n f l : name f <> n -> named n (f :: l) = named n l.
Proof. intros H. unfold named. rewrite filter_cons_False by exact H. reflexivity. Qed.

Lemma named_nil_notin n l : n ∉ map name l -> named n l = [].
Proof.
  induction l as [|f l IH]; [reflexivity|]. cbn [map].
  rewrite not_elem_of_cons. intros [H1 H2].
  rewrite named_cons_ne by congruence. auto.
Qed.

Lemma bytesOf_prefix_all f : bytesOf (prefixOf f (sizeOf f)) = bytesOf f.
Proof. reflexivity. Qed.

Ltac simpl_rec :=
  cbn [name contents offset count storage startLine fileSize timeStamp
       files totalSize pendingFiles pendingSize outData] in *.

Lemma CChain_split_last n d f p t :
  IsSplit f p t ->
  forall X off sl, CChain n d off sl (X ++ [f]) -> CChain n d off sl (X ++ [p; t]).
Proof.
  intros (k & Hk & -> & -> & Hlf). induction X as [|x X IH]; intros off sl H.
  - cbn [app] in *. inversion H as [off' sl' f' Hr Hend | off' sl' f' rs Hr H1 Hl Hc]; subst.
    2:{ inversion Hc. }
    destruct Hr as (Hn & Hst & Hoff & Hsl & Hle). subst off sl.
    apply CChain_cons.
    + unfold recordAt, prefixOf, sizeOf in *. simpl_rec. repeat split; auto. lia.
    + unfold sizeOf, prefixOf. simpl_rec. lia.
    + destruct Hlf as [Hlf | ->]; [left; exact Hlf | right].
      unfold sizeOf, prefixOf in *. simpl_rec. lia.
    + apply CChain_last.
      * unfold recordAt, prefixOf, suffixOf, sizeOf in *. simpl_rec.
        repeat split; auto. lia.
      * unfold prefixOf, suffixOf, sizeOf in *. simpl_rec. lia.
  - cbn [app] in *.
    inversion H as [off' sl' f' Hr Hend | off' sl' f' rs Hr H1 Hl Hc]; subst.
    + destruct X; discriminate.
    + apply CChain_cons; auto.
Qed.

Section FlushChunk.
Variable ndebug : bool.

Lemma flushChunk_spec (size : N) (b : Builder) :
  size < 2 ^ 31 -> WF b ->
  exists moved pending',
    flushChunk ndebug size b
    = Done {| pendingFiles := pending';
              pendingSize := sumCount pending';
              outData := flushChunk_chunk
                           {| files := moved; totalSize := sumCount moved |}
                           (outData b) |} /\
    Moved (pendingFiles b) moved pending' /\
    Forall (fun r => sizeOf r <= size \/ moved = [r]) moved /\
    measure pending' <= measure (pendingFiles b) /\
    (0 < size -> pendingFiles b <> [] ->
     measure pending' < measure (pendingFiles b) /\ moved <> []).
Proof.
  intros H31 (Hwf & Hsum & Hlt).
  destruct (fillChunk_spec ndebug size H31 (pendingFiles b)
              {| files := []; totalSize := 0 |} Hwf)
    as (moved & pending' & Hrun & Hm & Hall & Hle & Hstrict).
  { cbn. rewrite <- Hsum. lia. }
  exists moved, pending'. unfold flushChunk. rewrite Hrun, bind_Done.
  cbn [files totalSize app]. rewrite N.add_0_l.
  pose proof (Moved_sum _ _ _ Hm) as Hms.
  rewrite (assert_true ndebug) by (apply N.leb_le; lia).
  rewrite bind_Done. rewrite sz_sub_le by lia.
  split; [|split; [|split; [|split]]].
  - do 2 f_equal. lia.
  - exact Hm.
  - eapply Forall_impl; [exact Hall|]. cbn. intros r [H | [_ H]]; auto.
  - exact Hle.
  - intros Hs Hne. apply Hstrict; auto.
Qed.

Lemma emitted_flushChunk_chunk moved out :
  emitted (flushChunk_chunk {| files := moved; totalSize := sumCount moved |} out)
  = emitted out ++ moved.
Proof.
  unfold flushChunk_chunk. cbn [files]. destruct moved as [|f moved].
  - rewrite app_nil_r. reflexivity.
  - rewrite emitted_app. unfold emitted at 2. cbn. rewrite app_nil_r. reflexivity.
Qed.

Lemma Inv_flushChunk size done b moved pending' :
  Inv size done b ->
  Moved (pendingFiles b) moved pending' ->
  Forall (fun r => sizeOf r <= size \/ moved = [r]) moved ->
  Inv size done
      {| pendingFiles := pending';
         pendingSize := sumCount pending';
         outData := flushChunk_chunk
                      {| files := moved; totalSize := sumCount moved |}
                      (outData b) |}.
Proof.
  intros [(Hwf & Hsum & Hlt) Hnd Hnames Hchain Hchunks] Hm Hall.
  pose proof (Moved_sum _ _ _ Hm) as Hms.
  pose proof (Moved_wf _ _ _ Hwf Hm) as [Hwm Hwp].
  assert (Hrecs : forall n,
    named n (emitted (outData b) ++ moved ++ pending') = named n (allRecords b) \/
    exists X f p t, IsSplit f p t /\ name f = n /\
      named n (allRecords b) = X ++ [f] /\
      named n (emitted (outData b) ++ moved ++ pending') = X ++ [p; t]).
  { intros n. unfold allRecords.
    destruct Hm as [H | whole f p t rest H1 H2 H3 Hf Hs].
    - left. rewrite H. reflexivity.
    - subst moved pending'. rewrite H1 in *.
      destruct (IsSplit_name _ _ _ Hs) as [Hnp Hnt].
      destruct (decide (name f = n)) as [Heq | Hne].
      + right. exists (named n (emitted (outData b) ++ whole)), f, p, t.
        split; [exact Hs|]. split; [exact Heq|].
        assert (Hrest : named n rest = []).
        { apply named_nil_notin. rewrite map_app in Hnd. cbn [map] in Hnd.
          apply NoDup_app in Hnd as (_ & _ & Hnd).
          apply NoDup_cons in Hnd as [Hnd _]. rewrite <- Heq. exact Hnd. }
        rewrite !named_app. rewrite (named_cons_eq n f) by exact Heq.
        rewrite <- !(assoc_L (++)). cbn [app].
        rewrite (named_cons_eq n p) by congruence.
        rewrite (named_cons_eq n t) by congruence.
        rewrite Hrest. split; reflexivity.
      + left. rewrite !named_app. rewrite (named_cons_ne n f) by exact Hne.
        cbn [app]. rewrite (named_cons_ne n p) by congruence.
        rewrite (named_cons_ne n t) by congruence.
        change (named n []) with (@nil File). rewrite app_nil_r. reflexivity. }
  constructor; cbn [pendingFiles pendingSize outData].
  - unfold WF. cbn [pendingFiles pendingSize].
    split; [exact Hwp|]. split; [reflexivity | lia].
  - destruct Hm as [H | whole f p t rest H1 H2 H3 Hf Hs].
    + rewrite H, map_app in Hnd. apply NoDup_app in Hnd. tauto.
    + subst. rewrite H1, map_app in Hnd. apply NoDup_app in Hnd as (_ & _ & Hnd).
      cbn [map] in *. destruct (IsSplit_name _ _ _ Hs) as [_ ->]. exact Hnd.
  - intros r. unfold allRecords. cbn [pendingFiles outData].
    rewrite emitted_flushChunk_chunk, <- (assoc_L (++)).
    intros Hr. unfold allRecords in Hnames.
    destruct Hm as [H | whole f p t rest H1 H2 H3 Hf Hs].
    + apply Hnames. rewrite H. exact Hr.
    + subst. destruct (IsSplit_name _ _ _ Hs) as [Hnp Hnt].
      rewrite H1 in Hnames.
      assert (Hc : r ∈ emitted (outData b) \/ r ∈ whole \/ r = p \/ r = t \/ r ∈ rest)
        by (clear -Hr; rewrite !elem_of_app, !elem_of_cons, elem_of_nil in Hr;
            tauto).
      destruct Hc as [Hc | [Hc | [-> | [-> | Hc]]]];
        [| | rewrite Hnp | rewrite Hnt |];
        apply Hnames; rewrite !elem_of_app, elem_of_cons; auto.
  - intros n d Hnd'. unfold allRecords. cbn [pendingFiles outData].
    rewrite emitted_flushChunk_chunk, <- (assoc_L (++)).
    specialize (Hchain n d Hnd').
    destruct (Hrecs n) as [-> | (X & f & p & t & Hs & Hn & HX & ->)]; [exact Hchain|].
    rewrite HX in Hchain. eapply CChain_split_last; eauto.
  - unfold flushChunk_chunk. cbn [files]. destruct moved as [|m moved]; [exact Hchunks|].
    apply Forall_app. split; [exact Hchunks|]. constructor; [|constructor].
    cbn. split; [discriminate|]. split; [reflexivity|]. exact Hall.
Qed.
End FlushChunk.

(** ** The flush loops: [flushIfNeeded] and [flush] *)

Lemma WF_measure b : WF b -> loopBudget b = N.to_nat (measure (pendingFiles b)).
Proof.
  intros (_ & Hs & _). unfold loopBudget, measure, lengthN. rewrite Hs. lia.
Qed.

Lemma WF_FlushStep size b b' : WF b -> FlushStep size b b' -> WF b'.
Proof.
  intros (Hwf & Hsum & Hlt) (moved & pending' & -> & Hm & _).
  pose proof (Moved_sum _ _ _ Hm). pose proof (Moved_wf _ _ _ Hwf Hm) as [_ Hp].
  unfold WF. simpl_rec. split; [exact Hp|]. split; [reflexivity | lia].
Qed.

Lemma Inv_FlushStep size done b b' :
  Inv size done b -> FlushStep size b b' -> Inv size done b'.
Proof.
  intros HI (moved & pending' & -> & Hm & Hall). apply Inv_flushChunk; assumption.
Qed.

Lemma Inv_rtc size done b b' :
  Inv size done b -> rtc (FlushStep size) b b' -> Inv size done b'.
Proof. intros HI H. induction H; eauto using Inv_FlushStep. Qed.

Lemma WF_rtc size b b' : WF b -> rtc (FlushStep size) b b' -> WF b'.
Proof. intros HI H. induction H; eauto using WF_FlushStep. Qed.

Lemma FlushStep_out size b b' :
  FlushStep size b b' -> exists recs, outData b' = outData b ++ recs.
Proof.
  intros (moved & pending' & -> & _). simpl_rec. unfold flushChunk_chunk.
  destruct (files _); [exists []; rewrite app_nil_r | eexists]; reflexivity.
Qed.

Lemma rtc_out size b b' :
  rtc (FlushStep size) b b' -> exists recs, outData b' = outData b ++ recs.
Proof.
  induction 1 as [b | b b1 b2 H1 _ (recs & IH)].
  - exists []. rewrite app_nil_r. reflexivity.
  - destruct (FlushStep_out _ _ _ H1) as (recs1 & H1').
    exists (recs1 ++ recs). rewrite IH, H1', <- (assoc_L (++)). reflexivity.
Qed.

Section FlushLoops.
Variable ndebug : bool.
Variable kChunkSize : N.
Hypothesis kChunkSize_pos : 0 < kChunkSize.
Hypothesis kChunkSize_small : kChunkSize < 2 ^ 31.

Lemma sz_mul_kChunkSize_2 : sz_mul kChunkSize 2 = 2 * kChunkSize.
Proof.
  pose proof pow31_lt_SIZE_MOD.
  unfold sz_mul. rewrite sz_small; [lia|].
  assert (2 * 2 ^ 31 < SIZE_MOD) by reflexivity. lia.
Qed.

Lemma flushChunk_step (size : N) (b : Builder) :
  size < 2 ^ 31 -> WF b ->
  exists b', flushChunk ndebug size b = Done b' /\ FlushStep size b b' /\
    measure (pendingFiles b') <= measure (pendingFiles b) /\
    (0 < size -> pendingFiles b <> [] ->
     measure (pendingFiles b') < measure (pendingFiles b) /\
     outData b' <> outData b).
Proof.
  intros Hs Hwf.
  destruct (flushChunk_spec ndebug size b Hs Hwf)
    as (moved & pending' & Hrun & Hm & Hall & Hle & Hstrict).
  eexists. split; [exact Hrun|]. split; [|split].
  - exists moved, pending'. auto.
  - exact Hle.
  - intros H0 Hne. destruct (Hstrict H0 Hne) as [Hlt Hmv]. simpl_rec.
    split; [exact Hlt|]. unfold flushChunk_chunk. simpl_rec.
    destruct moved; [congruence|]. intros Heq.
    apply (f_equal length) in Heq. rewrite length_app in Heq. simpl in Heq. lia.
Qed.

Lemma WF_pending_nonempty b : WF b -> 0 < pendingSize b -> pendingFiles b <> [].
Proof. intros (_ & Hs & _) Hp Hnil. rewrite Hnil in Hs. simpl in Hs. lia. Qed.

Lemma flushIfNeeded_loop_spec (fuel : nat) :
  forall b, WF b -> (N.to_nat (measure (pendingFiles b)) <= fuel)%nat ->
  exists b',
    flushIfNeeded_loop ndebug kChunkSize fuel b = Done b' /\
    rtc (FlushStep kChunkSize) b b' /\
    pendingSize b' < 2 * kChunkSize /\
    (2 * kChunkSize <= pendingSize b -> outData b' <> outData b).
Proof.
  induction fuel as [|fuel IH]; intros b Hwf Hfuel.
  - cbn [flushIfNeeded_loop]. rewrite sz_mul_kChunkSize_2.
    assert (Hp : pendingSize b = 0).
    { destruct Hwf as (_ & Hs & _). unfold measure in Hfuel. lia. }
    replace (2 * kChunkSize <=? pendingSize b) with false
      by (symmetry; apply N.leb_gt; lia).
    exists b. split; [reflexivity|]. split; [constructor|]. lia.
  - cbn [flushIfNeeded_loop]. rewrite sz_mul_kChunkSize_2.
    destruct (2 * kChunkSize <=? pendingSize b) eqn:E.
    + apply N.leb_le in E.
      destruct (flushChunk_step kChunkSize b kChunkSize_small Hwf)
        as (b1 & Hrun & Hstep & _ & Hstrict).
      destruct Hstrict as [Hlt Hout];
        [exact kChunkSize_pos | apply WF_pending_nonempty; [exact Hwf | lia] |].
      pose proof (WF_FlushStep _ _ _ Hwf Hstep) as Hwf1.
      destruct (IH b1 Hwf1) as (b' & Hrun' & Hrtc & Hexit & _); [lia|].
      exists b'. rewrite Hrun, bind_Done. split; [exact Hrun'|].
      split; [econstructor; eassumption|]. split; [exact Hexit|].
      intros _ Heq.
      destruct (FlushStep_out _ _ _ Hstep) as (r1 & H1).
      destruct (rtc_out _ _ _ Hrtc) as (r2 & H2).
      rewrite H2, H1 in Heq. rewrite H1 in Hout.
      rewrite <- (assoc_L (++)) in Heq.
      apply (f_equal length) in Heq. rewrite !length_app in Heq.
      destruct r1; [rewrite app_nil_r in Hout; congruence|]. simpl in Heq. lia.
    + apply N.leb_gt in E. exists b. split; [reflexivity|].
      split; [constructor|]. split; [exact E | lia].
Qed.

Lemma flushIfNeeded_spec b :
  WF b ->
  exists b',
    flushIfNeeded ndebug kChunkSize b = Done b' /\
    rtc (FlushStep kChunkSize) b b' /\
    pendingSize b' < 2 * kChunkSize /\
    (2 * kChunkSize <= pendingSize b -> outData b' <> outData b).
Proof.
  intros Hwf. unfold flushIfNeeded. apply flushIfNeeded_loop_spec; [exact Hwf|].
  rewrite (WF_measure b Hwf). lia.
Qed.

Lemma flush_loop_spec (fuel : nat) :
  forall b, WF b -> (N.to_nat (measure (pendingFiles b)) <= fuel)%nat ->
  exists b',
    flush_loop ndebug kChunkSize fuel b = Done b' /\
    rtc (FlushStep kChunkSize) b b' /\
    pendingSize b' = 0.
Proof.
  induction fuel as [|fuel IH]; intros b Hwf Hfuel.
  - cbn [flush_loop].
    assert (Hp : pendingSize b = 0).
    { destruct Hwf as (_ & Hs & _). unfold measure in Hfuel. lia. }
    rewrite Hp. cbn. exists b. split; [reflexivity|]. split; [constructor | exact Hp].
  - cbn [flush_loop].
    destruct (0 <? pendingSize b) eqn:E.
    + apply N.ltb_lt in E.
      destruct (flushChunk_step kChunkSize b kChunkSize_small Hwf)
        as (b1 & Hrun & Hstep & _ & Hstrict).
      destruct Hstrict as [Hlt Hout];
        [exact kChunkSize_pos | apply WF_pending_nonempty; [exact Hwf | lia] |].
      pose proof (WF_FlushStep _ _ _ Hwf Hstep) as Hwf1.
      destruct (IH b1 Hwf1) as (b' & Hrun' & Hrtc & Hexit); [lia|].
      exists b'. rewrite Hrun, bind_Done. split; [exact Hrun'|].
      split; [econstructor; eassumption | exact Hexit].
    + apply N.ltb_ge in E. exists b. split; [reflexivity|].
      split; [constructor | lia].
Qed.

Lemma flush_spec b :
  WF b ->
  exists b',
    flush ndebug kChunkSize b = Done b' /\
    rtc (FlushStep kChunkSize) b b' /\
    pendingSize b' = 0.
Proof.
  intros Hwf. unfold flush. apply flush_loop_spec; [exact Hwf|].
  rewrite (WF_measure b Hwf). lia.
Qed.

End FlushLoops.

(** ** A whole build: [appendFilePart], [appendFile] and [buildProject] *)

Section BuildProject.
Variable ndebug : bool.
Variable kChunkSize : N.
Variable convertToUTF8 : list byte -> list byte.
Hypothesis kChunkSize_pos : 0 < kChunkSize.
Hypothesis kChunkSize_small : kChunkSize < 2 ^ 31.

Lemma sources_cons_Some f fs rawBytes :
  raw f = Some rawBytes ->
  sources convertToUTF8 (f :: fs)
  = (path f, fileContents convertToUTF8 rawBytes) :: sources convertToUTF8 fs.
Proof. intros H. unfold sources. cbn. rewrite H. reflexivity. Qed.

Lemma sources_cons_None f fs :
  raw f = None -> sources convertToUTF8 (f :: fs) = sources convertToUTF8 fs.
Proof. intros H. unfold sources. cbn. rewrite H. reflexivity. Qed.

Lemma Inv_append size done b path data mtime fsize :
  Inv size done b -> path ∉ map fst done ->
  pendingSize b + lengthN data < SIZE_MOD ->
  Inv size (done ++ [(path, data)])
      {| pendingFiles := pendingFiles b ++ [newRecord path data mtime fsize];
         pendingSize := pendingSize b + lengthN data;
         outData := outData b |}.
Proof.
  intros [(Hwf & Hsum & Hlt) Hnd Hnames Hchain Hchunks] Hfresh Hbound.
  assert (Hall : allRecords
            {| pendingFiles := pendingFiles b ++ [newRecord path data mtime fsize];
               pendingSize := pendingSize b + lengthN data;
               outData := outData b |}
          = allRecords b ++ [newRecord path data mtime fsize]).
  { unfold allRecords. simpl_rec. rewrite (assoc_L (++)). reflexivity. }
  assert (Hnone : path ∉ map name (allRecords b)).
  { intros Hin. apply list_elem_of_fmap in Hin as (r & -> & Hr).
    apply Hfresh. apply Hnames. exact Hr. }
  constructor.
  - unfold WF. simpl_rec. split; [|split].
    + apply Forall_app. split; [exact Hwf|]. constructor; [|constructor].
      unfold wfFile, newRecord, Blob_of. simpl_rec. lia.
    + rewrite sumCount_app. cbn [sumCount]. unfold sizeOf, newRecord, Blob_of.
      simpl_rec. lia.
    + exact Hbound.
  - simpl_rec. rewrite map_app. apply NoDup_app. split; [exact Hnd|]. split.
    + intros n Hn Hn'. cbn in Hn'. apply list_elem_of_singleton in Hn'. subst n.
      apply Hnone. unfold allRecords. rewrite map_app. apply elem_of_app. right. exact Hn.
    + cbn. apply NoDup_singleton.
  - intros r. rewrite Hall. rewrite elem_of_app, list_elem_of_singleton.
    rewrite map_app, elem_of_app. intros [Hr | ->]; [left; auto | right].
    cbn. apply list_elem_of_singleton. reflexivity.
  - intros n d. rewrite elem_of_app, list_elem_of_singleton. rewrite Hall, named_app.
    intros [Hin | Heq].
    + assert (n <> path).
      { intros ->. apply Hfresh. apply list_elem_of_fmap. exists (path, d). auto. }
      rewrite (named_cons_ne n) by (cbn; congruence).
      change (named n []) with (@nil File). rewrite app_nil_r. auto.
    + injection Heq as -> ->.
      rewrite (named_nil_notin path (allRecords b) Hnone).
      rewrite (named_cons_eq path) by reflexivity. cbn [app].
      apply CChain_last.
      * unfold recordAt, newRecord, Blob_of, sizeOf. simpl_rec.
        repeat split; auto; lia.
      * unfold newRecord, Blob_of, sizeOf. simpl_rec. lia.
  - exact Hchunks.
Qed.

Lemma appendFilePart_spec done b path data mtime fsize :
  Inv kChunkSize done b -> pendingSize b < 2 * kChunkSize ->
  path ∉ map fst done -> lengthN data < UINT_MOD ->
  exists b',
    appendFilePart ndebug kChunkSize path 0 data mtime fsize b = Done b' /\
    Inv kChunkSize (done ++ [(path, data)]) b' /\
    pendingSize b' < 2 * kChunkSize.
Proof.
  intros HI Hp Hfresh Hdata.
  assert (Hbound : pendingSize b + lengthN data < SIZE_MOD).
  { assert (2 * 2 ^ 31 + UINT_MOD < SIZE_MOD) by reflexivity. lia. }
  pose proof (Inv_append _ _ _ path data mtime fsize HI Hfresh Hbound) as HI1.
  unfold appendFilePart.
  assert (Hstep :
    match last (pendingFiles b) with
    | Some file =>
      if String.eqb (name file) path then
        assert ndebug (startLine file <? 0) ;;
        assert ndebug ((timeStamp file =? mtime) && (fileSize file =? fsize)) ;;
        assert ndebug (sz_add (offset (contents file)) (count (contents file))
                       =? lengthN (storage (contents file))) ;;
        Done {| pendingFiles := removelast (pendingFiles b) ++
                  [{| name := name file;
                      contents := {| offset := offset (contents file);
                                     count := sz_add (count (contents file)) (lengthN data);
                                     storage := storage (contents file) ++ data |};
                      startLine := startLine file;
                      fileSize := fileSize file;
                      timeStamp := timeStamp file |}];
                pendingSize := sz_add (pendingSize b) (lengthN data);
                outData := outData b |}
      else
        Done {| pendingFiles :=
                  pendingFiles b ++
                  [{| name := path; contents := Blob_of data;
                      startLine := 0; fileSize := fsize;
                      timeStamp := mtime |}];
                pendingSize := sz_add (pendingSize b) (lengthN data);
                outData := outData b |}
    | None =>
      Done {| pendingFiles :=
                [{| name := path; contents := Blob_of data;
                    startLine := 0; fileSize := fsize;
                    timeStamp := mtime |}];
              pendingSize := sz_add (pendingSize b) (lengthN data);
              outData := outData b |}
    end
    = Done {| pendingFiles := pendingFiles b ++ [newRecord path data mtime fsize];
              pendingSize := pendingSize b + lengthN data;
              outData := outData b |}).
  { unfold sz_add. rewrite sz_small by exact Hbound.
    destruct (last (pendingFiles b)) as [file|] eqn:Hlast.
    - assert (Hne : name file <> path).
      { intros Heq. apply Hfresh. rewrite <- Heq. apply (inv_names _ _ _ HI).
        unfold allRecords. apply elem_of_app. right.
        apply last_Some in Hlast as (l' & ->). apply elem_of_app. right.
        apply list_elem_of_singleton. reflexivity. }
      apply String.eqb_neq in Hne. rewrite Hne. reflexivity.
    - apply last_None in Hlast. rewrite Hlast. reflexivity. }
  rewrite Hstep, bind_Done.
  destruct (flushIfNeeded_spec ndebug kChunkSize kChunkSize_pos kChunkSize_small _
              (inv_wf _ _ _ HI1)) as (b' & Hrun & Hrtc & Hexit & _).
  exists b'. split; [exact Hrun|]. split; [|exact Hexit].
  eapply Inv_rtc; eassumption.
Qed.

Lemma appendFiles_spec (fs : list SourceFile) :
  forall done b,
    Inv kChunkSize done b -> pendingSize b < 2 * kChunkSize ->
    NoDup (map path fs) ->
    (forall f, f ∈ fs -> path f ∉ map fst done) ->
    Forall (smallFile convertToUTF8) fs ->
    exists b',
      appendFiles ndebug kChunkSize convertToUTF8 fs b = Done b' /\
      Inv kChunkSize (done ++ sources convertToUTF8 fs) b' /\
      pendingSize b' < 2 * kChunkSize.
Proof.
  induction fs as [|f fs IH]; intros done b HI Hp Hnd Hfresh Hsmall.
  - exists b. cbn. rewrite app_nil_r. auto.
  - cbn [appendFiles]. unfold appendFile.
    apply Forall_cons in Hsmall as [Hf Hsmall].
    cbn [map] in Hnd. apply NoDup_cons in Hnd as [Hnotin Hnd].
    unfold smallFile in Hf.
    destruct (raw f) as [rawBytes|] eqn:Hraw.
    + destruct (appendFilePart_spec done b (path f)
                  (fileContents convertToUTF8 rawBytes)
                  (lastWriteTime f) (fi_fileSize f) HI Hp)
        as (b1 & Hrun & HI1 & Hp1); [apply Hfresh; apply list_elem_of_here | exact Hf |].
      rewrite Hrun, !bind_Done. cbn [snd].
      destruct (IH _ b1 HI1 Hp1 Hnd) as (b' & Hrun' & HI' & Hp'); [|exact Hsmall|].
      { intros g Hg. rewrite map_app. rewrite elem_of_app. intros [Hin | Hin].
        - revert Hin. apply Hfresh. apply list_elem_of_further. exact Hg.
        - cbn in Hin. apply list_elem_of_singleton in Hin.
          apply Hnotin. rewrite <- Hin. apply list_elem_of_fmap. exists g. auto. }
      exists b'. split; [exact Hrun'|]. split; [|exact Hp'].
      rewrite (sources_cons_Some f fs rawBytes Hraw).
      rewrite <- (assoc_L (++)) in HI'. exact HI'.
    + rewrite bind_Done. cbn [snd].
      destruct (IH done b HI Hp Hnd) as (b' & Hrun' & HI' & Hp'); [|exact Hsmall|].
      { intros g Hg. apply Hfresh. apply list_elem_of_further. exact Hg. }
      exists b'. rewrite (sources_cons_None f fs Hraw). auto.
Qed.

Lemma Inv_start size : Inv size [] start.
Proof.
  constructor; cbn.
  - unfold WF. cbn. split; [constructor|]. split; [reflexivity|reflexivity].
  - constructor.
  - intros r Hr. inversion Hr.
  - intros n d Hin. inversion Hin.
  - constructor.
Qed.

Lemma buildProject_spec (fs : list SourceFile) :
  NoDup (map path fs) -> Forall (smallFile convertToUTF8) fs ->
  exists b',
    buildProject ndebug kChunkSize convertToUTF8 fs = Done (outData b') /\
    Inv kChunkSize (sources convertToUTF8 fs) b' /\ pendingSize b' = 0.
Proof.
  intros Hnd Hsmall.
  destruct (appendFiles_spec fs [] start (Inv_start _)) as (b1 & Hrun & HI & Hp);
    try assumption.
  { cbn. lia. }
  { intros f _ Hin. inversion Hin. }
  destruct (flush_spec ndebug kChunkSize kChunkSize_pos kChunkSize_small b1
              (inv_wf _ _ _ HI)) as (b' & Hrun' & Hrtc & H0).
  exists b'. unfold buildProject. rewrite Hrun, bind_Done, Hrun', bind_Done.
  split; [reflexivity|]. split; [|exact H0].
  cbn [app] in HI. eapply Inv_rtc; eassumption.
Qed.

End BuildProject.

(** ** The records of a file in the output *)

Lemma count_LF_bytesOf_le f : count_LF (bytesOf f) <= sizeOf f.
Proof.
  pose proof (count_LF_le_length (bytesOf f)) as H.
  unfold bytesOf, Blob_bytes, takeN in *. rewrite length_take in H.
  unfold sizeOf. lia.
Qed.

Lemma lineStep_le f : 1 <= sizeOf f -> lineStep f <= sizeOf f.
Proof. intros H. pose proof (count_LF_bytesOf_le f). unfold lineStep. lia. Qed.

Lemma lineStep_pos f : 1 <= lineStep f.
Proof. unfold lineStep. lia. Qed.

Lemma CChain_lookup n d :
  lengthN d < UINT_MOD ->
  forall rs off sl, CChain n d off sl rs -> sl <= off ->
  forall i r, rs !! i = Some r ->
    startLine r = sl + lineSum (take i rs) /\ name r = n.
Proof.
  intros Hd rs off sl H. induction H as [off sl f Hr Hend | off sl f rs Hr H1 Hl Hc IH];
    intros Hle i r Hi.
  - destruct i as [|i]; [|destruct i; discriminate]. injection Hi as <-.
    destruct Hr as (Hn & _ & _ & Hs & _). cbn. split; [lia | exact Hn].
  - destruct i as [|i].
    + injection Hi as <-. destruct Hr as (Hn & _ & _ & Hs & _). cbn. split; [lia | exact Hn].
    + cbn in Hi. pose proof (lineStep_le f H1) as Hstep.
      destruct Hr as (_ & _ & _ & _ & Hbound).
      assert (Hu : u32 (sl + lineStep f) = sl + lineStep f) by (apply u32_small; lia).
      rewrite Hu in IH. destruct (IH ltac:(lia) i r Hi) as [IH1 IH2].
      split; [|exact IH2]. cbn [take lineSum]. lia.
Qed.

Lemma lineSum_app l1 l2 : lineSum (l1 ++ l2) = lineSum l1 + lineSum l2.
Proof. induction l1 as [|r l1 IH]; cbn; [reflexivity | rewrite IH; lia]. Qed.

Lemma lineSum_take_lt rs i j r :
  rs !! i = Some r -> (i < j)%nat -> lineSum (take i rs) < lineSum (take j rs).
Proof.
  intros Hi Hij.
  replace j with (S i + (j - S i))%nat by lia.
  rewrite <- take_take_drop, lineSum_app.
  rewrite (take_S_r rs i r Hi), lineSum_app. cbn [lineSum].
  pose proof (lineStep_pos r). lia.
Qed.

Lemma lineSum_linesOf rs :
  Forall (fun r => 0 < count_LF (bytesOf r)) rs -> lineSum rs = linesOf rs.
Proof.
  unfold linesOf. induction 1 as [|r rs Hr _ IH]; [reflexivity|].
  cbn [lineSum map concat]. rewrite count_LF_app, IH. unfold lineStep. lia.
Qed.

Lemma count_LF_takeN_le k l : count_LF (takeN k l) <= count_LF l.
Proof.
  rewrite <- (take_drop (N.to_nat k) l) at 2. rewrite count_LF_app.
  unfold takeN. lia.
Qed.

Lemma CChain_end n d : forall rs off sl,
  CChain n d off sl rs -> lengthN d <= off -> Forall (fun r => sizeOf r = 0) rs.
Proof.
  intros rs off sl H. induction H as [off sl f Hr Hend | off sl f rs Hr H1 Hl Hc IH];
    intros Hoff.
  - constructor; [lia | constructor].
  - destruct Hr as (_ & _ & _ & _ & Hb). lia.
Qed.

Lemma CChain_noLF n d rs :
  count_LF d = 0 -> CChain n d 0 0 rs ->
  exists whole zeros, rs = whole :: zeros /\ recordAt n d 0 0 whole /\
    sizeOf whole = lengthN d /\ Forall (fun r => sizeOf r = 0) zeros.
Proof.
  intros Hd H.
  inversion H as [off sl f Hr Hend | off sl f rs' Hr H1 Hl Hc]; subst.
  - exists f, []. split; [reflexivity|]. split; [exact Hr|]. split; [lia | constructor].
  - exists f, rs'. split; [reflexivity|]. split; [exact Hr|].
    assert (Hsz : sizeOf f = lengthN d).
    { destruct Hl as [Hl | Hl]; [|lia]. exfalso.
      destruct Hr as (_ & Hst & Hoff & _).
      unfold bytesOf, Blob_bytes, Blob_ptr in Hl. rewrite Hst, Hoff in Hl.
      pose proof (count_LF_takeN_le (count (contents f)) (dropN 0 d)) as Hle.
      change (dropN 0 d) with d in *. lia. }
    split; [exact Hsz|]. eapply CChain_end; [exact Hc | lia].
Qed.

Lemma sumCount_0 l : sumCount l = 0 -> Forall (fun r => sizeOf r = 0) l.
Proof.
  induction l as [|r l IH]; cbn; [constructor|]. intros H.
  constructor; [lia | apply IH; lia].
Qed.

Lemma elem_of_emitted r out :
  r ∈ emitted out -> exists c, Built c ∈ out /\ r ∈ files c.
Proof.
  induction out as [|cr out IH]; [intros H; inversion H|].
  change (emitted (cr :: out)) with (recFiles cr ++ emitted out).
  rewrite elem_of_app. intros [H | H].
  - destruct cr as [c|]; [|inversion H]. exists c. split; [left | exact H].
  - destruct (IH H) as (c & Hc & Hr). exists c. split; [right; exact Hc | exact Hr].
Qed.

Section SplitFiles.
Variable ndebug : bool.
Variable kChunkSize : N.
Variable convertToUTF8 : list byte -> list byte.
Hypothesis kChunkSize_pos : 0 < kChunkSize.
Hypothesis kChunkSize_small : kChunkSize < 2 ^ 31.

Lemma sources_elem (fs : list SourceFile) f rawBytes :
  f ∈ fs -> raw f = Some rawBytes ->
  (path f, fileContents convertToUTF8 rawBytes) ∈ sources convertToUTF8 fs.
Proof.
  intros Hin Hraw. unfold sources. apply list_elem_of_omap.
  exists f. split; [exact Hin|]. rewrite Hraw. reflexivity.
Qed.

(** C9, amended.  In the output of a build, the start lines of the successive
    records of a file are strictly increasing; the start line of a record is
    the sum, over the earlier records of its file, of the line feeds of the
    record, or 1 for a record without a line feed (which the builder takes
    from a line longer than a chunk); so it is the number of line feeds in
    the earlier records whenever each of those holds a line feed. *)
Theorem start_lines_of_split_file (fs : list SourceFile) :
  NoDup (map path fs) -> Forall (smallFile convertToUTF8) fs ->
  exists out,
    buildProject ndebug kChunkSize convertToUTF8 fs = Done out /\
    forall f rawBytes, f ∈ fs -> raw f = Some rawBytes ->
      let rs := recordsOf (path f) out in
      (forall i j ri rj, rs !! i = Some ri -> rs !! j = Some rj -> (i < j)%nat ->
                         startLine ri < startLine rj) /\
      (forall i ri, rs !! i = Some ri -> startLine ri = lineSum (take i rs)) /\
      (forall i ri, rs !! i = Some ri ->
                    Forall (fun r => 0 < count_LF (bytesOf r)) (take i rs) ->
                    startLine ri = linesOf (take i rs)).
Proof.
  intros Hnd Hsmall.
  destruct (buildProject_spec ndebug kChunkSize convertToUTF8
              kChunkSize_pos kChunkSize_small fs Hnd Hsmall) as (b' & Hrun & HI & Hp).
  exists (outData b'). split; [exact Hrun|].
  intros f rawBytes Hf Hraw rs.
  pose proof (inv_chain _ _ _ HI _ _ (sources_elem fs f rawBytes Hf Hraw)) as Hc.
  unfold allRecords in Hc. rewrite named_app in Hc. fold (recordsOf (path f) (outData b')) in Hc.
  fold rs in Hc.
  assert (Hd : lengthN (fileContents convertToUTF8 rawBytes) < UINT_MOD).
  { rewrite Forall_forall in Hsmall. specialize (Hsmall f Hf).
    unfold smallFile in Hsmall. rewrite Hraw in Hsmall. exact Hsmall. }
  assert (Hlk : forall i r, rs !! i = Some r ->
            startLine r = lineSum (take i rs)).
  { intros i r Hi.
    destruct (CChain_lookup _ _ Hd _ _ _ Hc ltac:(lia) i r) as [H1 _].
    - apply lookup_app_l_Some. exact Hi.
    - rewrite H1, N.add_0_l. rewrite take_app_le; [reflexivity|].
      apply lookup_lt_Some in Hi. lia. }
  split; [|split; [exact Hlk|]].
  - intros i j ri rj Hi Hj Hij. rewrite (Hlk i ri Hi), (Hlk j rj Hj).
    eapply lineSum_take_lt; eassumption.
  - intros i ri Hi Hall. rewrite (Hlk i ri Hi). apply lineSum_linesOf. exact Hall.
Qed.

(** C2, amended.  A file that is a single line (no line feed) longer than
    [kChunkSize] has all its bytes in one record, which is alone in its
    chunk: the payload of that chunk is the length of the file, however long;
    every other record of the file in the output is empty. *)
Theorem long_line_in_one_chunk (fs : list SourceFile) :
  NoDup (map path fs) -> Forall (smallFile convertToUTF8) fs ->
  exists out,
    buildProject ndebug kChunkSize convertToUTF8 fs = Done out /\
    forall f rawBytes, f ∈ fs -> raw f = Some rawBytes ->
      let d := fileContents convertToUTF8 rawBytes in
      count_LF d = 0 -> kChunkSize < lengthN d ->
      exists pre post whole,
        out = pre ++ [Built {| files := [whole]; totalSize := lengthN d |}] ++ post /\
        name whole = path f /\ startLine whole = 0 /\ bytesOf whole = d /\
        (forall r, r ∈ emitted (pre ++ post) -> name r = path f -> sizeOf r = 0).
Proof.
  intros Hnd Hsmall.
  destruct (buildProject_spec ndebug kChunkSize convertToUTF8
              kChunkSize_pos kChunkSize_small fs Hnd Hsmall) as (b' & Hrun & HI & Hp).
  exists (outData b'). split; [exact Hrun|].
  intros f rawBytes Hf Hraw d HLF Hlong.
  pose proof (inv_chain _ _ _ HI _ _ (sources_elem fs f rawBytes Hf Hraw)) as Hc.
  fold d in Hc.
  destruct (CChain_noLF _ _ _ HLF Hc) as (whole & zeros & Hrs & Hrec & Hsz & Hz).
  destruct Hrec as (Hname & Hst & Hoff & Hsl & _).
  assert (Hin : whole ∈ allRecords b').
  { assert (H : whole ∈ named (path f) (allRecords b')) by (rewrite Hrs; left).
    unfold named in H. apply list_elem_of_filter in H. tauto. }
  destruct (inv_wf _ _ _ HI) as (_ & Hsum & _).
  assert (Hpz : Forall (fun r => sizeOf r = 0) (pendingFiles b'))
    by (apply sumCount_0; lia).
  unfold allRecords in Hin. apply elem_of_app in Hin as [Hin | Hin].
  2:{ rewrite Forall_forall in Hpz. specialize (Hpz _ Hin). lia. }
  destruct (elem_of_emitted _ _ Hin) as (c & Hc_in & Hwc).
  pose proof (inv_chunks _ _ _ HI) as Hchunks. rewrite Forall_forall in Hchunks.
  specialize (Hchunks _ Hc_in). cbn in Hchunks. destruct Hchunks as (_ & Htot & Hall).
  rewrite Forall_forall in Hall. destruct (Hall _ Hwc) as [Hsmallc | Hone]; [lia|].
  destruct c as [cf ct]. cbn in Htot, Hone. subst cf. cbn in Htot.
  rewrite Hsz, N.add_0_r in Htot. subst ct.
  apply list_elem_of_split in Hc_in as (pre & post & Hout).
  exists pre, post, whole. split; [exact Hout|].
  split; [exact Hname|]. split; [exact Hsl|]. split.
  { unfold bytesOf, Blob_bytes, Blob_ptr. rewrite Hst, Hoff.
    change (dropN 0 d) with d. apply takeN_all. unfold sizeOf in Hsz. lia. }
  intros r Hr Hn.
  unfold allRecords in Hrs. rewrite Hout in Hrs.
  rewrite emitted_app in Hrs.
  change (emitted (Built {| files := [whole]; totalSize := lengthN d |} :: post))
    with (whole :: emitted post) in Hrs.
  rewrite !named_app in Hrs.
  rewrite (named_cons_eq _ whole) in Hrs by exact Hname.
  rewrite Forall_forall in Hz.
  assert (Hprenil : named (path f) (emitted pre) = []).
  { destruct (named (path f) (emitted pre)) as [|x xs] eqn:E; [reflexivity|].
    exfalso. rewrite <- !(assoc_L (++)) in Hrs. cbn [app] in Hrs.
    injection Hrs as -> Hrs.
    assert (whole ∈ zeros) by (rewrite <- Hrs; rewrite !elem_of_app; right; left; left).
    specialize (Hz _ H). lia. }
  rewrite Hprenil in Hrs. cbn [app] in Hrs. injection Hrs as Hrs.
  rewrite emitted_app in Hr. apply elem_of_app in Hr as [Hr | Hr].
  - assert (r ∈ named (path f) (emitted pre))
      by (unfold named; apply list_elem_of_filter; auto).
    rewrite Hprenil in H. inversion H.
  - apply Hz. rewrite <- Hrs. apply elem_of_app. left.
    unfold named. apply list_elem_of_filter. auto.
Qed.

End SplitFiles.

(** The amended C9 at a chunk size of 4, on a file that is cut in three. *)
Lemma start_lines_of_split_file_witness :
  exists out,
    buildProject false 4 (fun x => x) splitProject = Done out /\
    forall f rawBytes, f ∈ splitProject -> raw f = Some rawBytes ->
      let rs := recordsOf (path f) out in
      (forall i j ri rj, rs !! i = Some ri -> rs !! j = Some rj -> (i < j)%nat ->
                         startLine ri < startLine rj) /\
      (forall i ri, rs !! i = Some ri -> startLine ri = lineSum (take i rs)) /\
      (forall i ri, rs !! i = Some ri ->
                    Forall (fun r => 0 < count_LF (bytesOf r)) (take i rs) ->
                    startLine ri = linesOf (take i rs)).
Proof.
  apply (start_lines_of_split_file false 4 (fun x => x)).
  - reflexivity.
  - reflexivity.
  - apply (bool_decide_unpack _). vm_compute. exact I.
  - repeat constructor.
Defined.

(** C9 as the specification words it fails: at a chunk size of 4, the eight
    bytes of [big.txt], without a line feed, go to one record, and the empty
    record that is left has start line 1, with no line feed before it. *)
Lemma start_line_counts_a_cut_line :
  exists out r,
    buildProject false 4 (fun x => x) cutProject = Done out /\
    map (fun r => (startLine r, bytesOf r)) (recordsOf "big.txt" out)
      = [(0, line8); (1, [])] /\
    recordsOf "big.txt" out !! 1%nat = Some r /\
    startLine r = 1 /\
    linesOf (take 1 (recordsOf "big.txt" out)) = 0.
Proof. do 2 eexists. repeat split; vm_compute; reflexivity. Qed.

(** The amended C2 at a chunk size of 4, on a line of eight bytes. *)
Lemma long_line_in_one_chunk_witness :
  exists out,
    buildProject false 4 (fun x => x) cutProject = Done out /\
    forall f rawBytes, f ∈ cutProject -> raw f = Some rawBytes ->
      let d := fileContents (fun x => x) rawBytes in
      count_LF d = 0 -> 4 < lengthN d ->
      exists pre post whole,
        out = pre ++ [Built {| files := [whole]; totalSize := lengthN d |}] ++ post /\
        name whole = path f /\ startLine whole = 0 /\ bytesOf whole = d /\
        (forall r, r ∈ emitted (pre ++ post) -> name r = path f -> sizeOf r = 0).
Proof.
  apply (long_line_in_one_chunk false 4 (fun x => x)).
  - reflexivity.
  - reflexivity.
  - apply (bool_decide_unpack _). vm_compute. exact I.
  - repeat constructor.
Defined.

(** C2 as the specification words it fails: at a chunk size of 4, a line of
    twelve bytes goes to one chunk, whose payload is more than twice 4. *)
Lemma long_line_chunk_exceeds_2C :
  exists chunk,
    buildProject false 4 (fun x => x) longProject = Done [Built chunk] /\
    map bytesOf (files chunk) = [line12] /\ count_LF line12 = 0 /\
    getChunkDataTotalSize chunk = 12 /\ chunkUncompressedSize chunk = 60 /\
    2 * 4 < getChunkDataTotalSize chunk.
Proof. eexists. repeat split; vm_compute; reflexivity. Qed.

(** ** A file that is one long line *)

Section LongLine.
Variable ndebug : bool.
Variable kChunkSize : N.
Hypothesis kChunkSize_pos : 0 < kChunkSize.
Hypothesis kChunkSize_small : kChunkSize < 2 ^ 31.

Lemma appendChunkFilePrefix_noLF (f : File) (rem : N) :
  wfFile f -> rem < sizeOf f -> rem < 2 ^ 31 -> sizeOf f < SIZE_MOD ->
  count_LF (bytesOf f) = 0 ->
  appendChunkFilePrefix ndebug {| files := []; totalSize := 0 |} f rem
  = Done ({| files := [prefixOf f (sizeOf f)]; totalSize := sizeOf f |},
          suffixOf f (sizeOf f) 1).
Proof.
  intros Hwf Hrem H31 Hsz HLF.
  destruct (appendChunkFilePrefix_spec ndebug {| files := []; totalSize := 0 |}
              f rem Hwf Hrem H31)
    as [(_ & Hne & _) | (p & t & Hrun & (k & Hk & -> & -> & Hor) & _)].
  - cbn. lia.
  - cbn in Hne. congruence.
  - rewrite Hrun. cbn [files totalSize app]. rewrite N.add_0_l.
    assert (Hz : count_LF (bytesOf (prefixOf f k)) = 0).
    { rewrite bytesOf_prefixOf.
      assert (E : takeN k (Blob_ptr (contents f)) = takeN k (bytesOf f))
        by (symmetry; apply takeN_takeN; unfold sizeOf in Hk; lia).
      rewrite E. pose proof (count_LF_takeN_le k (bytesOf f)). lia. }
    destruct Hor as [Hor | ->]; [lia|].
    unfold lineStep. rewrite Hz. reflexivity.
Qed.

Lemma flushIfNeeded_loop_S fuel b :
  flushIfNeeded_loop ndebug kChunkSize (S fuel) b
  = if 2 * kChunkSize <=? pendingSize b
    then b' ← flushChunk ndebug kChunkSize b;
         flushIfNeeded_loop ndebug kChunkSize fuel b'
    else Done b.
Proof.
  cbn [flushIfNeeded_loop].
  rewrite (sz_mul_kChunkSize_2 kChunkSize kChunkSize_pos kChunkSize_small).
  reflexivity.
Qed.

Lemma flushIfNeeded_loop_below fuel b :
  pendingSize b < 2 * kChunkSize ->
  flushIfNeeded_loop ndebug kChunkSize fuel b = Done b.
Proof.
  intros H. destruct fuel; cbn [flushIfNeeded_loop];
    rewrite (sz_mul_kChunkSize_2 kChunkSize kChunkSize_pos kChunkSize_small);
    (replace (2 * kChunkSize <=? pendingSize b) with false
      by (symmetry; apply N.leb_gt; exact H)); reflexivity.
Qed.

Lemma flush_loop_0 fuel b :
  pendingSize b = 0 -> flush_loop ndebug kChunkSize fuel b = Done b.
Proof. intros H. destruct fuel; cbn [flush_loop]; rewrite H; reflexivity. Qed.

(** A single source file of at least [2 * kChunkSize] bytes without any line
    ending is written as one chunk that holds the whole file. *)
Lemma buildProject_one_long_line (p : string) (d : list byte) (mtime fsize : N) :
  2 * kChunkSize <= lengthN d -> lengthN d < UINT_MOD ->
  count_LF d = 0 -> Forall (fun c => is_CR c = false) d ->
  buildProject ndebug kChunkSize (fun x => x)
    [{| path := p; raw := Some d; lastWriteTime := mtime; fi_fileSize := fsize |}]
  = Done [Built {| files := [newRecord p d mtime fsize];
                   totalSize := lengthN d |}].
Proof.
  intros Hlong Hsmall HLF HCR.
  assert (Hu : UINT_MOD < SIZE_MOD) by reflexivity.
  assert (Hwf : wfFile (newRecord p d mtime fsize))
    by (unfold wfFile, newRecord, Blob_of; simpl_rec; lia).
  assert (Hsz : sizeOf (newRecord p d mtime fsize) = lengthN d) by reflexivity.
  assert (Hbytes : bytesOf (newRecord p d mtime fsize) = d).
  { unfold bytesOf, Blob_bytes, Blob_ptr, newRecord, Blob_of. simpl_rec.
    change (dropN 0 d) with d. apply takeN_all. lia. }
  assert (Hpre : prefixOf (newRecord p d mtime fsize) (lengthN d)
                 = newRecord p d mtime fsize) by reflexivity.
  unfold buildProject. cbn [appendFiles]. unfold appendFile.
  cbn [raw path lastWriteTime fi_fileSize].
  unfold fileContents.
  rewrite readFile_spec, normalize_spec_id by exact HCR.
  unfold appendFilePart, start. cbn [pendingFiles pendingSize outData last].
  change {| name := p; contents := Blob_of d; startLine := 0;
            fileSize := fsize; timeStamp := mtime |}
    with (newRecord p d mtime fsize).
  remember (newRecord p d mtime fsize) as rec eqn:Hrec.
  unfold sz_add. rewrite N.add_0_l, sz_small by lia.
  rewrite bind_Done. unfold flushIfNeeded, loopBudget.
  cbn [pendingFiles pendingSize length].
  replace (N.to_nat (lengthN d) + 1)%nat with (S (N.to_nat (lengthN d))) by lia.
  rewrite flushIfNeeded_loop_S. cbn [pendingSize].
  replace (2 * kChunkSize <=? lengthN d) with true
    by (symmetry; apply N.leb_le; exact Hlong).
  unfold flushChunk. cbn [pendingFiles fillChunk totalSize].
  replace (0 <? kChunkSize) with true
    by (symmetry; apply N.ltb_lt; exact kChunkSize_pos).
  rewrite sz_sub_le by (pose proof pow31_lt_SIZE_MOD; lia). rewrite N.sub_0_r.
  unfold Blob_size. fold (sizeOf rec). rewrite Hsz.
  replace (lengthN d <=? kChunkSize) with false
    by (symmetry; apply N.leb_gt; lia).
  rewrite appendChunkFilePrefix_noLF; try assumption; try lia.
  2:{ rewrite Hbytes. exact HLF. }
  rewrite Hsz, Hpre.
  rewrite !bind_Done. cbn beta iota. cbn [totalSize pendingSize outData files].
  rewrite (assert_true ndebug) by (apply N.leb_le; lia).
  rewrite bind_Done. rewrite sz_sub_le by lia. rewrite N.sub_diag.
  rewrite bind_Done. rewrite flushIfNeeded_loop_below by (cbn; lia).
  rewrite !bind_Done. cbn [snd]. unfold flush. rewrite flush_loop_0 by reflexivity.
  rewrite bind_Done. reflexivity.
Qed.
End LongLine.

Lemma lengthN_aFile n : lengthN (aFile n) = n.
Proof. unfold lengthN, aFile. rewrite repeat_length. apply N2Nat.id. Qed.

Lemma count_LF_repeat_a k : count_LF (repeat x61 k) = 0.
Proof.
  induction k as [|k IH]; [reflexivity|].
  change (repeat x61 (S k)) with ([x61] ++ repeat x61 k).
  rewrite count_LF_app, IH. reflexivity.
Qed.

Lemma repeat_a_no_CR k : Forall (fun c => is_CR c = false) (repeat x61 k).
Proof. induction k as [|k IH]; constructor; [reflexivity | exact IH]. Qed.

Lemma bytesOf_newRecord p d mtime fsize : bytesOf (newRecord p d mtime fsize) = d.
Proof.
  unfold bytesOf, Blob_bytes, Blob_ptr, newRecord, Blob_of. simpl_rec.
  change (dropN 0 d) with d. apply takeN_all. lia.
Qed.

(** A file of [n] bytes ['a'], [n] at least twice the chunk size, is written
    as one chunk of one record. *)
Lemma buildProject_aFile (ndebug : bool) (kChunkSize n : N) (p : string) :
  0 < kChunkSize -> kChunkSize < 2 ^ 31 -> 2 * kChunkSize <= n -> n < UINT_MOD ->
  exists whole,
    buildProject ndebug kChunkSize (fun x => x) [sourceOf p (aFile n)]
    = Done [Built {| files := [whole]; totalSize := n |}] /\
    name whole = p /\ startLine whole = 0 /\ sizeOf whole = n /\
    bytesOf whole = aFile n.
Proof.
  intros Hpos Hsmall Hlong Hn.
  exists (newRecord p (aFile n) 0 (lengthN (aFile n))).
  split; [|split; [reflexivity|split; [reflexivity|split]]].
  - unfold sourceOf.
    rewrite (buildProject_one_long_line ndebug kChunkSize Hpos Hsmall).
    + pose proof (lengthN_aFile n) as E. congruence.
    + rewrite lengthN_aFile. exact Hlong.
    + rewrite lengthN_aFile. exact Hn.
    + apply count_LF_repeat_a.
    + apply repeat_a_no_CR.
  - apply lengthN_aFile.
  - apply bytesOf_newRecord.
Qed.

(** C1, amended.  With a chunk size of 512 KiB, the build of the single file
    [big.txt], 1 MiB of ['a'] and no line feed, is one chunk of one record,
    with start line 0 and all the 1048576 bytes.  The builder cuts no line:
    with no line feed in the first [kChunkSize] bytes and an empty chunk,
    [appendChunkFilePrefix] takes the record up to the end of its first
    line, which is the end of the file. *)
Theorem big_txt_is_one_chunk (ndebug : bool) :
  exists whole,
    buildProject ndebug kChunkSize_512K (fun x => x) [big_txt]
    = Done [Built {| files := [whole]; totalSize := 1048576 |}] /\
    name whole = "big.txt" /\ startLine whole = 0 /\ sizeOf whole = 1048576 /\
    bytesOf whole = aFile 1048576.
Proof.
  unfold big_txt.
  apply (buildProject_aFile ndebug kChunkSize_512K 1048576 "big.txt");
    unfold kChunkSize_512K, UINT_MOD; lia.
Qed.

(** C1 as the specification words it fails: the output is one chunk, not two,
    and its record holds 1048576 bytes, not 524288. *)
Lemma big_txt_is_not_two_chunks :
  exists out,
    buildProject false kChunkSize_512K (fun x => x) [big_txt] = Done out /\
    length out = 1%nat /\ map sizeOf (emitted out) = [1048576] /\
    map startLine (emitted out) = [0].
Proof.
  destruct (buildProject_aFile false kChunkSize_512K 1048576 "big.txt")
    as (whole & Hrun & _ & Hsl & Hsz & _);
    [unfold kChunkSize_512K, UINT_MOD; lia ..|].
  eexists. split; [exact Hrun|]. split; [reflexivity|].
  unfold emitted. cbn [map recFiles files concat app]. rewrite Hsz, Hsl. auto.
Qed.

(** ** Chunks of a previous build: [appendChunk] *)

Section AppendChunk.
Variable ndebug : bool.
Variable kChunkSize : N.
Hypothesis kChunkSize_pos : 0 < kChunkSize.
Hypothesis kChunkSize_small : kChunkSize < 2 ^ 31.

Lemma sz_mul_kChunkSize_3 : sz_mul kChunkSize 3 = 3 * kChunkSize.
Proof.
  unfold sz_mul. rewrite sz_small; [lia|].
  assert (3 * 2 ^ 31 < SIZE_MOD) by reflexivity. lia.
Qed.

(** C7.  When the pending size after the growth flush is strictly between 0
    and 0.75 * [kChunkSize], [appendChunk] returns [false] and the builder is
    the one that the growth flush left: nothing of the pending data and
    nothing of the chunk of the caller is written.  ([kChunkSize] a multiple
    of 4, as 512 KiB is, makes [kChunkSize * 3 / 2 / 2] the exact 0.75.) *)
Theorem appendChunk_rejects_small_pending
    (header : DataChunkHeader) (compressedData index : list byte) (b b1 : Builder) :
  kChunkSize mod 4 = 0 ->
  flushIfNeeded ndebug kChunkSize b = Done b1 ->
  0 < pendingSize b1 -> 4 * pendingSize b1 < 3 * kChunkSize ->
  appendChunk ndebug kChunkSize header compressedData index b = Done (false, b1).
Proof.
  intros Hmod Hrun Hpos Hlt. unfold appendChunk. rewrite Hrun, bind_Done.
  rewrite (sz_mul_kChunkSize_2 kChunkSize kChunkSize_pos kChunkSize_small), sz_mul_kChunkSize_3.
  replace (0 <? pendingSize b1) with true by (symmetry; apply N.ltb_lt; exact Hpos).
  replace (2 * kChunkSize <? pendingSize b1) with false
    by (symmetry; apply N.ltb_ge; lia).
  replace (pendingSize b1 <? 3 * kChunkSize / 2 / 2) with true; [reflexivity|].
  symmetry. apply N.ltb_lt.
  apply N.Div0.div_exact in Hmod. rewrite N.Div0.div_div.
  replace (3 * kChunkSize) with (3 * (kChunkSize / 4) * 4) by lia.
  change (2 * 2) with 4. rewrite N.div_mul by discriminate. lia.
Qed.

(** When the pending size after the growth flush is 0, [appendChunk] tests
    no size, writes the chunk of the caller (the header, the [indexSize]
    bytes of the index and the [compressedSize] bytes of the data) after
    what the growth flush left, and returns [true]: in a build without
    assertions, and in a build with assertions when the pending queue is
    empty, as the [assert] of the source wants it. *)
Lemma appendChunk_nothing_pending
    (header : DataChunkHeader) (compressedData index : list byte) (b b1 : Builder) :
  flushIfNeeded ndebug kChunkSize b = Done b1 ->
  pendingSize b1 = 0 ->
  ndebug = true \/ pendingFiles b1 = [] ->
  appendChunk ndebug kChunkSize header compressedData index b
  = Done (true, writeChunk header compressedData index b1) /\
  outData (writeChunk header compressedData index b1)
  = outData b1 ++ [Raw header (takeN (indexSize header) index)
                              (takeN (compressedSize header) compressedData)].
Proof.
  intros Hrun Hz Hq. split; [|reflexivity]. unfold appendChunk. rewrite Hrun, bind_Done, Hz.
  change (0 <? 0) with false. cbn iota.
  destruct Hq as [Hq | Hq].
  - unfold assert. rewrite Hq. reflexivity.
  - rewrite Hq, (assert_true ndebug) by reflexivity. reflexivity.
Qed.

Lemma write_not_false (c : bool) (r : Builder) (x : bool * Builder) :
  (assert ndebug c ;; Done (true, r)) = Done x -> fst x = true.
Proof.
  unfold assert. destruct (ndebug || c); cbn; [|discriminate].
  intros H. injection H as <-. reflexivity.
Qed.

(** C8, amended.  [appendChunk] runs the growth flush before it tests any
    size.  Called on a builder with at least 2 * [kChunkSize] bytes pending,
    it first writes at least one chunk, which leaves less than
    2 * [kChunkSize] bytes pending: the test [pendingSize > kChunkSize * 2]
    never holds.  If the call returns [false] it is by the test against
    [kChunkMinSize], on the builder after the flush. *)
Theorem appendChunk_flushes_first
    (header : DataChunkHeader) (compressedData index : list byte) (b : Builder) :
  WF b -> 2 * kChunkSize <= pendingSize b ->
  exists b1 recs,
    flushIfNeeded ndebug kChunkSize b = Done b1 /\
    outData b1 = outData b ++ recs /\ recs <> [] /\
    pendingSize b1 < 2 * kChunkSize /\
    forall r, appendChunk ndebug kChunkSize header compressedData index b
              = Done (false, r) ->
              r = b1 /\ 0 < pendingSize b1 /\
              pendingSize b1 < 3 * kChunkSize / 2 / 2.
Proof.
  intros Hwf Hover.
  destruct (flushIfNeeded_spec ndebug kChunkSize kChunkSize_pos kChunkSize_small b Hwf)
    as (b1 & Hrun & Hrtc & Hexit & Hout).
  destruct (rtc_out _ _ _ Hrtc) as (recs & Hrecs).
  exists b1, recs. split; [exact Hrun|]. split; [exact Hrecs|].
  split.
  { intros ->. rewrite app_nil_r in Hrecs. apply (Hout Hover). exact Hrecs. }
  split; [exact Hexit|].
  intros r. unfold appendChunk. rewrite Hrun, bind_Done.
  rewrite (sz_mul_kChunkSize_2 kChunkSize kChunkSize_pos kChunkSize_small), sz_mul_kChunkSize_3.
  destruct (0 <? pendingSize b1) eqn:E0.
  2:{ intros H. apply write_not_false in H. discriminate. }
  replace (2 * kChunkSize <? pendingSize b1) with false
    by (symmetry; apply N.ltb_ge; lia).
  destruct (pendingSize b1 <? 3 * kChunkSize / 2 / 2) eqn:E1.
  - intros H. injection H as <-. apply N.ltb_lt in E0, E1. auto.
  - intros H. exfalso.
    destruct (if 3 * kChunkSize / 2 <? pendingSize b1 then _ else _) as [b2| |];
      cbn in H; try discriminate.
    destruct (assert ndebug _); cbn in H; try discriminate.
    destruct (flushChunk ndebug (pendingSize b2) b2) as [b3| |]; cbn in H; try discriminate.
    apply write_not_false in H. discriminate.
Qed.

End AppendChunk.

(** C7 at 512 KiB, with five bytes pending. *)
Lemma appendChunk_rejects_small_pending_witness :
  appendChunk false kChunkSize_512K hdr0 [x01; x02; x03] [] under
  = Done (false, under).
Proof.
  apply (appendChunk_rejects_small_pending false kChunkSize_512K); reflexivity.
Defined.

(** [appendChunk] at 512 KiB, on the builder of a new build. *)
Lemma appendChunk_nothing_pending_start :
  appendChunk false kChunkSize_512K hdr0 [x01; x02; x03] [] start
  = Done (true, writeChunk hdr0 [x01; x02; x03] [] start) /\
  outData (writeChunk hdr0 [x01; x02; x03] [] start)
  = outData start ++ [Raw hdr0 (takeN (indexSize hdr0) [])
                               (takeN (compressedSize hdr0) [x01; x02; x03])].
Proof.
  apply (appendChunk_nothing_pending false kChunkSize_512K).
  - reflexivity.
  - reflexivity.
  - right. reflexivity.
Qed.

(** C10.  With nothing pending but a record of no bytes, a build with
    assertions does not write the chunk of the caller.  After [appendFile]
    of a file of no bytes on a new builder, at 512 KiB, the record of the
    file is in the pending queue and the pending size is 0, as the growth
    flush leaves them; [appendChunk] tests no size and then fails the
    [assert] of the source that wants the pending queue empty
    (build.cpp:140), where a build without assertions writes the chunk and
    returns [true].  The same after [appendFile] of a file that is one line
    of eight bytes, at a chunk size of 4: the line is written and the empty
    rest of the file, which starts at line 1, stays pending. *)
Lemma appendChunk_asserts_on_empty_record :
  (exists b,
     appendFile false kChunkSize_512K (fun x => x) (sourceOf "e.txt" []) start
     = Done (true, b) /\
     pendingSize b = 0 /\
     map (fun r => (name r, startLine r, bytesOf r)) (pendingFiles b)
     = [("e.txt"%string, 0, [])] /\
     flushIfNeeded false kChunkSize_512K b = Done b /\
     appendChunk false kChunkSize_512K hdr0 [x01; x02; x03] [] b = AssertFailed /\
     appendChunk true kChunkSize_512K hdr0 [x01; x02; x03] [] b
     = Done (true, writeChunk hdr0 [x01; x02; x03] [] b)) /\
  (exists b,
     appendFile false 4 (fun x => x) (sourceOf "big.txt" line8) start
     = Done (true, b) /\
     pendingSize b = 0 /\
     map (fun r => (name r, startLine r, bytesOf r)) (pendingFiles b)
     = [("big.txt"%string, 1, [])] /\
     flushIfNeeded false 4 b = Done b /\
     appendChunk false 4 hdr0 [x01; x02; x03] [] b = AssertFailed /\
     appendChunk true 4 hdr0 [x01; x02; x03] [] b
     = Done (true, writeChunk hdr0 [x01; x02; x03] [] b)).
Proof.
  split; eexists; (split; [vm_compute; reflexivity|]);
    repeat split; vm_compute; reflexivity.
Qed.

Lemma WF_over2C : WF over2C.
Proof.
  unfold WF, over2C. simpl_rec. split; [|split; [reflexivity | reflexivity]].
  constructor; [|constructor]. split; reflexivity.
Defined.

(** [appendFilePart] is [queueFilePart], then the growth flush. *)
Lemma appendFilePart_queue (ndebug : bool) (kChunkSize : N) (path : string)
    (startLine' : N) (data : list byte) (lastWriteTime fileSize' : N) (b : Builder) :
  appendFilePart ndebug kChunkSize path startLine' data lastWriteTime fileSize' b
  = (b1 ← queueFilePart ndebug path startLine' data lastWriteTime fileSize' b;
     flushIfNeeded ndebug kChunkSize b1).
Proof. reflexivity. Qed.

Lemma cutShort_eq :
  cutShort
  = {| pendingFiles :=
         [{| name := "a.txt";
             contents := {| offset := 4; count := 9; storage := lines7 |};
             startLine := 2; fileSize := 13; timeStamp := 0 |}];
       pendingSize := 9;
       outData := [] |}.
Proof. vm_compute. reflexivity. Qed.

Lemma WF_cutShort : WF cutShort.
Proof.
  rewrite cutShort_eq. unfold WF. simpl_rec. split; [|split; reflexivity].
  constructor; [|constructor]. split; [vm_compute; discriminate | reflexivity].
Defined.

(** The amended C8 at a chunk size of 4, after a growth flush that was cut
    short with nine bytes pending. *)
Lemma appendChunk_flushes_first_witness :
  exists b1 recs,
    flushIfNeeded false 4 cutShort = Done b1 /\
    outData b1 = outData cutShort ++ recs /\ recs <> [] /\
    pendingSize b1 < 2 * 4 /\
    forall r, appendChunk false 4 hdr0 [x01; x02; x03] [] cutShort
              = Done (false, r) ->
              r = b1 /\ 0 < pendingSize b1 /\
              pendingSize b1 < 3 * 4 / 2 / 2.
Proof.
  apply (appendChunk_flushes_first false 4).
  - reflexivity.
  - reflexivity.
  - exact WF_cutShort.
  - vm_compute. discriminate.
Defined.

(** C8 as the specification words it fails.  At a chunk size of 4,
    [appendFile] of ["a\nb\nc\nd\ne\nf\ng"] on a new builder starts a growth
    flush; when its first chunk cannot be allocated, [appendFile] returns
    [false] and nine bytes stay pending, more than twice 4.  [appendChunk]
    on that builder returns [true] and has written three chunks: two of the
    pending bytes, and that of the caller. *)
Lemma appendChunk_over_2C_succeeds :
  appendFile_bad_alloc false 4 (fun x => x) (sourceOf "a.txt" lines7) start
  = Done (false, cutShort) /\
  2 * 4 < pendingSize cutShort /\
  exists b' c1 c2,
    appendChunk false 4 hdr0 [x01; x02; x03] [] cutShort = Done (true, b') /\
    outData b' = [Built c1; Built c2; Raw hdr0 [] [x01; x02; x03]] /\
    map bytesOf (files c1) = [[x63; x0a; x64; x0a]] /\
    map bytesOf (files c2) = [[x65; x0a; x66; x0a; x67]] /\
    pendingSize b' = 0.
Proof.
  split; [vm_compute; reflexivity|]. split; [vm_compute; reflexivity|].
  do 3 eexists. repeat split; vm_compute; reflexivity.
Qed.

(** ** The scan of a file record: [processFile] *)


Lemma lengthN_dropN {A} n (l : list A) : lengthN (dropN n l) = lengthN l - n.
Proof. unfold lengthN, dropN. rewrite length_drop. lia. Qed.

Lemma lengthN_slice buf b e : b <= e -> e <= lengthN buf -> lengthN (slice buf b e) = e - b.
Proof.
  intros H1 H2. unfold slice. apply lengthN_takeN. rewrite lengthN_dropN. lia.
Qed.


Lemma slice_slice buf a b c :
  a <= b -> b <= c -> slice buf a c = slice buf a b ++ slice buf b c.
Proof.
  intros H1 H2. unfold slice, takeN, dropN.
  replace (N.to_nat (c - a)) with (N.to_nat (b - a) + N.to_nat (c - b))%nat by lia.
  rewrite <- take_take_drop. f_equal. rewrite drop_drop. do 2 f_equal. lia.
Qed.


Lemma lastLF_app l1 l2 :
  lastLF (l1 ++ l2) = if 0 <? lastLF l2 then lengthN l1 + lastLF l2 else lastLF l1.
Proof.
  induction l1 as [|c l1 IH]; cbn [app lastLF].
  - destruct (0 <? lastLF l2) eqn:E; [reflexivity|]. apply N.ltb_ge in E. lia.
  - rewrite IH, lengthN_cons. destruct (0 <? lastLF l2) eqn:E.
    + apply N.ltb_lt in E.
      replace (0 <? lengthN l1 + lastLF l2) with true by (symmetry; apply N.ltb_lt; lia).
      lia.
    + reflexivity.
Qed.

Lemma lastLF_0 l : count_LF l = 0 -> lastLF l = 0.
Proof. intros H. pose proof (lastLF_pos_iff l). lia. Qed.


Lemma findLineStart_loop_spec seg : forall begin,
  findLineStart_loop (rev seg) (begin + lengthN seg) begin
  = if 0 <? lastLF seg then begin + lastLF seg else begin.
Proof.
  induction seg as [|c seg IH] using rev_ind; intros begin; [reflexivity|].
  rewrite rev_app_distr. cbn [rev app findLineStart_loop].
  rewrite lengthN_app, lastLF_app. cbn [lastLF]. change (lengthN [c]) with 1.
  destruct (is_LF c) eqn:Hc.
  - cbn.
    replace (0 <? lengthN seg + 1) with true by (symmetry; apply N.ltb_lt; lia).
    reflexivity.
  - cbn. replace (begin + (lengthN seg + 1) - 1) with (begin + lengthN seg) by lia.
    apply IH.
Qed.

Lemma findLineEnd_loop_spec seg : forall s end_,
  end_ = s + lengthN seg ->
  let r := findLineEnd_loop seg s end_ in
  s <= r <= end_ /\
  count_LF (takeN (r - s) seg) = 0 /\
  (r = end_ \/ exists c, seg !! N.to_nat (r - s) = Some c /\ is_LF c = true).
Proof.
  induction seg as [|c seg IH]; intros s end_ He; cbn [findLineEnd_loop].
  - cbn. change (lengthN []) with 0 in He. split; [lia|].
    split; [unfold takeN; rewrite take_nil; reflexivity | left; reflexivity].
  - rewrite lengthN_cons in He. destruct (is_LF c) eqn:Hc.
    + cbn zeta. rewrite N.sub_diag. split; [lia|]. split; [reflexivity|].
      right. exists c. auto.
    + specialize (IH (s + 1) end_ ltac:(lia)). cbn zeta in IH |- *.
      destruct IH as (H1 & H2 & H3). split; [lia|].
      set (r := findLineEnd_loop seg (s + 1) end_) in *.
      replace (N.to_nat (r - s)) with (S (N.to_nat (r - (s + 1)))) by lia.
      unfold takeN in *.
      replace (N.to_nat (r - s)) with (S (N.to_nat (r - (s + 1)))) by lia.
      cbn [take count_LF lookup list_lookup]. rewrite Hc. split; [lia|].
      destruct H3 as [H3 | H3]; [left; exact H3 | right; exact H3].
Qed.



Lemma slice_of_slice buf a e off len :
  a + off + len <= e ->
  takeN len (dropN off (slice buf a e)) = slice buf (a + off) (a + off + len).
Proof.
  intros H. unfold slice, takeN, dropN.
  replace (N.to_nat (e - a)) with (N.to_nat off + N.to_nat (e - a - off))%nat by lia.
  rewrite <- take_drop_commute, take_take, drop_drop.
  f_equal; [lia | f_equal; lia].
Qed.

Lemma takeN_of_slice buf a e k :
  a + k <= e -> takeN k (slice buf a e) = slice buf a (a + k).
Proof.
  intros H. unfold slice, takeN. rewrite take_take. f_equal. lia.
Qed.

Lemma lookup_slice buf a e i c :
  slice buf a e !! N.to_nat i = Some c -> buf !! N.to_nat (a + i) = Some c /\ a + i < e.
Proof.
  unfold slice, takeN, dropN. intros H.
  apply lookup_take_Some in H as [H Hi]. rewrite lookup_drop in H.
  split; [|lia]. rewrite <- H. f_equal. lia.
Qed.

Lemma LF_map_count a : forall b,
  map is_LF a = map is_LF b -> count_LF a = count_LF b /\ lastLF a = lastLF b.
Proof.
  induction a as [|x a IH]; intros [|y b] H; try discriminate; [split; reflexivity|].
  cbn in H. injection H as Hxy H. destruct (IH b H) as [H1 H2].
  cbn. rewrite Hxy, H1, H2. split; reflexivity.
Qed.







Section ScanProofs.
Variable rangePrepare : list byte -> list byte.
Variable rangeSearch : list byte -> option (N * N).

Hypothesis rangePrepare_lines :
  forall data, map is_LF (rangePrepare data) = map is_LF data.
Hypothesis rangeSearch_inside :
  forall r off len, rangeSearch r = Some (off, len) -> off + len <= lengthN r.
Hypothesis rangeSearch_one_line :
  forall r off len, rangeSearch r = Some (off, len) ->
                    count_LF (takeN len (dropN off r)) = 0.



End ScanProofs.

Lemma findByte_spec (c : byte) (r : list byte) : forall off,
  findByte c r = Some off -> off < lengthN r /\ takeN 1 (dropN off r) = [c].
Proof.
  induction r as [|x r IH]; intros off; cbn [findByte]; [discriminate|].
  destruct (Byte.eqb x c) eqn:E.
  - intros H. injection H as <-. apply Byte.byte_dec_bl in E. subst x.
    rewrite lengthN_cons. split; [lia | reflexivity].
  - destruct (findByte c r) as [o|]; [|discriminate].
    intros H. injection H as <-. destruct (IH o eq_refl) as [H1 H2].
    rewrite lengthN_cons. split; [lia|].
    unfold dropN in *. rewrite N2Nat.inj_succ. exact H2.
Qed.

Lemma searchByte_inside (c : byte) (r : list byte) (off len : N) :
  searchByte c r = Some (off, len) -> off + len <= lengthN r.
Proof.
  unfold searchByte. destruct (findByte c r) as [o|] eqn:E; [|discriminate].
  intros H. injection H as <- <-. apply findByte_spec in E. lia.
Qed.

Lemma searchByte_one_line (c : byte) (r : list byte) (off len : N) :
  is_LF c = false ->
  searchByte c r = Some (off, len) -> count_LF (takeN len (dropN off r)) = 0.
Proof.
  intros Hc. unfold searchByte. destruct (findByte c r) as [o|] eqn:E; [|discriminate].
  intros H. injection H as <- <-. apply findByte_spec in E as [_ ->].
  cbn. rewrite Hc. reflexivity.
Qed.


(** What [processFile] reports there: the match of the second line, at line
    9 and column 2, and the match of the third line, at line 10 and column
    1, each with its line as the text. *)
Lemma processFile_twoHits :
  processFile (fun d => d) (searchByte x62) twoHits 7
  = Some [(3, {| line := 9; column := 2; text := 2; textLength := 2 |});
          (5, {| line := 10; column := 1; text := 5; textLength := 1 |})].
Proof. vm_compute. reflexivity. Qed.

(** ** The order of the output *)

Section EmitterProofs.
Context {A : Type}.
Variable outputs : list (list A).

Lemma inOrder_S k text :
  outputs !! N.to_nat k = Some text ->
  inOrder outputs (k + 1) = inOrder outputs k ++ text.
Proof.
  intros H. unfold inOrder.
  replace (N.to_nat (k + 1)) with (S (N.to_nat k)) by lia.
  rewrite (take_S_r _ _ _ H), concat_app. cbn. rewrite app_nil_r. reflexivity.
Qed.

Lemma release_spec (done : list (N * list A)) :
  Forall (isTask outputs) done ->
  forall fuel e,
    emitterInv outputs done e -> (size (held e) <= fuel)%nat ->
    emitterInv outputs done (release fuel e) /\
    held (release fuel e) !! cursor (release fuel e) = None.
Proof.
  intros Htasks. induction fuel as [|fuel IH]; intros e HI Hsize.
  - cbn. split; [exact HI|].
    assert (held e = ∅) by (apply map_size_empty_iff; lia).
    rewrite H. apply lookup_empty.
  - cbn [release]. destruct (held e !! cursor e) as [text|] eqn:Hc; [|auto].
    destruct HI as (H1 & H2 & H3).
    pose proof (proj1 (H2 _ _) Hc) as [Hin _].
    rewrite Forall_forall in Htasks. pose proof (Htasks _ Hin) as Ht.
    unfold isTask in Ht. cbn in Ht.
    apply IH.
    + split; [|split]; cbn [cursor held terminal].
      * intros j Hj. destruct (decide (j = cursor e)) as [-> | Hne].
        -- apply list_elem_of_fmap. exists (cursor e, text). auto.
        -- apply H1. lia.
      * intros j t. destruct (decide (j = cursor e)) as [-> | Hne].
        -- rewrite lookup_delete_eq. split; [discriminate | lia].
        -- rewrite lookup_delete_ne by congruence. rewrite H2.
           split; intros [Ha Hb]; (split; [exact Ha | lia]).
      * rewrite H3. symmetry. apply inOrder_S. exact Ht.
    + cbn [held]. rewrite map_size_delete, Hc. cbn. lia.
Qed.

Lemma end_spec (done : list (N * list A)) (i : N) (text : list A) (e : Emitter) :
  Forall (isTask outputs) (done ++ [(i, text)]) ->
  i ∉ map fst done ->
  emitterInv outputs done e ->
  emitterInv outputs (done ++ [(i, text)]) (end_ i text e) /\
  held (end_ i text e) !! cursor (end_ i text e) = None.
Proof.
  intros Htasks Hfresh (H1 & H2 & H3). unfold end_. cbn zeta.
  apply release_spec; [exact Htasks | | cbn; lia].
  assert (Hci : cursor e <= i).
  { apply N.nlt_ge. intros Hlt. apply Hfresh. apply H1. exact Hlt. }
  split; [|split]; cbn [cursor held terminal].
  - intros j Hj. rewrite map_app, elem_of_app. left. apply H1. exact Hj.
  - intros j t. rewrite elem_of_app, list_elem_of_singleton.
    destruct (decide (j = i)) as [-> | Hne].
    + rewrite lookup_insert_eq. split.
      * intros [= <-]. split; [right; reflexivity | exact Hci].
      * intros [[Hin | [= <-]] _]; [|reflexivity].
        exfalso. apply Hfresh. apply list_elem_of_fmap. exists (i, t). auto.
    + rewrite lookup_insert_ne by congruence. rewrite H2.
      split; [intros [Ha Hb]; split; [left; exact Ha | exact Hb]|].
      intros [[Ha | [= Ha _]] Hb]; [auto | congruence].
  - exact H3.
Qed.

Lemma run_spec (rest : list (N * list A)) :
  forall done e,
    Forall (isTask outputs) (done ++ rest) -> NoDup (map fst (done ++ rest)) ->
    emitterInv outputs done e -> held e !! cursor e = None ->
    let e' := fold_left (fun e task => end_ (fst task) (snd task) e) rest e in
    emitterInv outputs (done ++ rest) e' /\ held e' !! cursor e' = None.
Proof.
  induction rest as [|[i text] rest IH]; intros done e Htasks Hnd HI Hnone; cbn zeta.
  - rewrite app_nil_r. auto.
  - cbn [fold_left fst snd].
    replace (done ++ (i, text) :: rest) with ((done ++ [(i, text)]) ++ rest) in *
      by (rewrite <- (assoc_L (++)); reflexivity).
    destruct (end_spec done i text e) as [HI' Hnone'].
    + apply Forall_app in Htasks. tauto.
    + rewrite !map_app in Hnd. apply NoDup_app in Hnd as [Hnd _].
      apply NoDup_app in Hnd as (_ & Hnd & _).
      intros Hin. apply (Hnd _ Hin). cbn. left.
    + exact HI.
    + apply IH; assumption.
Qed.

Lemma searchTasks_elem (task : N * list A) :
  lengthN outputs <= UINT_MOD ->
  task ∈ searchTasks outputs -> isTask outputs task.
Proof.
  intros Hn Hin. unfold searchTasks in Hin.
  apply elem_of_lookup_imap in Hin as (i & out & -> & Hi).
  unfold isTask. cbn. pose proof (lookup_lt_Some _ _ _ Hi) as Hlt.
  rewrite u32_small by (unfold lengthN in Hn; lia). rewrite Nat2N.id. exact Hi.
Qed.

Lemma searchTasks_index (j : N) :
  lengthN outputs <= UINT_MOD ->
  j < lengthN outputs -> j ∈ map fst (searchTasks outputs).
Proof.
  intros Hn Hj. unfold lengthN in *.
  destruct (lookup_lt_is_Some_2 outputs (N.to_nat j)) as [out Hout]; [lia|].
  apply list_elem_of_fmap. exists (j, out). split; [reflexivity|].
  unfold searchTasks. apply elem_of_lookup_imap.
  exists (N.to_nat j), out. split; [|exact Hout].
  rewrite N2Nat.id, u32_small by lia. reflexivity.
Qed.

Lemma searchTasks_NoDup :
  lengthN outputs <= UINT_MOD -> NoDup (map fst (searchTasks outputs)).
Proof.
  intros Hn. apply NoDup_alt. intros i j x Hi Hj.
  unfold searchTasks in *.
  rewrite list_lookup_fmap in Hi, Hj.
  rewrite list_lookup_imap in Hi, Hj.
  destruct (outputs !! i) as [oi|] eqn:Ei; [|discriminate].
  destruct (outputs !! j) as [oj|] eqn:Ej; [|discriminate].
  cbn in Hi, Hj. injection Hi as Hi. injection Hj as Hj.
  apply lookup_lt_Some in Ei, Ej. unfold lengthN in Hn.
  rewrite u32_small in Hi, Hj by lia. lia.
Qed.

(** C3.  Whatever the order in which the workers end their chunks, the
    terminal gets the output of the chunks in the order of their indices,
    which [searchProject] counts from 0 as it reads them: when all workers
    have ended, the terminal holds the outputs of all chunks in read order,
    and at any moment before it holds those of the first [k] chunks, for
    some [k].  ([OrderedOutput] is modelled from the specification.) *)
Theorem output_in_chunk_order (order : list (N * list A)) :
  lengthN outputs <= UINT_MOD ->
  order ≡ₚ searchTasks outputs ->
  terminal (runWorkers order) = concat outputs /\
  forall done rest, order = done ++ rest ->
    exists k, terminal (runWorkers done) = concat (take k outputs).
Proof.
  intros Hn Hperm.
  assert (Htasks : Forall (isTask outputs) order).
  { apply Forall_forall. intros task Hin. apply searchTasks_elem; [exact Hn|].
    rewrite <- Hperm. exact Hin. }
  assert (Hnd : NoDup (map fst order)).
  { rewrite Hperm. apply searchTasks_NoDup. exact Hn. }
  assert (Hinit : emitterInv outputs [] (@Ordered.initial A)).
  { split; [|split]; cbn.
    - intros j Hj. lia.
    - intros j t. rewrite lookup_empty. split; [discriminate|].
      intros [H _]. inversion H.
    - reflexivity. }
  split.
  - destruct (run_spec order [] Ordered.initial Htasks Hnd Hinit (lookup_empty _))
      as [(H1 & H2 & H3) Hnone].
    fold (runWorkers order) in *. cbn [app] in *.
    rewrite H3. unfold inOrder. rewrite take_ge; [reflexivity|].
    destruct (decide (cursor (runWorkers order) < lengthN outputs)) as [Hlt | Hge];
      [|unfold lengthN in Hge; lia].
    exfalso. pose proof (searchTasks_index _ Hn Hlt) as Hin.
    rewrite <- Hperm in Hin. apply list_elem_of_fmap in Hin as ([j t] & Hj & Hin).
    cbn in Hj. subst j.
    assert (held (runWorkers order) !! cursor (runWorkers order) = Some t)
      by (apply H2; split; [exact Hin | lia]).
    congruence.
  - intros done rest ->.
    destruct (run_spec done [] Ordered.initial) as [(H1 & H2 & H3) Hnone].
    + apply Forall_app in Htasks. tauto.
    + cbn [app]. rewrite map_app in Hnd. apply NoDup_app in Hnd. tauto.
    + exact Hinit.
    + apply lookup_empty.
    + fold (runWorkers done) in *. eexists. exact H3.
Qed.

End EmitterProofs.

(** C3 for three chunks, the worker of the last chunk ending first. *)
Lemma output_in_chunk_order_witness :
  terminal (runWorkers lastFirst) = concat threeChunks /\
  forall done rest, lastFirst = done ++ rest ->
    exists k, terminal (runWorkers done) = concat (take k threeChunks).
Proof.
  apply (output_in_chunk_order threeChunks lastFirst).
  - vm_compute. discriminate.
  - change (searchTasks threeChunks) with [(0, [10]); (1, [20; 21]); (2, [30])].
    exact (Permutation_cons_append [(0, [10]); (1, [20; 21])] (2, [30])).
Defined.

(** ** The hash iterations of the index: [getIndexHashIterations] *)


Lemma double_0_693147181_nearest :
  (2 * Z.abs (6243314772129019 * 10 ^ 9 - 693147181 * 2 ^ 53) <= 10 ^ 9)%Z.
Proof. vm_compute. discriminate. Qed.

Lemma shr_1_nonneg mrs : (0 <= shr_m mrs)%Z -> (0 <= shr_m (shr_1 mrs))%Z.
Proof.
  destruct mrs as [m r s]. cbn [shr_m]. intros H.
  destruct m as [|p|p]; [cbn; lia | | lia].
  destruct p; cbn; lia.
Qed.

Lemma iter_pos_shr_1_nonneg p : forall mrs,
  (0 <= shr_m mrs)%Z -> (0 <= shr_m (SpecFloat.iter_pos shr_1 p mrs))%Z.
Proof.
  induction p as [p IH | p IH |]; intros mrs H; cbn [SpecFloat.iter_pos].
  - apply IH, IH, shr_1_nonneg, H.
  - apply IH, IH, H.
  - apply shr_1_nonneg, H.
Qed.

Lemma shr_fexp_nonneg m e l :
  (0 <= m)%Z -> (0 <= shr_m (fst (shr_fexp prec emax m e l)))%Z.
Proof.
  intros H. unfold shr_fexp, shr.
  assert (H0 : (0 <= shr_m (shr_record_of_loc m l))%Z)
    by (destruct l as [|[]]; exact H).
  destruct (_ - e)%Z; cbn [fst]; auto using iter_pos_shr_1_nonneg.
Qed.

Lemma round_nearest_even_nonneg m l : (0 <= m)%Z -> (0 <= round_nearest_even m l)%Z.
Proof.
  intros H. unfold round_nearest_even.
  destruct l as [|[]]; try destruct (Z.even m); lia.
Qed.

Lemma binary_round_aux_nonneg mx ex lx :
  (0 <= mx)%Z -> nonnegD (binary_round_aux prec emax false mx ex lx).
Proof.
  intros H. unfold binary_round_aux.
  pose proof (shr_fexp_nonneg mx ex lx H) as H1.
  destruct (shr_fexp prec emax mx ex lx) as [mrs' e']. cbn [fst] in H1.
  pose proof (shr_fexp_nonneg _ e' loc_Exact
                (round_nearest_even_nonneg _ (loc_of_shr_record mrs') H1)) as H2.
  destruct (shr_fexp prec emax _ e' loc_Exact) as [mrs'' e'']. cbn [fst] in H2.
  destruct (shr_m mrs'') as [|p|p]; [exact I | | lia].
  destruct (e'' <=? emax - prec)%Z; exact I.
Qed.

Lemma double_of_uint_nonneg x : nonnegD (double_of_uint x).
Proof. destruct x; exact I. Qed.

Lemma SFmul_nonneg y :
  nonnegD y -> nonnegD (SFmul prec emax double_0_693147181 y).
Proof.
  intros Hy. destruct y as [[]|[]| |[] m e]; try contradiction; try exact I.
  cbn [SFmul double_0_693147181 xorb]. apply binary_round_aux_nonneg. lia.
Qed.

Lemma SFdiv_nonneg x p : nonnegD x ->
  nonnegD (SFdiv prec emax x (S754_finite false p 0)).
Proof.
  intros Hx. destruct x as [[]|[]| |[] m e]; try contradiction; try exact I.
  cbn [SFdiv xorb].
  destruct (SFdiv_core_binary prec emax (Z.pos m) e (Z.pos p) 0) as [[mz ez] lz] eqn:E.
  apply binary_round_aux_nonneg.
  unfold SFdiv_core_binary in E.
  destruct (Z.div_eucl _ (Z.pos p)) as [q r] eqn:Ed. injection E as <- _ _.
  match type of Ed with Z.div_eucl ?a ?b = _ =>
    pose proof (Z_div_mod a b ltac:(lia)) as Hdm; rewrite Ed in Hdm;
    assert (0 <= a)%Z end.
  { destruct (_ - _ - _)%Z; try lia. apply Z.shiftl_nonneg. lia. }
  destruct Hdm as [Hdm Hr]. nia.
Qed.

Lemma hashIterations_k_nonneg indexSize itemCount :
  nonnegD (hashIterations_k indexSize itemCount).
Proof.
  unfold hashIterations_k. cbv zeta. destruct (u32 itemCount =? 0) eqn:E; [exact I|].
  apply N.eqb_neq in E. destruct (u32 itemCount) as [|p]; [congruence|].
  cbn [double_of_uint]. apply SFdiv_nonneg.
  apply SFmul_nonneg, double_of_uint_nonneg.
Qed.

Lemma clampCast_spec k :
  nonnegD k ->
  Z.of_N (clampCast k) = clamp 1 16 (Qfloor (double_value k)).
Proof.
  unfold clampCast. destruct k as [[]|[]| |[] m e]; try contradiction; intros _.
  - reflexivity.
  - reflexivity.
  - cbn [double_ltb double_of_uint uint_of_double double_value negb].
    unfold scaled, clamp.
    destruct (e <? 0)%Z eqn:Ee.
    + apply Z.ltb_lt in Ee. rewrite (Z.min_l e 0), (Z.min_r 0 e) by lia.
      replace (e + - e)%Z with 0%Z by lia. replace (0 + - e)%Z with (- e)%Z by lia.
      rewrite Z.pow_0_r, !Z.mul_1_r, !Z.mul_1_l.
      assert (Hp : (0 < 2 ^ (- e))%Z) by (apply Z.pow_pos_nonneg; lia).
      unfold Qfloor. rewrite Z2Pos.id by exact Hp.
      destruct (Z.pos m <? 2 ^ (- e))%Z eqn:E1.
      * apply Z.ltb_lt in E1. rewrite Z.div_small by lia. reflexivity.
      * apply Z.ltb_ge in E1.
        assert (H1 : (1 <= Z.pos m / 2 ^ (- e))%Z)
          by (apply Z.div_le_lower_bound; lia).
        destruct (16 * 2 ^ (- e) <? Z.pos m)%Z eqn:E2.
        -- apply Z.ltb_lt in E2.
           assert (H2 : (16 <= Z.pos m / 2 ^ (- e))%Z)
             by (apply Z.div_le_lower_bound; lia).
           revert H1 H2. generalize (Z.pos m / 2 ^ (- e))%Z. intros q H1 H2. lia.
        -- apply Z.ltb_ge in E2.
           assert (H2 : (Z.pos m / 2 ^ (- e) <= 16)%Z)
             by (apply Z.div_le_upper_bound; lia).
           revert H1 H2. generalize (Z.pos m / 2 ^ (- e))%Z. intros q H1 H2.
           rewrite u32_small; [lia|].
           assert (UINT_MOD = 4294967296) by reflexivity. lia.
    + apply Z.ltb_ge in Ee. rewrite (Z.min_r e 0), (Z.min_l 0 e) by lia.
      replace (0 + - 0)%Z with 0%Z by lia. replace (e + - 0)%Z with e by lia.
      rewrite Z.pow_0_r, !Z.mul_1_r.
      assert (Hp : (0 < 2 ^ e)%Z) by (apply Z.pow_pos_nonneg; lia).
      unfold Qfloor. rewrite Z.div_1_r.
      destruct (Z.pos m * 2 ^ e <? 1)%Z eqn:E1; [apply Z.ltb_lt in E1; nia|].
      apply Z.ltb_ge in E1.
      destruct (16 <? Z.pos m * 2 ^ e)%Z eqn:E2.
      * apply Z.ltb_lt in E2. lia.
      * apply Z.ltb_ge in E2. rewrite u32_small; [lia|].
        assert (UINT_MOD = 4294967296) by reflexivity. lia.
Qed.

(** C6, amended.  The iteration count is the [double]
    [0.693147181 * m / n], with [m = indexSize * 8], cut to its integer part
    (not rounded to the nearest integer) and clamped to [1, 16]; it is 1 when
    [n = 0]. *)
Theorem hash_iterations_truncated (indexSize itemCount : N) :
  Z.of_N (getIndexHashIterations indexSize itemCount)
  = clamp 1 16 (Qfloor (double_value (hashIterations_k indexSize itemCount))) /\
  1 <= getIndexHashIterations indexSize itemCount <= 16 /\
  getIndexHashIterations indexSize 0 = 1.
Proof.
  pose proof (clampCast_spec _ (hashIterations_k_nonneg indexSize itemCount)) as H.
  change (clampCast (hashIterations_k indexSize itemCount))
    with (getIndexHashIterations indexSize itemCount) in H.
  split; [exact H|]. split; [|reflexivity].
  unfold clamp in H. lia.
Qed.

(** Bounds of [ln 2], enough to round [ln 2 * 5 / 2]. *)

Local Open Scope R_scope.

Lemma ln_le_sub1 (x : R) : 0 < x -> ln x <= x - 1.
Proof.
  intros Hx. destruct (Rle_or_lt (ln x) (x - 1)) as [H | H]; [exact H|].
  apply exp_increasing in H. rewrite exp_ln in H by exact Hx.
  pose proof (exp_ineq1_le (x - 1)). lra.
Qed.

Lemma ln_ratio_lower (a b : R) : 0 < a -> 0 < b -> 1 - a / b <= ln (b / a).
Proof.
  intros Ha Hb.
  assert (Hab : 0 < a / b) by (apply Rdiv_lt_0_compat; assumption).
  pose proof (ln_le_sub1 (a / b) Hab) as H.
  replace (b / a) with (/ (a / b)) by (field; split; lra).
  rewrite ln_Rinv by exact Hab. lra.
Qed.

Lemma ln_2_lower : 6 / 10 <= ln 2.
Proof.
  replace 2 with ((5 / 4) * ((6 / 5) * ((7 / 6) * (8 / 7)))) at 1 by field.
  rewrite !ln_mult by lra.
  pose proof (ln_ratio_lower 4 5 ltac:(lra) ltac:(lra)).
  pose proof (ln_ratio_lower 5 6 ltac:(lra) ltac:(lra)).
  pose proof (ln_ratio_lower 6 7 ltac:(lra) ltac:(lra)).
  pose proof (ln_ratio_lower 7 8 ltac:(lra) ltac:(lra)).
  lra.
Qed.

Lemma ln_2_upper : ln 2 <= 9 / 10.
Proof.
  replace 2 with ((4 / 3) * (3 / 2)) at 1 by field.
  rewrite ln_mult by lra.
  pose proof (ln_le_sub1 (4 / 3) ltac:(lra)).
  pose proof (ln_le_sub1 (3 / 2) ltac:(lra)). lra.
Qed.

(** C6 as the specification words it fails: for an index of 1250 bytes and
    4000 keys, [ln 2 * 10000 / 4000] is about 1.73, which rounds to 2; the
    code returns 1. *)
Lemma hash_iterations_not_rounded :
  Z.of_N (getIndexHashIterations 1250 4000) = 1%Z /\
  spec_iterations 1250 4000 = 2%Z.
Proof.
  split; [vm_compute; reflexivity|].
  unfold spec_iterations. change (4000 =? 0)%N with false. cbn iota.
  change (Z.of_N (1250 * 8)) with 10000%Z. change (Z.of_N 4000) with 4000%Z.
  assert (H : round_R (ln 2 * 10000 / 4000) = 2%Z).
  { unfold round_R. symmetry. apply Int_part_spec.
    pose proof ln_2_lower. pose proof ln_2_upper. lra. }
  rewrite H. reflexivity.
Qed.

Local Close Scope R_scope.

(** ** More on the EOL normalisation *)

Lemma normalize_spec_length (l : list byte) :
  (length (normalize_spec l) <= length l)%nat.
Proof.
  induction l as [l IH] using (induction_ltof1 _ (@length byte)).
  unfold ltof in IH.
  destruct l as [|c l]; [reflexivity|].
  cbn [normalize_spec]. destruct (is_CR c).
  - destruct l as [|d l]; [reflexivity|].
    destruct (is_LF d).
    + pose proof (IH l ltac:(cbn; lia)). cbn [length]. lia.
    + pose proof (IH (d :: l) ltac:(cbn; lia)). cbn [length] in *. lia.
  - pose proof (IH l ltac:(cbn; lia)). cbn [length]. lia.
Qed.

(** X18.  What [readFile] makes of the bytes of a file is never longer than
    these bytes, is left as it is by a second normalisation, and is the bytes
    themselves exactly when they hold no CR. *)
Theorem readFile_twice (raw : list byte) :
  (length (readFile raw) <= length raw)%nat /\
  readFile (readFile raw) = readFile raw /\
  (readFile raw = raw <-> Forall (fun c => is_CR c = false) raw).
Proof.
  rewrite !readFile_spec. split; [apply normalize_spec_length|]. split.
  - apply normalize_spec_id, normalize_spec_no_CR.
  - split.
    + intros <-. apply normalize_spec_no_CR.
    + apply normalize_spec_id.
Qed.

(** ** Lines of a buffer, continued *)

Lemma lastLF_before l : 0 < lastLF l -> l !! N.to_nat (lastLF l - 1) = Some LF.
Proof.
  induction l as [|c l IH]; cbn [lastLF]; [lia|].
  destruct (0 <? lastLF l) eqn:E.
  - apply N.ltb_lt in E. intros _.
    replace (N.to_nat (lastLF l + 1 - 1)) with (S (N.to_nat (lastLF l - 1))) by lia.
    cbn. apply IH. exact E.
  - destruct (is_LF c) eqn:Hc; [|lia]. intros _.
    apply is_LF_true in Hc. subst c. reflexivity.
Qed.

Lemma count_LF_drop_lastLF l : count_LF (dropN (lastLF l) l) = 0.
Proof.
  pose proof (count_LF_take_lastLF l) as H.
  assert (Hx : l = takeN (lastLF l) l ++ dropN (lastLF l) l)
    by (unfold takeN, dropN; symmetry; apply take_drop).
  apply (f_equal count_LF) in Hx. rewrite count_LF_app in Hx. lia.
Qed.

Lemma lookup_takeN {A} (l : list A) (n : N) (i : nat) :
  (i < N.to_nat n)%nat -> takeN n l !! i = l !! i.
Proof. intros H. unfold takeN. apply lookup_take_lt. exact H. Qed.

Lemma firstLF_at l : 0 < count_LF l -> l !! N.to_nat (firstLF l - 1) = Some LF.
Proof.
  induction l as [|c l IH]; cbn [count_LF firstLF]; [lia|].
  destruct (is_LF c) eqn:Hc.
  - intros _. apply is_LF_true in Hc. subst c. reflexivity.
  - intros H. pose proof (firstLF_bounds l ltac:(lia)) as Hb.
    replace (N.to_nat (1 + firstLF l - 1)) with (S (N.to_nat (firstLF l - 1))) by lia.
    cbn. apply IH. lia.
Qed.

Lemma count_LF_before_firstLF l : count_LF (takeN (firstLF l - 1) l) = 0.
Proof.
  induction l as [|c l IH]; [reflexivity|]. cbn [firstLF].
  destruct (is_LF c) eqn:Hc; [reflexivity|].
  replace (1 + firstLF l - 1) with (firstLF l) by lia.
  destruct (firstLF l) as [|p] eqn:E; [reflexivity|].
  unfold takeN in *. replace (N.to_nat (N.pos p)) with (S (N.to_nat (N.pos p - 1))) by lia.
  cbn [take count_LF]. rewrite Hc, IH. reflexivity.
Qed.

(** X1.  [skipByLines] on the first [dataSize] bytes of a buffer, [dataSize]
    below 2^31: the offset that it returns is just after the last line feed
    of these bytes, or 0 when they hold none, and the count that it returns
    is the number of their line feeds. *)
Theorem skipByLines_last_line (data : list byte) (dataSize : N) :
  dataSize < 2 ^ 31 -> dataSize <= lengthN data ->
  let skip := skipByLines data dataSize in
  fst skip <= dataSize /\
  snd skip = count_LF (takeN dataSize data) /\
  (fst skip = 0 <-> snd skip = 0) /\
  (0 < fst skip -> data !! N.to_nat (fst skip - 1) = Some LF) /\
  count_LF (slice data (fst skip) dataSize) = 0.
Proof.
  intros H31 Hlen. cbv zeta. rewrite skipByLines_spec by assumption. cbn [fst snd].
  set (l := takeN dataSize data).
  assert (Hl : lengthN l = dataSize) by (apply lengthN_takeN; exact Hlen).
  pose proof (lastLF_le l) as Hle. rewrite Hl in Hle.
  pose proof (lastLF_pos_iff l) as Hpos.
  split; [exact Hle|]. split; [reflexivity|].
  split; [destruct Hpos; split; lia|]. split.
  - intros H. rewrite <- (lastLF_before l H). symmetry. apply lookup_takeN. lia.
  - replace (slice data (lastLF l) dataSize) with (dropN (lastLF l) l);
      [apply count_LF_drop_lastLF|].
    subst l. unfold slice, takeN, dropN in *. rewrite take_drop_commute.
    do 2 f_equal. lia.
Qed.

(** X2.  [skipOneLine] on the first [dataSize] bytes of a buffer returns the
    offset just after their first line feed, and [dataSize] when they hold
    none. *)
Theorem skipOneLine_first_line (data : list byte) (dataSize : N) :
  dataSize <= lengthN data ->
  let k := skipOneLine data dataSize in
  k <= dataSize /\
  (0 < count_LF (takeN dataSize data) ->
   1 <= k /\ data !! N.to_nat (k - 1) = Some LF /\ count_LF (takeN (k - 1) data) = 0) /\
  (count_LF (takeN dataSize data) = 0 -> k = dataSize).
Proof.
  intros Hlen. cbv zeta. rewrite skipOneLine_spec.
  set (l := takeN dataSize data).
  assert (Hl : lengthN l = dataSize) by (apply lengthN_takeN; exact Hlen).
  destruct (0 <? count_LF l) eqn:E.
  - apply N.ltb_lt in E. pose proof (firstLF_bounds l E) as Hb. rewrite Hl in Hb.
    split; [lia|]. split; [|lia]. intros _. split; [lia|]. split.
    + rewrite <- (firstLF_at l E). symmetry. apply lookup_takeN. lia.
    + rewrite <- (count_LF_before_firstLF l). f_equal.
      symmetry. apply takeN_takeN. lia.
  - apply N.ltb_ge in E. split; [lia|]. split; [lia | reflexivity].
Qed.

(** ** The cut of a record, continued *)

Lemma bytesOf_split (f : File) (k lines : N) :
  wfFile f -> k <= sizeOf f ->
  bytesOf (prefixOf f k) ++ bytesOf (suffixOf f k lines) = bytesOf f.
Proof.
  intros [Hw _] Hk. unfold bytesOf, Blob_bytes, Blob_ptr, prefixOf, suffixOf, sizeOf in *.
  simpl_rec. unfold takeN, dropN.
  replace (N.to_nat (offset (contents f) + k))
    with (N.to_nat (offset (contents f)) + N.to_nat k)%nat by lia.
  idtac.
  replace (N.to_nat (count (contents f)))
    with (N.to_nat k + N.to_nat (count (contents f) - k))%nat by lia.
  rewrite <- take_take_drop, drop_drop. reflexivity.
Qed.

Section Cut.
Variable ndebug : bool.

Lemma cutAt_bounds (f : File) (rem : N) :
  wfFile f -> rem < sizeOf f ->
  let l1 := takeN rem (bytesOf f) in
  1 <= cutAt f rem <= sizeOf f /\
  (bytesOf f !! N.to_nat (cutAt f rem - 1) = Some LF \/
   (cutAt f rem = sizeOf f /\ count_LF (bytesOf f) = 0)) /\
  (0 < lastLF l1 ->
   cutAt f rem <= rem /\ count_LF (takeN (cutAt f rem) (bytesOf f)) = count_LF l1) /\
  (lastLF l1 = 0 -> rem < cutAt f rem /\
                    count_LF (takeN (cutAt f rem) (bytesOf f)) <= 1).
Proof.
  intros Hwf Hrem. cbv zeta. unfold cutAt.
  pose proof (bytesOf_length f Hwf) as Hlen.
  set (d := bytesOf f) in *. set (l1 := takeN rem d).
  assert (Hl1 : lengthN l1 = rem) by (apply lengthN_takeN; lia).
  pose proof (lastLF_le l1) as Hle. rewrite Hl1 in Hle.
  destruct (0 <? lastLF l1) eqn:E.
  - apply N.ltb_lt in E. split; [lia|]. split; [|split; [|lia]].
    + left. rewrite <- (lastLF_before l1 E). symmetry. apply lookup_takeN. lia.
    + intros _. split; [lia|].
      rewrite <- (count_LF_take_lastLF l1). f_equal.
      symmetry. apply takeN_takeN. lia.
  - apply N.ltb_ge in E.
    assert (Hnone : count_LF l1 = 0).
    { pose proof (lastLF_pos_iff l1) as [_ H].
      destruct (N.eq_dec (count_LF l1) 0) as [|Hne]; [assumption|].
      specialize (H ltac:(lia)). lia. }
    destruct (0 <? count_LF d) eqn:E2.
    + apply N.ltb_lt in E2. pose proof (firstLF_bounds d E2) as Hb.
      assert (Hgt : rem < firstLF d).
      { apply N.nle_gt. intros Hc.
        assert (H1 : count_LF (takeN (firstLF d) l1) = 1).
        { unfold l1. rewrite takeN_takeN by lia. apply count_LF_take_firstLF. exact E2. }
        pose proof (count_LF_takeN_le (firstLF d) l1). lia. }
      split; [lia|]. split; [left; apply firstLF_at; exact E2|].
      split; [lia|]. intros _. split; [exact Hgt|].
      rewrite count_LF_take_firstLF by exact E2. lia.
    + apply N.ltb_ge in E2. split; [lia|]. split; [right; split; [reflexivity | lia]|].
      split; [lia|]. intros _. split; [exact Hrem|].
      pose proof (count_LF_takeN_le (sizeOf f) d). lia.
Qed.

Lemma appendChunkFilePrefix_cut (chunk : Chunk) (f : File) (rem : N) :
  wfFile f -> rem < sizeOf f -> rem < 2 ^ 31 ->
  totalSize chunk + sizeOf f < SIZE_MOD ->
  let l1 := takeN rem (bytesOf f) in
  appendChunkFilePrefix ndebug chunk f rem
  = if (0 <? lastLF l1) || match files chunk with [] => true | _ => false end
    then Done ({| files := files chunk ++ [prefixOf f (cutAt f rem)];
                  totalSize := totalSize chunk + cutAt f rem |},
               suffixOf f (cutAt f rem) (if 0 <? lastLF l1 then count_LF l1 else 1))
    else Done (chunk, f).
Proof.
  intros Hwf Hrem H31 Htot. cbv zeta.
  pose proof (cutAt_bounds f rem Hwf Hrem) as (Hk & _).
  pose proof (Blob_ptr_length f Hwf) as Hlen.
  destruct Hwf as [Hw1 Hw2].
  unfold appendChunkFilePrefix, Blob_data.
  rewrite (assert_true ndebug (_ <=? _))
    by (apply N.leb_le; unfold sz_add; rewrite sz_small; unfold sizeOf in *; lia).
  rewrite !bind_Done.
  rewrite (assert_true ndebug (_ <? _)) by (apply N.ltb_lt; exact Hrem).
  rewrite bind_Done.
  rewrite skipByLines_spec by (unfold sizeOf in *; lia).
  cbn [fst snd].
  assert (Hb : takeN rem (Blob_ptr (contents f)) = takeN rem (bytesOf f)).
  { unfold bytesOf, Blob_bytes. symmetry. apply takeN_takeN. unfold sizeOf in *. lia. }
  rewrite Hb.
  assert (Hone : skipOneLine (Blob_ptr (contents f)) (Blob_size (contents f))
                 = if 0 <? count_LF (bytesOf f) then firstLF (bytesOf f) else sizeOf f).
  { rewrite skipOneLine_spec. reflexivity. }
  rewrite Hone.
  assert (Hcut : (if 0 <? lastLF (takeN rem (bytesOf f))
                  then lastLF (takeN rem (bytesOf f))
                  else if 0 <? count_LF (bytesOf f) then firstLF (bytesOf f)
                       else sizeOf f) = cutAt f rem) by reflexivity.
  rewrite Hcut.
  destruct ((0 <? lastLF (takeN rem (bytesOf f))) ||
            match files chunk with [] => true | _ => false end); [|reflexivity].
  unfold splitPrefix.
  rewrite assert_true by (apply N.leb_le; unfold Blob_size, sizeOf in *; lia).
  rewrite !bind_Done.
  unfold set_startLine, prefixOf, suffixOf. cbn.
  unfold sz_add. rewrite !sz_small by (unfold sizeOf in *; lia).
  rewrite sz_sub_le by (unfold sizeOf in *; lia). reflexivity.
Qed.

End Cut.

Lemma last_takeN (l : list byte) (k : N) (c : byte) :
  1 <= k -> l !! N.to_nat (k - 1) = Some c -> last (takeN k l) = Some c.
Proof.
  intros Hk Hl. pose proof (lookup_lt_Some _ _ _ Hl) as Hlt.
  rewrite last_lookup. unfold takeN. rewrite length_take.
  replace (Init.Nat.pred (N.to_nat k `min` length l)) with (N.to_nat (k - 1)) by lia.
  rewrite lookup_take_lt by lia. exact Hl.
Qed.

Lemma bytesOf_prefixOf_take (f : File) (k : N) :
  k <= sizeOf f -> bytesOf (prefixOf f k) = takeN k (bytesOf f).
Proof.
  intros Hk. rewrite bytesOf_prefixOf. unfold bytesOf, Blob_bytes.
  symmetry. apply takeN_takeN. exact Hk.
Qed.

Section CutTheorem.
Variable ndebug : bool.

(** X3.  [appendChunkFilePrefix] on a record that does not fit the
    [remainingSize] bytes left of a chunk.  Either nothing changes, which
    needs a chunk that is not empty and no line feed in the first
    [remainingSize] bytes of the record; or the record is cut in two: the
    prefix, of at least one byte, goes to the chunk and ends with a line feed
    (or is the whole record, without any line feed), the rest stays; no byte
    is lost, and the rest starts as many lines further as the prefix has line
    feeds, one line at least.  The prefix is within [remainingSize], or alone
    in its chunk. *)
Theorem appendChunkFilePrefix_line_aligned
    (chunk : Chunk) (f : File) (remainingSize : N) :
  wfFile f -> remainingSize < sizeOf f -> remainingSize < 2 ^ 31 ->
  totalSize chunk + sizeOf f < SIZE_MOD ->
  (appendChunkFilePrefix ndebug chunk f remainingSize = Done (chunk, f) /\
   files chunk <> [] /\ count_LF (takeN remainingSize (bytesOf f)) = 0)
  \/
  (exists p f',
     appendChunkFilePrefix ndebug chunk f remainingSize
     = Done ({| files := files chunk ++ [p];
                totalSize := totalSize chunk + sizeOf p |}, f') /\
     bytesOf p ++ bytesOf f' = bytesOf f /\
     1 <= sizeOf p /\
     (last (bytesOf p) = Some LF \/
      (bytesOf p = bytesOf f /\ count_LF (bytesOf f) = 0)) /\
     (sizeOf p <= remainingSize \/ files chunk = []) /\
     name p = name f /\ name f' = name f /\ startLine p = startLine f /\
     startLine f' = u32 (startLine f + N.max 1 (count_LF (bytesOf p)))).
Proof.
  intros Hwf Hrem H31 Htot.
  rewrite (appendChunkFilePrefix_cut ndebug chunk f remainingSize Hwf Hrem H31 Htot).
  pose proof (cutAt_bounds f remainingSize Hwf Hrem) as (Hk & Hend & Hlast & Hfirst).
  cbv zeta in *. set (k := cutAt f remainingSize) in *.
  set (l1 := takeN remainingSize (bytesOf f)) in *.
  assert (Hcases :
    (0 <? lastLF l1) || match files chunk with [] => true | _ => false end = false ->
    files chunk <> [] /\ count_LF l1 = 0).
  { intros H. apply orb_false_iff in H as [H1 H2]. apply N.ltb_ge in H1.
    split; [destruct (files chunk); [discriminate | discriminate]|].
    pose proof (lastLF_pos_iff l1) as [_ Hx].
    destruct (N.eq_dec (count_LF l1) 0) as [|Hne]; [assumption|].
    specialize (Hx ltac:(lia)). lia. }
  destruct ((0 <? lastLF l1) || match files chunk with [] => true | _ => false end)
    eqn:Hc.
  2:{ left. split; [reflexivity|]. apply Hcases. reflexivity. }
  right. clear Hcases.
  exists (prefixOf f k), (suffixOf f k (if 0 <? lastLF l1 then count_LF l1 else 1)).
  pose proof (bytesOf_prefixOf_take f k ltac:(lia)) as Hbp.
  split; [reflexivity|]. split; [apply bytesOf_split; [exact Hwf | lia]|].
  split; [unfold prefixOf, sizeOf; simpl_rec; lia|].
  split; [|split; [|split; [reflexivity|split; [reflexivity|split; [reflexivity|]]]]].
  - destruct Hend as [Hend | [Hend Hnone]].
    + left. rewrite Hbp. apply last_takeN; [lia | exact Hend].
    + right. split; [|exact Hnone]. rewrite Hbp, Hend.
      apply takeN_all. rewrite (bytesOf_length f Hwf). lia.
  - destruct (0 <? lastLF l1) eqn:E.
    + left. apply N.ltb_lt in E. unfold prefixOf, sizeOf. simpl_rec.
      apply Hlast. exact E.
    + right. cbn [orb] in Hc. destruct (files chunk); [reflexivity | discriminate].
  - unfold suffixOf. simpl_rec. f_equal. f_equal. rewrite Hbp.
    destruct (0 <? lastLF l1) eqn:E.
    + apply N.ltb_lt in E. destruct (Hlast E) as [_ ->].
      pose proof (lastLF_pos_iff l1) as [Hx _]. specialize (Hx E). lia.
    + apply N.ltb_ge in E. destruct (Hfirst ltac:(lia)) as [_ Hle]. lia.
Qed.

End CutTheorem.

(** ** The ends of the records and the size of the chunks *)

Lemma atEnd_lineAligned r : atEnd r -> lineAligned r.
Proof. intros H. left. exact H. Qed.

Lemma atEnd_suffixOf f k lines : k <= sizeOf f -> atEnd f -> atEnd (suffixOf f k lines).
Proof. unfold atEnd, suffixOf, sizeOf. simpl_rec. lia. Qed.

Lemma lineAligned_cut f rem :
  wfFile f -> rem < sizeOf f -> atEnd f -> lineAligned (prefixOf f (cutAt f rem)).
Proof.
  intros Hwf Hrem Hend.
  pose proof (cutAt_bounds f rem Hwf Hrem) as (Hk & [Hlf | [Hall _]] & _).
  - right. rewrite bytesOf_prefixOf_take by lia. apply last_takeN; [lia | exact Hlf].
  - left. rewrite Hall. unfold atEnd, prefixOf, sizeOf in *. simpl_rec. exact Hend.
Qed.

Section GoodChunks.
Variable ndebug : bool.

Lemma fillChunk_good (size : N) :
  size < 2 ^ 31 ->
  forall (pending : list File) (chunk chunk' : Chunk) (pending' : list File),
    Forall wfFile pending ->
    totalSize chunk + sumCount pending < SIZE_MOD ->
    totalSize chunk <= size ->
    fillChunk ndebug size chunk pending = Done (chunk', pending') ->
    (Forall lineAligned (files chunk) -> Forall atEnd pending ->
     Forall lineAligned (files chunk') /\ Forall atEnd pending') /\
    (totalSize chunk' <= size \/ (files chunk = [] /\ length (files chunk') = 1%nat)).
Proof.
  intros H31. pose proof pow31_lt_SIZE_MOD as Hpow.
  induction pending as [|f rest IH];
    intros chunk chunk' pending' Hwf Htot Hle Hrun.
  - cbn [fillChunk] in Hrun.
    destruct (totalSize chunk <? size); injection Hrun as <- <-; auto.
  - cbn [fillChunk] in Hrun. destruct (totalSize chunk <? size) eqn:Hts.
    2:{ injection Hrun as <- <-. auto. }
    apply N.ltb_lt in Hts.
    apply Forall_cons in Hwf as [Hf Hrest].
    rewrite sumCount_cons in Htot.
    rewrite sz_sub_le in Hrun by lia.
    unfold Blob_size in Hrun. fold (sizeOf f) in Hrun.
    destruct (sizeOf f <=? size - totalSize chunk) eqn:Hfit.
    + apply N.leb_le in Hfit.
      assert (Ht1 : totalSize (appendChunkFile chunk f) = totalSize chunk + sizeOf f).
      { cbn. unfold sz_add, Blob_size. fold (sizeOf f). apply sz_small. lia. }
      apply IH in Hrun; try assumption; try (rewrite Ht1; lia).
      destruct Hrun as [H1 H2]. split.
      * intros Hal Hend. apply Forall_cons in Hend as [Hfe Hreste].
        apply H1; [|exact Hreste].
        cbn [appendChunkFile files]. apply Forall_app. split; [exact Hal|].
        constructor; [apply atEnd_lineAligned; exact Hfe | constructor].
      * destruct H2 as [H2 | [H2 _]]; [auto|].
        cbn in H2. destruct (files chunk); discriminate.
    + apply N.leb_gt in Hfit.
      rewrite (appendChunkFilePrefix_cut ndebug chunk f (size - totalSize chunk))
        in Hrun by (assumption || lia).
      pose proof (cutAt_bounds f (size - totalSize chunk) Hf Hfit)
        as (Hk & _ & Hlast & _).
      cbv zeta in Hrun, Hlast.
      destruct (0 <? lastLF (takeN (size - totalSize chunk) (bytesOf f))) eqn:E.
      * cbn [orb] in Hrun. rewrite bind_Done in Hrun. injection Hrun as <- <-.
        apply N.ltb_lt in E. destruct (Hlast E) as [Hc _].
        simpl_rec. split; [|left; lia].
        intros Hal Hend. apply Forall_cons in Hend as [Hfe Hreste]. split.
        -- apply Forall_app. split; [exact Hal|].
           constructor; [apply lineAligned_cut; assumption | constructor].
        -- constructor; [apply atEnd_suffixOf; [lia | exact Hfe] | exact Hreste].
      * cbn [orb] in Hrun. destruct (files chunk) as [|f0 fs0] eqn:Hfiles.
        -- rewrite bind_Done in Hrun. injection Hrun as <- <-.
           simpl_rec. split; [|right; split; reflexivity].
           intros Hal Hend. apply Forall_cons in Hend as [Hfe Hreste]. split.
           ++ constructor; [apply lineAligned_cut; assumption | constructor].
           ++ constructor; [apply atEnd_suffixOf; [lia | exact Hfe] | exact Hreste].
        -- rewrite bind_Done in Hrun. injection Hrun as <- <-.
           rewrite Hfiles. split; [auto | left; exact Hle].
Qed.

(** [flushChunk] keeps the invariant. *)
Lemma flushChunk_good (size : N) (b b' : Builder) :
  size < 2 ^ 31 -> WF b -> Good size b ->
  flushChunk ndebug size b = Done b' -> Good size b'.
Proof.
  intros H31 (Hwf & Hsum & Hlt) (Hend & Hal & Hbd) Hrun.
  destruct (fillChunk_spec ndebug size H31 (pendingFiles b)
              {| files := []; totalSize := 0 |} Hwf)
    as (moved & pending' & Hfill & Hm & _).
  { cbn. rewrite <- Hsum. lia. }
  assert (Hb0 : totalSize {| files := []; totalSize := 0 |}
                + sumCount (pendingFiles b) < SIZE_MOD)
    by (cbn [totalSize]; rewrite <- Hsum; lia).
  assert (Hs0 : totalSize {| files := []; totalSize := 0 |} <= size)
    by (cbn [totalSize]; lia).
  pose proof (fillChunk_good size H31 _ _ _ _ Hwf Hb0 Hs0 Hfill) as (H12 & H3).
  destruct (H12 ltac:(constructor) Hend) as [H1 H2]. clear H12.
  clear Hb0 Hs0.
  unfold flushChunk in Hrun. rewrite Hfill, bind_Done in Hrun.
  cbn [files totalSize app] in *. rewrite N.add_0_l in *.
  pose proof (Moved_sum _ _ _ Hm) as Hms.
  rewrite (assert_true ndebug) in Hrun by (apply N.leb_le; lia).
  rewrite bind_Done in Hrun. injection Hrun as <-.
  unfold Good. simpl_rec. split; [exact H2|].
  rewrite emitted_flushChunk_chunk. split.
  - apply Forall_app. split; assumption.
  - unfold flushChunk_chunk. simpl_rec. destruct moved as [|r moved]; [exact Hbd|].
    apply Forall_app. split; [exact Hbd|]. constructor; [|constructor].
    cbn [boundedChunk files totalSize]. split; [discriminate|]. split; [reflexivity|].
    destruct H3 as [H3 | [_ H3]]; [left; exact H3 | right; exact H3].
Qed.

End GoodChunks.

(** ** The bytes of the records *)

Lemma Moved_bytes pending moved pending' :
  Forall wfFile pending -> Moved pending moved pending' ->
  concat (map bytesOf (moved ++ pending')) = concat (map bytesOf pending).
Proof.
  intros Hwf [H | whole g p t rest H1 H2 H3 Hg Hs]; subst; [reflexivity|].
  destruct Hs as (k & Hk & -> & -> & _).
  rewrite <- (assoc_L (++)). cbn [app]. rewrite !map_app, !concat_app.
  cbn [map concat]. rewrite (assoc_L (++) (bytesOf (prefixOf g k))).
  rewrite bytesOf_split by (assumption || lia). reflexivity.
Qed.

Lemma FlushStep_allBytes size b b' :
  WF b -> FlushStep size b b' -> allBytes b' = allBytes b.
Proof.
  intros (Hwf & _) (moved & pending' & -> & Hm & _).
  unfold allBytes, allRecords. simpl_rec.
  pose proof (Moved_bytes _ _ _ Hwf Hm) as Hb. rewrite map_app, concat_app in Hb.
  rewrite emitted_flushChunk_chunk, <- (assoc_L (++)), !map_app, !concat_app.
  rewrite Hb. reflexivity.
Qed.

Lemma rtc_allBytes size b b' :
  WF b -> rtc (FlushStep size) b b' -> allBytes b' = allBytes b.
Proof.
  intros Hwf H. induction H as [|x y z Hxy Hyz IH]; [reflexivity|].
  rewrite IH by (eapply WF_FlushStep; eassumption).
  eapply FlushStep_allBytes; eassumption.
Qed.

Lemma bytesOf_empty r : sizeOf r = 0 -> bytesOf r = [].
Proof. unfold bytesOf, Blob_bytes, sizeOf. intros ->. reflexivity. Qed.

Lemma bytes_of_empty_records l :
  Forall (fun r => sizeOf r = 0) l -> concat (map bytesOf l) = [].
Proof.
  induction 1 as [|r l Hr _ IH]; [reflexivity|].
  cbn. rewrite IH, (bytesOf_empty r Hr). reflexivity.
Qed.

Section FlushTheorems.
Variable ndebug : bool.

Lemma flushChunk_run (size : N) (b b' : Builder) :
  size < 2 ^ 31 -> WF b -> flushChunk ndebug size b = Done b' ->
  FlushStep size b b' /\ WF b'.
Proof.
  intros H31 Hwf Hrun.
  destruct (flushChunk_spec ndebug size b H31 Hwf)
    as (moved & pending' & Hrun1 & Hm & Hall & _).
  rewrite Hrun in Hrun1. injection Hrun1 as ->.
  assert (Hstep : FlushStep size b
            {| pendingFiles := pending'; pendingSize := sumCount pending';
               outData := flushChunk_chunk
                            {| files := moved; totalSize := sumCount moved |}
                            (outData b) |})
    by (exists moved, pending'; auto).
  split; [exact Hstep | eapply WF_FlushStep; eassumption].
Qed.

(** What [flushChunk(size)] takes off the pending queue and writes. *)
Lemma flushChunk_front (size : N) (b : Builder) :
  size < 2 ^ 31 -> WF b ->
  exists b' moved,
    flushChunk ndebug size b = Done b' /\
    outData b' = match moved with
                 | [] => outData b
                 | _ => outData b ++
                        [Built {| files := moved; totalSize := sumCount moved |}]
                 end /\
    sumCount moved <= pendingSize b /\
    pendingSize b' = pendingSize b - sumCount moved /\
    pendingSize b' = sumCount (pendingFiles b') /\
    concat (map bytesOf (moved ++ pendingFiles b'))
    = concat (map bytesOf (pendingFiles b)) /\
    (sumCount moved <= size \/ length moved = 1%nat) /\
    (0 < size -> pendingFiles b <> [] -> moved <> []).
Proof.
  intros H31 Hwfb. pose proof Hwfb as (Hwf & Hsum & Hlt).
  destruct (fillChunk_spec ndebug size H31 (pendingFiles b)
              {| files := []; totalSize := 0 |} Hwf)
    as (moved & pending' & Hfill & Hm & _ & _ & Hstrict).
  { cbn. rewrite <- Hsum. lia. }
  assert (Hb0 : totalSize {| files := []; totalSize := 0 |}
                + sumCount (pendingFiles b) < SIZE_MOD)
    by (cbn [totalSize]; rewrite <- Hsum; lia).
  assert (Hs0 : totalSize {| files := []; totalSize := 0 |} <= size)
    by (cbn [totalSize]; lia).
  pose proof (fillChunk_good ndebug size H31 _ _ _ _ Hwf Hb0 Hs0 Hfill) as (_ & H3).
  clear Hb0 Hs0.
  pose proof (Moved_sum _ _ _ Hm) as Hms.
  eexists _, moved. unfold flushChunk. rewrite Hfill, bind_Done.
  cbn [files totalSize app] in *. rewrite N.add_0_l in *.
  rewrite (assert_true ndebug) by (apply N.leb_le; lia).
  rewrite bind_Done. rewrite sz_sub_le by lia.
  split; [reflexivity|]. simpl_rec.
  split; [unfold flushChunk_chunk; simpl_rec; destruct moved; reflexivity|].
  split; [lia|]. split; [reflexivity|]. split; [lia|].
  split; [apply Moved_bytes; assumption|].
  split; [destruct H3 as [H3 | [_ H3]]; auto|].
  intros Hs Hne. apply Hstrict; auto.
Qed.

(** X4.  [flushChunk(size)] on a builder whose [pendingSize] is the size of
    its pending records: it takes records off the front of the queue, whole
    or cut, and writes them as one chunk (none when it takes nothing).  No
    byte is lost or moved; the chunk has at most [size] bytes of data, or is
    one record; and when [size] is positive and a record is pending, a chunk
    is written. *)
Theorem flushChunk_moves_front (size : N) (b : Builder) :
  size < 2 ^ 31 -> WF b ->
  exists b' moved,
    flushChunk ndebug size b = Done b' /\
    outData b' = match moved with
                 | [] => outData b
                 | _ => outData b ++
                        [Built {| files := moved; totalSize := sumCount moved |}]
                 end /\
    sumCount moved <= pendingSize b /\
    pendingSize b' = pendingSize b - sumCount moved /\
    pendingSize b' = sumCount (pendingFiles b') /\
    concat (map bytesOf (moved ++ pendingFiles b'))
    = concat (map bytesOf (pendingFiles b)) /\
    (sumCount moved <= size \/ length moved = 1%nat) /\
    (0 < size -> pendingFiles b <> [] -> moved <> []).
Proof. apply flushChunk_front. Qed.

Variable kChunkSize : N.
Hypothesis kChunkSize_pos : 0 < kChunkSize.
Hypothesis kChunkSize_small : kChunkSize < 2 ^ 31.

(** An invariant of [flushChunk] is an invariant of the two flush loops. *)
Lemma flushIfNeeded_loop_preserves (P : Builder -> Prop) :
  (forall b b', WF b -> P b -> flushChunk ndebug kChunkSize b = Done b' -> P b') ->
  forall fuel b b',
    WF b -> P b -> flushIfNeeded_loop ndebug kChunkSize fuel b = Done b' -> P b'.
Proof.
  intros Hstep. induction fuel as [|fuel IH]; intros b b' Hwf HP;
    cbn [flushIfNeeded_loop];
    destruct (sz_mul kChunkSize 2 <=? pendingSize b);
    try discriminate; try (intros [= <-]; exact HP).
  destruct (flushChunk ndebug kChunkSize b) as [b1| |] eqn:Hrun; try discriminate.
  rewrite bind_Done. apply IH.
  - eapply flushChunk_run; eassumption.
  - eapply Hstep; eassumption.
Qed.

Lemma flush_loop_preserves (P : Builder -> Prop) :
  (forall b b', WF b -> P b -> flushChunk ndebug kChunkSize b = Done b' -> P b') ->
  forall fuel b b',
    WF b -> P b -> flush_loop ndebug kChunkSize fuel b = Done b' -> P b'.
Proof.
  intros Hstep. induction fuel as [|fuel IH]; intros b b' Hwf HP;
    cbn [flush_loop];
    destruct (0 <? pendingSize b);
    try discriminate; try (intros [= <-]; exact HP).
  destruct (flushChunk ndebug kChunkSize b) as [b1| |] eqn:Hrun; try discriminate.
  rewrite bind_Done. apply IH.
  - eapply flushChunk_run; eassumption.
  - eapply Hstep; eassumption.
Qed.

(** The chunks that [flushChunk] adds to a stream are bounded. *)
Lemma flushChunk_new_chunks (out0 : list ChunkRecord) (b b' : Builder) :
  WF b ->
  (exists recs, outData b = out0 ++ recs /\ Forall (boundedChunk kChunkSize) recs) ->
  flushChunk ndebug kChunkSize b = Done b' ->
  exists recs, outData b' = out0 ++ recs /\ Forall (boundedChunk kChunkSize) recs.
Proof.
  intros Hwf (recs & Hout & Hall) Hrun.
  destruct (flushChunk_front kChunkSize b kChunkSize_small Hwf)
    as (b1 & moved & Hrun1 & Hout1 & _ & _ & _ & _ & Hbd & _).
  rewrite Hrun in Hrun1. injection Hrun1 as <-.
  destruct moved as [|r moved].
  - exists recs. rewrite Hout1. auto.
  - exists (recs ++ [Built {| files := r :: moved; totalSize := sumCount (r :: moved) |}]).
    rewrite Hout1, Hout, (assoc_L (++)). split; [reflexivity|].
    apply Forall_app. split; [exact Hall|]. constructor; [|constructor].
    cbn [boundedChunk files totalSize]. split; [discriminate|]. split; [reflexivity|].
    exact Hbd.
Qed.

(** What [flushIfNeeded] leaves pending and writes. *)
Lemma flushIfNeeded_less (b : Builder) :
  WF b ->
  exists b' recs,
    flushIfNeeded ndebug kChunkSize b = Done b' /\
    pendingSize b' < 2 * kChunkSize /\
    pendingSize b' = sumCount (pendingFiles b') /\
    outData b' = outData b ++ recs /\
    Forall (boundedChunk kChunkSize) recs /\
    allBytes b' = allBytes b /\
    (pendingSize b < 2 * kChunkSize -> b' = b) /\
    (2 * kChunkSize <= pendingSize b -> recs <> []).
Proof.
  intros Hwf.
  destruct (flushIfNeeded_spec ndebug kChunkSize kChunkSize_pos kChunkSize_small b Hwf)
    as (b' & Hrun & Hrtc & Hexit & Hout).
  pose proof (WF_rtc _ _ _ Hwf Hrtc) as (_ & Hsum' & _).
  destruct (flushIfNeeded_loop_preserves
              (fun x => exists recs, outData x = outData b ++ recs /\
                                     Forall (boundedChunk kChunkSize) recs)
              (flushChunk_new_chunks (outData b)) (loopBudget b) b b' Hwf) as (recs & Hrecs & Hall).
  { exists []. rewrite app_nil_r. split; [reflexivity | constructor]. }
  { exact Hrun. }
  exists b', recs. split; [exact Hrun|]. split; [exact Hexit|]. split; [exact Hsum'|].
  split; [exact Hrecs|]. split; [exact Hall|].
  split; [eapply rtc_allBytes; eassumption|]. split.
  - intros Hlt. unfold flushIfNeeded in Hrun.
    rewrite (flushIfNeeded_loop_below ndebug kChunkSize kChunkSize_pos kChunkSize_small)
      in Hrun by exact Hlt.
    congruence.
  - intros Hge ->. rewrite app_nil_r in Hrecs. apply (Hout Hge). exact Hrecs.
Qed.



End FlushTheorems.

(** ** A whole build, continued *)

Lemma CChain_bytes n d : forall rs off sl,
  CChain n d off sl rs ->
  concat (map bytesOf rs) = dropN off d /\ sumCount rs = lengthN d - off /\
  Forall (fun r => storage (contents r) = d) rs.
Proof.
  assert (Hrec : forall off sl f, recordAt n d off sl f ->
            bytesOf f = takeN (sizeOf f) (dropN off d)).
  { intros off sl f (_ & Hst & Hoff & _). unfold bytesOf, Blob_bytes, Blob_ptr.
    rewrite Hst, Hoff. reflexivity. }
  intros rs off sl H. induction H as [off sl f Hf Hend | off sl f rs Hf H1 Hcut Hrs IH].
  - cbn [map concat sumCount]. rewrite app_nil_r, N.add_0_r.
    split; [|split; [lia | constructor; [apply Hf | constructor]]].
    rewrite (Hrec _ _ _ Hf). apply takeN_all. unfold lengthN, dropN.
    rewrite length_drop. unfold lengthN in Hend. lia.
  - destruct IH as (IH1 & IH2 & IH3). cbn [map concat sumCount].
    destruct Hf as (Hn & Hst & Hoff & Hsl & Hle).
    split; [|split; [lia | constructor; [exact Hst | exact IH3]]].
    rewrite IH1, (Hrec off sl f) by (repeat split; assumption).
    unfold takeN, dropN.
    replace (N.to_nat (off + sizeOf f)) with (N.to_nat off + N.to_nat (sizeOf f))%nat
      by lia.
    rewrite <- drop_drop. apply take_drop.
Qed.

Lemma sources_names (convertToUTF8 : list byte -> list byte) (fs : list SourceFile) n :
  n ∈ map fst (sources convertToUTF8 fs) ->
  exists f rawBytes, f ∈ fs /\ raw f = Some rawBytes /\ n = path f.
Proof.
  intros H. apply list_elem_of_fmap in H as ([n' d] & -> & H).
  unfold sources in H. apply list_elem_of_omap in H as (f & Hf & Hd).
  destruct (raw f) as [rawBytes|] eqn:E; [|discriminate].
  injection Hd as <- _. exists f, rawBytes. auto.
Qed.

Section BuildTheorems.
Variable ndebug : bool.
Variable kChunkSize : N.
Variable convertToUTF8 : list byte -> list byte.
Hypothesis kChunkSize_pos : 0 < kChunkSize.
Hypothesis kChunkSize_small : kChunkSize < 2 ^ 31.

(** [appendFilePart] for a file that has no record yet queues a new record
    and runs the growth flush. *)
Lemma appendFilePart_fresh done b path data mtime fsize :
  Inv kChunkSize done b -> path ∉ map fst done ->
  pendingSize b + lengthN data < SIZE_MOD ->
  appendFilePart ndebug kChunkSize path 0 data mtime fsize b
  = flushIfNeeded ndebug kChunkSize
      {| pendingFiles := pendingFiles b ++ [newRecord path data mtime fsize];
         pendingSize := pendingSize b + lengthN data;
         outData := outData b |}.
Proof.
  intros HI Hfresh Hbound. unfold appendFilePart.
  unfold sz_add. rewrite sz_small by exact Hbound.
  destruct (last (pendingFiles b)) as [file|] eqn:Hlast.
  - assert (Hne : name file <> path).
    { intros Heq. apply Hfresh. rewrite <- Heq. apply (inv_names _ _ _ HI).
      unfold allRecords. apply elem_of_app. right.
      apply last_Some in Hlast as (l' & ->). apply elem_of_app. right.
      apply list_elem_of_singleton. reflexivity. }
    apply String.eqb_neq in Hne. rewrite Hne. reflexivity.
  - apply last_None in Hlast. rewrite Hlast. reflexivity.
Qed.

(** What every [appendFilePart] of a build keeps, the whole build keeps. *)
Lemma appendFiles_preserves (P : Builder -> Prop) (fs0 : list SourceFile) :
  (forall done b f rawBytes b',
      f ∈ fs0 -> raw f = Some rawBytes ->
      Inv kChunkSize done b -> pendingSize b < 2 * kChunkSize ->
      path f ∉ map fst done -> P b ->
      appendFilePart ndebug kChunkSize (path f) 0 (fileContents convertToUTF8 rawBytes)
                     (lastWriteTime f) (fi_fileSize f) b = Done b' ->
      P b') ->
  forall fs done b b',
    (forall f, f ∈ fs -> f ∈ fs0) ->
    Inv kChunkSize done b -> pendingSize b < 2 * kChunkSize ->
    NoDup (map path fs) ->
    (forall f, f ∈ fs -> path f ∉ map fst done) ->
    Forall (smallFile convertToUTF8) fs ->
    P b ->
    appendFiles ndebug kChunkSize convertToUTF8 fs b = Done b' ->
    P b'.
Proof.
  intros Hstep.
  induction fs as [|f fs IH]; intros done b b' Hsub HI Hp Hnd Hfresh Hsmall HP Hrun.
  - cbn in Hrun. injection Hrun as <-. exact HP.
  - cbn [appendFiles] in Hrun. unfold appendFile in Hrun.
    apply Forall_cons in Hsmall as [Hf Hsmall].
    cbn [map] in Hnd. apply NoDup_cons in Hnd as [Hnotin Hnd].
    unfold smallFile in Hf.
    destruct (raw f) as [rawBytes|] eqn:Hraw.
    + destruct (appendFilePart_spec ndebug kChunkSize kChunkSize_pos kChunkSize_small
                  done b (path f) (fileContents convertToUTF8 rawBytes)
                  (lastWriteTime f) (fi_fileSize f) HI Hp)
        as (b1 & Hrun1 & HI1 & Hp1); [apply Hfresh; apply list_elem_of_here | exact Hf |].
      rewrite Hrun1, !bind_Done in Hrun. cbn [snd] in Hrun.
      eapply (IH _ b1 b'); try eassumption.
      * intros g Hg. apply Hsub. apply list_elem_of_further. exact Hg.
      * intros g Hg. rewrite map_app. rewrite elem_of_app. intros [Hin | Hin].
        -- revert Hin. apply Hfresh. apply list_elem_of_further. exact Hg.
        -- cbn in Hin. apply list_elem_of_singleton in Hin.
           apply Hnotin. rewrite <- Hin. apply list_elem_of_fmap. exists g. auto.
      * eapply (Hstep done b f rawBytes b1); try eassumption.
        -- apply Hsub. apply list_elem_of_here.
        -- apply Hfresh. apply list_elem_of_here.
    + rewrite bind_Done in Hrun. cbn [snd] in Hrun.
      eapply (IH done b b'); try eassumption.
      * intros g Hg. apply Hsub. apply list_elem_of_further. exact Hg.
      * intros g Hg. apply Hfresh. apply list_elem_of_further. exact Hg.
Qed.

Lemma appendFilePart_good done b path data mtime fsize b' :
  Inv kChunkSize done b -> pendingSize b < 2 * kChunkSize ->
  path ∉ map fst done -> lengthN data < UINT_MOD ->
  Good kChunkSize b ->
  appendFilePart ndebug kChunkSize path 0 data mtime fsize b = Done b' ->
  Good kChunkSize b'.
Proof.
  intros HI Hp Hfresh Hdata (Hend & Hal & Hbd) Hrun.
  assert (Hbound : pendingSize b + lengthN data < SIZE_MOD).
  { assert (2 * 2 ^ 31 + UINT_MOD < SIZE_MOD) by reflexivity. lia. }
  rewrite (appendFilePart_fresh done) in Hrun by assumption.
  pose proof (Inv_append kChunkSize kChunkSize_pos kChunkSize_small _ _ _
                path data mtime fsize HI Hfresh Hbound) as HI1.
  revert Hrun. unfold flushIfNeeded.
  apply (flushIfNeeded_loop_preserves ndebug kChunkSize kChunkSize_small
           (Good kChunkSize)).
  - intros x x' Hwf HG Hx.
    exact (flushChunk_good ndebug kChunkSize x x' kChunkSize_small Hwf HG Hx).
  - exact (inv_wf _ _ _ HI1).
  - unfold Good. simpl_rec. split; [|split; assumption].
    apply Forall_app. split; [exact Hend|]. constructor; [|constructor].
    unfold atEnd, newRecord, Blob_of. simpl_rec. lia.
Qed.

Lemma buildProject_good (fs : list SourceFile) :
  NoDup (map path fs) -> Forall (smallFile convertToUTF8) fs ->
  exists b',
    buildProject ndebug kChunkSize convertToUTF8 fs = Done (outData b') /\
    Inv kChunkSize (sources convertToUTF8 fs) b' /\ pendingSize b' = 0 /\
    Good kChunkSize b'.
Proof.
  intros Hnd Hsmall.
  destruct (appendFiles_spec ndebug kChunkSize convertToUTF8
              kChunkSize_pos kChunkSize_small fs [] start (Inv_start _))
    as (b1 & Hrun & HI & Hp); try assumption.
  { cbn. lia. }
  { intros f _ Hin. inversion Hin. }
  assert (HG1 : Good kChunkSize b1).
  { eapply (appendFiles_preserves (Good kChunkSize) fs) with (done := []) (b := start);
      try eassumption.
    - intros done b f rawBytes b' Hf Hraw HId Hpd Hfr HG Hr.
      eapply appendFilePart_good; try eassumption.
      rewrite Forall_forall in Hsmall. specialize (Hsmall f Hf).
      unfold smallFile in Hsmall. rewrite Hraw in Hsmall. exact Hsmall.
    - auto.
    - apply Inv_start.
    - cbn. lia.
    - intros f _ Hin. inversion Hin.
    - repeat split; constructor. }
  destruct (flush_spec ndebug kChunkSize kChunkSize_pos kChunkSize_small b1
              (inv_wf _ _ _ HI)) as (b' & Hrun' & Hrtc & H0).
  exists b'. unfold buildProject. rewrite Hrun, bind_Done, Hrun', bind_Done.
  split; [reflexivity|]. split; [|split; [exact H0|]].
  - cbn [app] in HI. eapply Inv_rtc; eassumption.
  - revert Hrun'. unfold flush.
    apply (flush_loop_preserves ndebug kChunkSize kChunkSize_small
             (Good kChunkSize)).
    + intros x x' Hwf HG Hx.
      exact (flushChunk_good ndebug kChunkSize x x' kChunkSize_small Hwf HG Hx).
    + exact (inv_wf _ _ _ HI).
    + exact HG1.
Qed.

End BuildTheorems.

Section StoreTheorems.
Variable ndebug : bool.
Variable kChunkSize : N.
Variable convertToUTF8 : list byte -> list byte.
Hypothesis kChunkSize_pos : 0 < kChunkSize.
Hypothesis kChunkSize_small : kChunkSize < 2 ^ 31.

Lemma records_of_output (b' : Builder) (n : string) :
  pendingSize b' = 0 -> WF b' ->
  concat (map bytesOf (named n (allRecords b')))
  = concat (map bytesOf (recordsOf n (outData b'))) /\
  sumCount (named n (allRecords b')) = sumCount (recordsOf n (outData b')).
Proof.
  intros H0 (_ & Hsum & _).
  assert (Hz : Forall (fun r => sizeOf r = 0) (named n (pendingFiles b'))).
  { apply Forall_forall. intros r Hr. unfold named in Hr.
    apply list_elem_of_filter in Hr as [_ Hr].
    assert (Hall : Forall (fun r => sizeOf r = 0) (pendingFiles b'))
      by (apply sumCount_0; lia).
    rewrite Forall_forall in Hall. auto. }
  unfold allRecords, recordsOf. rewrite named_app, map_app, concat_app, sumCount_app.
  rewrite (bytes_of_empty_records _ Hz), app_nil_r. split; [reflexivity|].
  assert (sumCount (named n (pendingFiles b')) = 0); [|lia].
  clear -Hz. induction Hz as [|r l Hr _ IH]; [reflexivity|].
  rewrite sumCount_cons. lia.
Qed.

(** X7.  The store of a build holds the contents of every file that could be
    read, byte for byte: the records of the file, in the order of the
    output, hold the bytes that [appendFile] read (after the normalisation
    of line ends and the conversion to UTF-8), and their sizes add up to the
    length of these bytes.  Every record of the output is of such a file. *)
Theorem buildProject_keeps_contents (fs : list SourceFile) :
  NoDup (map path fs) -> Forall (smallFile convertToUTF8) fs ->
  exists out,
    buildProject ndebug kChunkSize convertToUTF8 fs = Done out /\
    (forall f rawBytes, f ∈ fs -> raw f = Some rawBytes ->
       concat (map bytesOf (recordsOf (path f) out))
       = fileContents convertToUTF8 rawBytes /\
       sumCount (recordsOf (path f) out)
       = lengthN (fileContents convertToUTF8 rawBytes)) /\
    (forall r, r ∈ emitted out ->
       exists f rawBytes, f ∈ fs /\ raw f = Some rawBytes /\ name r = path f).
Proof.
  intros Hnd Hsmall.
  destruct (buildProject_spec ndebug kChunkSize convertToUTF8
              kChunkSize_pos kChunkSize_small fs Hnd Hsmall) as (b' & Hrun & HI & Hp).
  exists (outData b'). split; [exact Hrun|]. split.
  - intros f rawBytes Hf Hraw.
    pose proof (inv_chain _ _ _ HI _ _ (sources_elem convertToUTF8 fs f rawBytes Hf Hraw))
      as Hc.
    apply CChain_bytes in Hc as (Hb & Hs & _).
    destruct (records_of_output b' (path f) Hp (inv_wf _ _ _ HI)) as [E1 E2].
    rewrite <- E1, <- E2, Hb, Hs. split; [reflexivity | lia].
  - intros r Hr. apply sources_names with (convertToUTF8 := convertToUTF8).
    apply (inv_names _ _ _ HI). unfold allRecords. apply elem_of_app. left. exact Hr.
Qed.

(** X8.  No record of a build is cut inside a line: a record of a file ends
    where the contents of the file end, or with a line feed. *)
Theorem buildProject_cuts_at_line_ends (fs : list SourceFile) :
  NoDup (map path fs) -> Forall (smallFile convertToUTF8) fs ->
  exists out,
    buildProject ndebug kChunkSize convertToUTF8 fs = Done out /\
    forall f rawBytes r,
      f ∈ fs -> raw f = Some rawBytes -> r ∈ recordsOf (path f) out ->
      let d := fileContents convertToUTF8 rawBytes in
      storage (contents r) = d /\
      (offset (contents r) + sizeOf r = lengthN d \/ last (bytesOf r) = Some LF).
Proof.
  intros Hnd Hsmall.
  destruct (buildProject_good ndebug kChunkSize convertToUTF8
              kChunkSize_pos kChunkSize_small fs Hnd Hsmall)
    as (b' & Hrun & HI & Hp & (_ & Hal & _)).
  exists (outData b'). split; [exact Hrun|].
  intros f rawBytes r Hf Hraw Hr d.
  pose proof (inv_chain _ _ _ HI _ _ (sources_elem convertToUTF8 fs f rawBytes Hf Hraw))
    as Hc.
  apply CChain_bytes in Hc as (_ & _ & Hst). rewrite Forall_forall in Hst.
  assert (Hin : r ∈ emitted (outData b')).
  { unfold recordsOf, named in Hr. apply list_elem_of_filter in Hr. tauto. }
  assert (Hs : storage (contents r) = d).
  { apply Hst. unfold allRecords. rewrite named_app. apply elem_of_app. left. exact Hr. }
  split; [exact Hs|].
  rewrite Forall_forall in Hal. destruct (Hal r Hin) as [He | Hl]; [left | right; exact Hl].
  unfold atEnd in He. rewrite Hs in He. exact He.
Qed.

(** X9.  Every chunk of a build is a chunk of the packer, holds a record at
    least, has the sizes of its records as its size, and has at most
    [kChunkSize] bytes of data unless it is one record. *)
Theorem buildProject_bounds_chunks (fs : list SourceFile) :
  NoDup (map path fs) -> Forall (smallFile convertToUTF8) fs ->
  exists out,
    buildProject ndebug kChunkSize convertToUTF8 fs = Done out /\
    forall rec, rec ∈ out ->
      exists c, rec = Built c /\ files c <> [] /\
                totalSize c = sumCount (files c) /\
                (totalSize c <= kChunkSize \/ length (files c) = 1%nat).
Proof.
  intros Hnd Hsmall.
  destruct (buildProject_good ndebug kChunkSize convertToUTF8
              kChunkSize_pos kChunkSize_small fs Hnd Hsmall)
    as (b' & Hrun & _ & _ & (_ & _ & Hbd)).
  exists (outData b'). split; [exact Hrun|].
  intros rec Hrec. rewrite Forall_forall in Hbd. specialize (Hbd rec Hrec).
  destruct rec as [c|h i cd]; [|contradiction]. exists c. split; [reflexivity | exact Hbd].
Qed.

(** X10.  Empty files leave no trace: the build of a project whose files are
    all empty (or cannot be read) writes no chunk. *)
Theorem buildProject_of_empty_files (fs : list SourceFile) :
  NoDup (map path fs) ->
  (forall f rawBytes, f ∈ fs -> raw f = Some rawBytes ->
                      fileContents convertToUTF8 rawBytes = []) ->
  buildProject ndebug kChunkSize convertToUTF8 fs = Done [].
Proof.
  intros Hnd Hempty.
  assert (Hsmall : Forall (smallFile convertToUTF8) fs).
  { apply Forall_forall. intros f Hf. unfold smallFile.
    destruct (raw f) as [rawBytes|] eqn:E; [|exact I].
    rewrite (Hempty f rawBytes Hf E). reflexivity. }
  destruct (appendFiles_spec ndebug kChunkSize convertToUTF8
              kChunkSize_pos kChunkSize_small fs [] start (Inv_start _))
    as (b1 & Hrun & HI & Hp); try assumption.
  { cbn. lia. }
  { intros f _ Hin. inversion Hin. }
  assert (H1 : outData b1 = [] /\ pendingSize b1 = 0).
  { eapply (appendFiles_preserves ndebug kChunkSize convertToUTF8
              kChunkSize_pos kChunkSize_small
              (fun x => outData x = [] /\ pendingSize x = 0) fs)
      with (done := []) (b := start); try eassumption.
    - intros done b f rawBytes b' Hf Hraw HId Hpd Hfr [Ho Hz] Hr.
      rewrite (Hempty f rawBytes Hf Hraw) in Hr.
      rewrite (appendFilePart_fresh ndebug kChunkSize done) in Hr
        by (try assumption; rewrite Hz; reflexivity).
      unfold flushIfNeeded in Hr.
      rewrite (flushIfNeeded_loop_below ndebug kChunkSize kChunkSize_pos kChunkSize_small)
        in Hr by (simpl_rec; rewrite Hz; change (lengthN (@nil byte)) with 0; lia).
      injection Hr as <-. simpl_rec. rewrite Hz. auto.
    - auto.
    - apply Inv_start.
    - cbn. lia.
    - intros f _ Hin. inversion Hin.
    - auto. }
  destruct H1 as [Ho Hz].
  unfold buildProject. rewrite Hrun, bind_Done. unfold flush.
  rewrite (flush_loop_0 ndebug kChunkSize) by exact Hz.
  rewrite bind_Done, Ho. reflexivity.
Qed.

End StoreTheorems.

(** ** More bytes for the last record: [appendFilePart] *)

Section Continuation.
Variable ndebug : bool.
Variable kChunkSize : N.

(** X11.  [appendFilePart] for the path of the record at the back of the
    pending queue.  Nothing is queued: the bytes are appended to that record,
    which keeps its start line (the start line of the call is only compared),
    and the growth flush runs.  A build with assertions aborts unless the
    start line of the call is beyond that of the record and time stamp and
    file size are those of the record. *)
Theorem appendFilePart_extends_last_record
    (b : Builder) (init : list File) (file : File)
    (path : string) (startLine' : N) (data : list byte) (lastWriteTime fileSize' : N) :
  pendingFiles b = init ++ [file] -> name file = path ->
  wfFile file -> atEnd file ->
  lengthN (storage (contents file)) + lengthN data < SIZE_MOD ->
  let ok := (startLine file <? startLine') &&
            ((timeStamp file =? lastWriteTime) && (fileSize file =? fileSize')) in
  (ndebug = false -> ok = false ->
   appendFilePart ndebug kChunkSize path startLine' data lastWriteTime fileSize' b
   = AssertFailed) /\
  (ndebug = true \/ ok = true ->
   exists file',
     appendFilePart ndebug kChunkSize path startLine' data lastWriteTime fileSize' b
     = flushIfNeeded ndebug kChunkSize
         {| pendingFiles := init ++ [file'];
            pendingSize := sz_add (pendingSize b) (lengthN data);
            outData := outData b |} /\
     bytesOf file' = bytesOf file ++ data /\
     name file' = name file /\ startLine file' = startLine file /\
     wfFile file' /\ atEnd file').
Proof.
  intros Hpend Hname [Hw1 Hw2] Hend Hlen. cbv zeta.
  unfold appendFilePart. rewrite Hpend, last_snoc, removelast_last, Hname, String.eqb_refl.
  unfold atEnd in Hend.
  assert (H3 : (sz_add (offset (contents file)) (count (contents file))
                =? lengthN (storage (contents file))) = true).
  { apply N.eqb_eq. unfold sz_add. rewrite sz_small by lia. exact Hend. }
  split.
  - intros Hn Hok. unfold assert. rewrite Hn. cbn [orb].
    destruct (startLine file <? startLine'); [|reflexivity].
    cbn [andb] in Hok. rewrite Hok. reflexivity.
  - intros Hok.
    assert (H12 : forall c1 c2 : bool,
               c1 && c2 = true \/ ndebug = true ->
               assert ndebug c1 = Done tt /\ assert ndebug c2 = Done tt).
    { intros c1 c2 [H | H]; unfold assert.
      - apply andb_true_iff in H as [-> ->]. rewrite !orb_true_r. auto.
      - rewrite H. auto. }
    destruct (H12 (startLine file <? startLine')
                  ((timeStamp file =? lastWriteTime) && (fileSize file =? fileSize'))
                  ltac:(tauto)) as [-> ->].
    rewrite (assert_true ndebug _ H3), !bind_Done.
    eexists. split; [reflexivity|].
    unfold bytesOf, Blob_bytes, Blob_ptr, wfFile, atEnd. simpl_rec.
    unfold sz_add. rewrite (sz_small (count _ + _)) by lia.
    rewrite lengthN_app.
    split; [|split; [reflexivity|split; [reflexivity|split; [lia | lia]]]].
    unfold takeN, dropN, lengthN in *.
    rewrite drop_app_le by lia.
    rewrite take_app_ge by (rewrite length_drop; lia).
    rewrite length_drop.
    rewrite (take_ge (drop _ _)) by (rewrite length_drop; lia).
    f_equal. apply take_ge. lia.
Qed.

End Continuation.

(** ** Chunks of a previous build, continued *)

Section AppendChunkRelease.
Variable ndebug : bool.

(** A chunk that has room for all that is pending takes all of it. *)
Lemma fillChunk_all (size : N) :
  forall (pending : list File) (chunk chunk' : Chunk) (pending' : list File),
    totalSize chunk + sumCount pending <= size -> size < SIZE_MOD ->
    fillChunk ndebug size chunk pending = Done (chunk', pending') ->
    sumCount pending' = 0.
Proof.
  induction pending as [|f rest IH]; intros chunk chunk' pending' Hsum Hsize Hrun.
  - cbn [fillChunk] in Hrun.
    destruct (totalSize chunk <? size); injection Hrun as <- <-; reflexivity.
  - cbn [fillChunk] in Hrun. rewrite sumCount_cons in Hsum.
    destruct (totalSize chunk <? size) eqn:Hts.
    2:{ injection Hrun as <- <-. apply N.ltb_ge in Hts. rewrite sumCount_cons. lia. }
    apply N.ltb_lt in Hts. rewrite sz_sub_le in Hrun by lia.
    unfold Blob_size in Hrun. fold (sizeOf f) in Hrun.
    replace (sizeOf f <=? size - totalSize chunk) with true in Hrun
      by (symmetry; apply N.leb_le; lia).
    apply IH in Hrun; [exact Hrun | | exact Hsize].
    cbn [appendChunkFile totalSize]. unfold sz_add, Blob_size. fold (sizeOf f).
    rewrite sz_small by lia. lia.
Qed.

Lemma flushChunk_all (b b' : Builder) :
  WF b -> pendingSize b < 2 ^ 31 ->
  flushChunk ndebug (pendingSize b) b = Done b' -> pendingSize b' = 0.
Proof.
  intros Hwf H31 Hrun. pose proof Hwf as (Hw & Hsum & Hlt).
  destruct (flushChunk_front ndebug (pendingSize b) b H31 Hwf)
    as (b1 & moved & Hrun1 & _ & _ & _ & Hs1 & _).
  rewrite Hrun in Hrun1. injection Hrun1 as <-. rewrite Hs1.
  unfold flushChunk in Hrun.
  destruct (fillChunk ndebug (pendingSize b) {| files := []; totalSize := 0 |}
              (pendingFiles b)) as [[chunk pending]| |] eqn:Hfill; try discriminate.
  rewrite bind_Done in Hrun.
  destruct (assert ndebug _); try discriminate. rewrite bind_Done in Hrun.
  injection Hrun as <-. simpl_rec.
  eapply fillChunk_all; [| |exact Hfill]; cbn [totalSize]; lia.
Qed.

End AppendChunkRelease.

Section AppendChunkTheorem.
Variable kChunkSize : N.
Hypothesis kChunkSize_pos : 0 < kChunkSize.
Hypothesis kChunkSize_small : kChunkSize < 2 ^ 30.

(** X12.  [appendChunk] in a build without assertions, when at least
    [kChunkSize * 3 / 2 / 2] bytes are pending after the growth flush: all
    the pending bytes are written, in order, as one chunk or as two, then
    the chunk of the caller, and [true] is returned with nothing pending. *)
Theorem appendChunk_writes_pending_first
    (header : DataChunkHeader) (compressedData index : list byte) (b b1 : Builder) :
  WF b ->
  flushIfNeeded true kChunkSize b = Done b1 ->
  kChunkSize * 3 / 2 / 2 <= pendingSize b1 -> 0 < pendingSize b1 ->
  exists b3 recs,
    appendChunk true kChunkSize header compressedData index b
    = Done (true, writeChunk header compressedData index b3) /\
    pendingSize b3 = 0 /\
    outData b3 = outData b1 ++ recs /\
    (length recs <= 2)%nat /\
    concat (map bytesOf (emitted recs)) = concat (map bytesOf (pendingFiles b1)).
Proof.
  intros Hwf Hrun Hmin Hpos.
  assert (Hsmall : kChunkSize < 2 ^ 31) by lia.
  destruct (flushIfNeeded_less true kChunkSize kChunkSize_pos Hsmall b Hwf)
    as (b1' & recs0 & Hrun' & Hlt & _).
  rewrite Hrun in Hrun'. injection Hrun' as <-.
  destruct (flushIfNeeded_spec true kChunkSize kChunkSize_pos Hsmall b Hwf)
    as (b1' & Hrun' & Hrtc & _).
  rewrite Hrun in Hrun'. injection Hrun' as <-.
  pose proof (WF_rtc _ _ _ Hwf Hrtc) as Hwf1.
  unfold appendChunk. rewrite Hrun, bind_Done.
  rewrite (sz_mul_kChunkSize_2 kChunkSize kChunkSize_pos Hsmall).
  rewrite (sz_mul_kChunkSize_3 kChunkSize kChunkSize_pos Hsmall).
  replace (3 * kChunkSize) with (kChunkSize * 3) by lia.
  replace (0 <? pendingSize b1) with true by (symmetry; apply N.ltb_lt; exact Hpos).
  replace (2 * kChunkSize <? pendingSize b1) with false
    by (symmetry; apply N.ltb_ge; lia).
  replace (pendingSize b1 <? kChunkSize * 3 / 2 / 2) with false
    by (symmetry; apply N.ltb_ge; exact Hmin).
  assert (Hstep : forall size x, size < 2 ^ 31 -> WF x ->
            exists x' recs,
              flushChunk true size x = Done x' /\ WF x' /\
              outData x' = outData x ++ recs /\ (length recs <= 1)%nat /\
              concat (map bytesOf (emitted recs ++ pendingFiles x'))
              = concat (map bytesOf (pendingFiles x))).
  { intros size x Hs Hx.
    destruct (flushChunk_front true size x Hs Hx)
      as (x' & moved & Hr & Ho & _ & _ & _ & Hb & _).
    exists x'. destruct moved as [|r moved].
    - exists []. split; [exact Hr|].
      split; [apply (flushChunk_run true size x x' Hs Hx Hr)|].
      split; [rewrite Ho, app_nil_r; reflexivity|]. split; [cbn; lia | exact Hb].
    - eexists [_]. split; [exact Hr|].
      split; [apply (flushChunk_run true size x x' Hs Hx Hr)|].
      split; [exact Ho|]. split; [cbn; lia|].
      rewrite <- Hb. unfold emitted. cbn [map recFiles files concat].
      rewrite app_nil_r. reflexivity. }
  assert (Hp2 : pendingSize b1 / 2 < 2 ^ 31).
  { apply N.Div0.div_lt_upper_bound. lia. }
  assert (H2 : exists b2 recs2,
            (if kChunkSize * 3 / 2 <? pendingSize b1
             then flushChunk true (pendingSize b1 / 2) b1 else Done b1) = Done b2 /\
            WF b2 /\ pendingSize b2 < 2 ^ 31 /\
            outData b2 = outData b1 ++ recs2 /\ (length recs2 <= 1)%nat /\
            concat (map bytesOf (emitted recs2 ++ pendingFiles b2))
            = concat (map bytesOf (pendingFiles b1))).
  { destruct (kChunkSize * 3 / 2 <? pendingSize b1).
    - destruct (Hstep _ b1 Hp2 Hwf1) as (b2 & recs2 & Hr & Hw2 & Ho & Hl & Hb).
      destruct (flushChunk_front true _ b1 Hp2 Hwf1)
        as (b2' & moved' & Hr' & _ & _ & Hps & _).
      rewrite Hr in Hr'. injection Hr' as <-.
      exists b2, recs2. split; [exact Hr|]. split; [exact Hw2|]. split; [lia|]. auto.
    - exists b1, []. split; [reflexivity|]. split; [exact Hwf1|]. split; [lia|].
      split; [rewrite app_nil_r; reflexivity|]. split; [cbn; lia | reflexivity]. }
  destruct H2 as (b2 & recs2 & Hr2 & Hwf2 & Hp31 & Ho2 & Hl2 & Hb2).
  destruct (Hstep _ b2 Hp31 Hwf2) as (b3 & recs3 & Hr3 & Hwf3 & Ho3 & Hl3 & Hb3).
  pose proof (flushChunk_all true b2 b3 Hwf2 Hp31 Hr3) as Hz.
  exists b3, (recs2 ++ recs3). split.
  { rewrite Hr2, bind_Done. unfold assert. cbn [orb]. rewrite bind_Done, Hr3.
    reflexivity. }
  split; [exact Hz|].
  split; [rewrite Ho3, Ho2, (assoc_L (++)); reflexivity|].
  split; [rewrite length_app; lia|].
  rewrite <- Hb2, emitted_app, !map_app, !concat_app, <- Hb3, map_app, concat_app.
  rewrite (bytes_of_empty_records (pendingFiles b3)).
  - rewrite app_nil_r. reflexivity.
  - apply sumCount_0. destruct Hwf3 as (_ & Hs3 & _). lia.
Qed.

End AppendChunkTheorem.

(** ** The file count of the statistics *)

Lemma Forall_tail_app {A} (P : A -> Prop) (l1 l2 : list A) :
  Forall P (tail (l1 ++ l2)) -> Forall P (tail l1) /\ Forall P (tail l2).
Proof.
  destruct l1 as [|x l1]; cbn [app tail].
  - intros H. split; [constructor|exact H].
  - intros H. apply Forall_app in H as [H1 H2]. split; [exact H1|].
    destruct l2; [constructor|]. apply Forall_cons in H2. tauto.
Qed.

(** What [flushChunk] moves is in the state of [Counted], and so is what it
    leaves. *)
Lemma Moved_counted (pending moved pending' : list File) :
  Moved pending moved pending' ->
  Forall startsFile (tail pending) -> NoDup (map name pending) ->
  (Forall startsFile (tail moved) /\ NoDup (map name moved)) /\
  Forall startsFile (tail pending') /\ NoDup (map name pending').
Proof.
  intros [-> | whole f p t rest -> -> -> _ Hsplit] Hheads Hnd.
  - rewrite map_app in Hnd. apply NoDup_app in Hnd as (Hnd1 & _ & Hnd2).
    apply Forall_tail_app in Hheads as [H1 H2]. auto.
  - destruct (IsSplit_name _ _ _ Hsplit) as [Hp Ht].
    assert (Hst : startLine p = startLine f)
      by (destruct Hsplit as (k & _ & -> & _); reflexivity).
    rewrite map_app in Hnd. cbn [map] in Hnd.
    pose proof Hnd as Hnd0.
    apply NoDup_app in Hnd as (Hnd1 & Hdis & Hnd2).
    apply NoDup_cons in Hnd2 as [Hnotin Hnd2].
    split; [split|split].
    + destruct whole as [|w ws]; [constructor|].
      cbn [app tail] in *. apply Forall_app in Hheads as [H1 H2].
      apply Forall_cons in H2 as [H2 _].
      apply Forall_app. split; [exact H1|]. constructor; [|constructor].
      unfold startsFile in *. congruence.
    + rewrite map_app. cbn [map]. rewrite Hp.
      apply NoDup_app. split; [exact Hnd1|]. split; [|apply NoDup_singleton].
      intros x Hx Hin. apply list_elem_of_singleton in Hin. subst x.
      apply (Hdis _ Hx). apply list_elem_of_here.
    + cbn [tail]. apply Forall_tail_app in Hheads as [_ H2]. exact H2.
    + cbn [map]. rewrite Ht. apply NoDup_cons. split; assumption.
Qed.

Section CountedBuild.
Variable ndebug : bool.
Variable kChunkSize : N.
Variable convertToUTF8 : list byte -> list byte.
Hypothesis kChunkSize_pos : 0 < kChunkSize.
Hypothesis kChunkSize_small : kChunkSize < 2 ^ 31.

Lemma flushChunk_counted (size : N) (b b' : Builder) :
  size < 2 ^ 31 -> WF b -> Counted b ->
  flushChunk ndebug size b = Done b' -> Counted b'.
Proof.
  intros H31 Hwf (Hheads & Hnd & Hout) Hrun.
  destruct (flushChunk_run ndebug size b b' H31 Hwf Hrun)
    as [(moved & pending' & -> & Hm & _) _].
  destruct (Moved_counted _ _ _ Hm Hheads Hnd) as (Hmoved & Hheads' & Hnd').
  unfold Counted. simpl_rec. split; [exact Hheads'|]. split; [exact Hnd'|].
  unfold flushChunk_chunk. simpl_rec. destruct moved as [|r moved]; [exact Hout|].
  apply Forall_app. split; [exact Hout|]. constructor; [exact Hmoved | constructor].
Qed.

Lemma appendFilePart_counted done b path data mtime fsize b' :
  Inv kChunkSize done b -> pendingSize b < 2 * kChunkSize ->
  path ∉ map fst done -> lengthN data < UINT_MOD ->
  Counted b ->
  appendFilePart ndebug kChunkSize path 0 data mtime fsize b = Done b' ->
  Counted b'.
Proof.
  intros HI Hp Hfresh Hdata (Hheads & Hnd & Hout) Hrun.
  assert (Hbound : pendingSize b + lengthN data < SIZE_MOD).
  { assert (2 * 2 ^ 31 + UINT_MOD < SIZE_MOD) by reflexivity. lia. }
  rewrite (appendFilePart_fresh ndebug kChunkSize done) in Hrun by assumption.
  pose proof (Inv_append kChunkSize kChunkSize_pos kChunkSize_small _ _ _
                path data mtime fsize HI Hfresh Hbound) as HI1.
  revert Hrun. unfold flushIfNeeded.
  apply (flushIfNeeded_loop_preserves ndebug kChunkSize kChunkSize_small Counted).
  - intros x x' Hwf HC Hx.
    exact (flushChunk_counted kChunkSize x x' kChunkSize_small Hwf HC Hx).
  - exact (inv_wf _ _ _ HI1).
  - unfold Counted. simpl_rec. split; [|split; [|exact Hout]].
    + destruct (pendingFiles b) as [|r rs]; [constructor|].
      cbn [app tail] in *. apply Forall_app. split; [exact Hheads|].
      constructor; [reflexivity | constructor].
    + exact (inv_nodup _ _ _ HI1).
Qed.

Lemma buildProject_counted (fs : list SourceFile) :
  NoDup (map path fs) -> Forall (smallFile convertToUTF8) fs ->
  exists b',
    buildProject ndebug kChunkSize convertToUTF8 fs = Done (outData b') /\
    Inv kChunkSize (sources convertToUTF8 fs) b' /\ pendingSize b' = 0 /\
    Counted b'.
Proof.
  intros Hnd Hsmall.
  destruct (appendFiles_spec ndebug kChunkSize convertToUTF8
              kChunkSize_pos kChunkSize_small fs [] start (Inv_start _))
    as (b1 & Hrun & HI & Hp); try assumption.
  { cbn. lia. }
  { intros f _ Hin. inversion Hin. }
  assert (HC1 : Counted b1).
  { eapply (appendFiles_preserves ndebug kChunkSize convertToUTF8
              kChunkSize_pos kChunkSize_small Counted fs)
      with (done := []) (b := start); try eassumption.
    - intros done b f rawBytes b' Hf Hraw HId Hpd Hfr HC Hr.
      eapply appendFilePart_counted; try eassumption.
      rewrite Forall_forall in Hsmall. specialize (Hsmall f Hf).
      unfold smallFile in Hsmall. rewrite Hraw in Hsmall. exact Hsmall.
    - auto.
    - apply Inv_start.
    - cbn. lia.
    - intros f _ Hin. inversion Hin.
    - repeat split; constructor. }
  destruct (flush_spec ndebug kChunkSize kChunkSize_pos kChunkSize_small b1
              (inv_wf _ _ _ HI)) as (b' & Hrun' & Hrtc & H0).
  exists b'. unfold buildProject. rewrite Hrun, bind_Done, Hrun', bind_Done.
  split; [reflexivity|]. split; [|split; [exact H0|]].
  - cbn [app] in HI. eapply Inv_rtc; eassumption.
  - revert Hrun'. unfold flush.
    apply (flush_loop_preserves ndebug kChunkSize kChunkSize_small Counted).
    + intros x x' Hwf HC Hx.
      exact (flushChunk_counted kChunkSize x x' kChunkSize_small Hwf HC Hx).
    + exact (inv_wf _ _ _ HI).
    + exact HC1.
Qed.

End CountedBuild.

(** What a chunk adds to the file count: its records that start a file. *)
Lemma countedFiles_starts (c : Chunk) :
  countedChunk (Built c) -> lengthN (files c) < UINT_MOD ->
  countedFiles c = lengthN (filter startsFile (files c)).
Proof.
  unfold countedFiles, firstFileIsSuffix, countedChunk.
  intros [Htail _] Hlen. destruct (files c) as [|f tl]; [reflexivity|].
  cbn [tail] in Htail. rewrite lengthN_cons in *.
  assert (Hf : filter startsFile tl = tl).
  { clear Hlen. induction Htail as [|x l Hx _ IH]; [reflexivity|].
    rewrite filter_cons_True by exact Hx. rewrite IH. reflexivity. }
  rewrite (u32_small (1 + lengthN tl)) by exact Hlen.
  destruct (startLine f =? 0) eqn:E; cbn [negb].
  - apply N.eqb_eq in E. rewrite filter_cons_True by exact E.
    rewrite Hf, lengthN_cons. unfold u32.
    replace (1 + lengthN tl + UINT_MOD - 0) with (1 + lengthN tl + 1 * UINT_MOD) by lia.
    rewrite N.Div0.mod_add. apply N.mod_small. exact Hlen.
  - apply N.eqb_neq in E. rewrite filter_cons_False by exact E.
    rewrite Hf. unfold u32.
    replace (1 + lengthN tl + UINT_MOD - 1) with (lengthN tl + 1 * UINT_MOD) by lia.
    rewrite N.Div0.mod_add. apply N.mod_small. lia.
Qed.

Lemma fileCount_fold (out : list ChunkRecord) :
  Forall countedChunk out ->
  Forall (fun rec => lengthN (recFiles rec) < UINT_MOD) out ->
  forall n0,
    n0 + lengthN (filter startsFile (emitted out)) < SIZE_MOD ->
    fold_left (fun n rec => match rec with
                            | Built c => sz_add n (countedFiles c)
                            | Raw _ _ _ => n
                            end) out n0
    = n0 + lengthN (filter startsFile (emitted out)).
Proof.
  induction out as [|rec out IH]; intros Hc Hl n0 Hb.
  - cbn [fold_left]. unfold emitted. cbn [map concat]. rewrite filter_nil.
    change (lengthN (@nil File)) with 0. lia.
  - apply Forall_cons in Hc as [Hc1 Hc]. apply Forall_cons in Hl as [Hl1 Hl].
    unfold emitted in *. cbn [map concat fold_left] in *.
    rewrite filter_app, lengthN_app in *.
    destruct rec as [c|h i d]; cbn [recFiles] in *.
    + rewrite (countedFiles_starts c Hc1 Hl1).
      unfold sz_add. rewrite sz_small by lia.
      rewrite IH by (assumption || lia). lia.
    + rewrite IH by (assumption || (cbn in Hb; lia)). reflexivity.
Qed.

Lemma fileCountOf_starts (out : list ChunkRecord) :
  Forall countedChunk out ->
  Forall (fun rec => lengthN (recFiles rec) < UINT_MOD) out ->
  lengthN (filter startsFile (emitted out)) < SIZE_MOD ->
  fileCountOf out = lengthN (filter startsFile (emitted out)).
Proof.
  intros Hc Hl Hb. unfold fileCountOf. rewrite fileCount_fold by assumption. lia.
Qed.

(** The records that start a file, file by file. *)
Lemma length_filter_split {A} (P Q : A -> Prop)
    `{forall x, Decision (P x)} `{forall x, Decision (Q x)} (l : list A) :
  length (filter P l)
  = (length (filter P (filter Q l)) + length (filter P (filter (fun x => ~ Q x) l)))%nat.
Proof.
  induction l as [|x l IH]; [reflexivity|].
  destruct (decide (Q x)) as [HQ|HQ].
  - rewrite (filter_cons_True Q) by exact HQ.
    rewrite (filter_cons_False (fun x => ~ Q x)) by tauto.
    destruct (decide (P x)) as [HP|HP].
    + rewrite !(filter_cons_True P) by exact HP. cbn [length]. lia.
    + rewrite !(filter_cons_False P) by exact HP. exact IH.
  - rewrite (filter_cons_False Q) by exact HQ.
    rewrite (filter_cons_True (fun x => ~ Q x)) by exact HQ.
    destruct (decide (P x)) as [HP|HP].
    + rewrite !(filter_cons_True P) by exact HP. cbn [length]. lia.
    + rewrite !(filter_cons_False P) by exact HP. exact IH.
Qed.

Lemma filter_iff_in {A} (P Q : A -> Prop)
    `{forall x, Decision (P x)} `{forall x, Decision (Q x)} (l : list A) :
  (forall x, x ∈ l -> P x <-> Q x) -> filter P l = filter Q l.
Proof.
  induction l as [|x l IH]; intros Hiff; [reflexivity|].
  assert (Hl : filter P l = filter Q l).
  { apply IH. intros y Hy. apply Hiff. apply list_elem_of_further. exact Hy. }
  pose proof (Hiff x (list_elem_of_here _ _)) as Hx.
  destruct (decide (P x)) as [HP|HP].
  - rewrite (filter_cons_True P), (filter_cons_True Q), Hl by tauto. reflexivity.
  - rewrite (filter_cons_False P), (filter_cons_False Q), Hl by tauto. reflexivity.
Qed.

Lemma named_others (n m : string) (l : list File) :
  n <> m -> named n (filter (fun r => name r <> m) l) = named n l.
Proof.
  intros Hne. unfold named. induction l as [|r l IH]; [reflexivity|].
  destruct (decide (name r = m)) as [E|E].
  - rewrite (filter_cons_False (fun r => name r <> m)) by tauto.
    rewrite (filter_cons_False (fun f => name f = n)) by congruence. exact IH.
  - rewrite (filter_cons_True (fun r => name r <> m)) by exact E.
    destruct (decide (name r = n)) as [E'|E'].
    + rewrite !(filter_cons_True (fun f => name f = n)) by exact E'. rewrite IH.
      reflexivity.
    + rewrite !(filter_cons_False (fun f => name f = n)) by exact E'. exact IH.
Qed.

Lemma starts_by_file (fs : list SourceFile) :
  NoDup (map path fs) ->
  forall R : list File,
    (forall r, r ∈ R -> name r ∈ map path fs) ->
    (forall f, f ∈ fs ->
       length (filter startsFile (named (path f) R))
       = if decide (named (path f) R <> []) then 1%nat else 0%nat) ->
    length (filter startsFile R)
    = length (filter (fun f => named (path f) R <> []) fs).
Proof.
  induction fs as [|f fs IH]; intros Hnd R Hnames Hper.
  - destruct R as [|r R]; [reflexivity|].
    specialize (Hnames r (list_elem_of_here _ _)). inversion Hnames.
  - cbn [map] in Hnd. apply NoDup_cons in Hnd as [Hnotin Hnd].
    rewrite (length_filter_split startsFile (fun r => name r = path f) R).
    fold (named (path f) R).
    rewrite (Hper f (list_elem_of_here _ _)).
    set (R2 := filter (fun r => name r <> path f) R).
    assert (Hother : forall g, g ∈ fs -> named (path g) R2 = named (path g) R).
    { intros g Hg. apply named_others. intros Heq. apply Hnotin. rewrite <- Heq.
      apply list_elem_of_fmap. exists g. auto. }
    rewrite (IH Hnd R2).
    + assert (Hsame : filter (fun g => named (path g) R2 <> []) fs
                      = filter (fun g => named (path g) R <> []) fs).
      { apply filter_iff_in. intros g Hg. rewrite (Hother g Hg). reflexivity. }
      rewrite Hsame.
      destruct (decide (named (path f) R <> [])) as [Hne|He].
      * rewrite filter_cons_True by exact Hne. reflexivity.
      * rewrite filter_cons_False by exact He. reflexivity.
    + intros r Hr. unfold R2 in Hr. apply list_elem_of_filter in Hr as [Hne Hr].
      specialize (Hnames r Hr). cbn [map] in Hnames.
      apply elem_of_cons in Hnames as [Heq | Hin]; [contradiction | exact Hin].
    + intros g Hg. rewrite (Hother g Hg). apply Hper.
      apply list_elem_of_further. exact Hg.
Qed.

Lemma filter_none {A} (P : A -> Prop) `{forall x, Decision (P x)} (l : list A) :
  Forall (fun x => ~ P x) l -> filter P l = [].
Proof.
  induction 1 as [|x l Hx _ IH]; [reflexivity|].
  rewrite filter_cons_False by exact Hx. exact IH.
Qed.

(** Of the records of a file, the first one starts the file and no other
    does. *)
Lemma chain_starts (rs1 rs2 : list File) :
  (forall i r, (rs1 ++ rs2) !! i = Some r ->
               startLine r = lineSum (take i (rs1 ++ rs2))) ->
  length (filter startsFile rs1) = if decide (rs1 <> []) then 1%nat else 0%nat.
Proof.
  intros Hst. destruct rs1 as [|r0 tl].
  - rewrite decide_False by tauto. reflexivity.
  - rewrite decide_True by discriminate.
    rewrite filter_cons_True by (apply (Hst 0%nat r0); reflexivity).
    rewrite filter_none; [reflexivity|].
    apply Forall_forall. intros x Hx.
    apply list_elem_of_lookup_1 in Hx as [j Hj].
    assert (Hl : ((r0 :: tl) ++ rs2) !! S j = Some x).
    { cbn [app lookup]. apply lookup_app_l_Some. exact Hj. }
    apply Hst in Hl. cbn [app take lineSum] in Hl.
    pose proof (lineStep_pos r0). unfold startsFile. lia.
Qed.

Lemma path_inj (fs : list SourceFile) (f g : SourceFile) :
  NoDup (map path fs) -> f ∈ fs -> g ∈ fs -> path f = path g -> f = g.
Proof.
  induction fs as [|h fs IH]; intros Hnd Hf Hg Heq; [inversion Hf|].
  cbn [map] in Hnd. apply NoDup_cons in Hnd as [Hnotin Hnd].
  apply elem_of_cons in Hf as [-> | Hf]; apply elem_of_cons in Hg as [-> | Hg].
  - reflexivity.
  - exfalso. apply Hnotin. rewrite Heq. apply list_elem_of_fmap. exists g. auto.
  - exfalso. apply Hnotin. rewrite <- Heq. apply list_elem_of_fmap. exists f. auto.
  - apply IH; assumption.
Qed.

Lemma emitted_elem (r : File) (c : Chunk) (out : list ChunkRecord) :
  Built c ∈ out -> r ∈ files c -> r ∈ emitted out.
Proof.
  intros Hc Hr. induction out as [|cr out IH]; [inversion Hc|].
  change (emitted (cr :: out)) with (recFiles cr ++ emitted out).
  apply elem_of_app. apply elem_of_cons in Hc as [<- | Hc]; [left; exact Hr|].
  right. apply IH. exact Hc.
Qed.

Section FileCount.
Variable ndebug : bool.
Variable kChunkSize : N.
Variable convertToUTF8 : list byte -> list byte.
Hypothesis kChunkSize_pos : 0 < kChunkSize.
Hypothesis kChunkSize_small : kChunkSize < 2 ^ 31.

(** X21.  The file count of the statistics of a build is the number of
    files of the project that have a record in the store: a file counts
    once, in however many chunks its records are.  These files could be
    read, and every file that could be read and is not empty is one of
    them.  (The project has less than 2^32 files.) *)
Theorem fileCount_counts_stored_files (fs : list SourceFile) :
  NoDup (map path fs) -> Forall (smallFile convertToUTF8) fs ->
  lengthN fs < UINT_MOD ->
  exists out,
    buildProject ndebug kChunkSize convertToUTF8 fs = Done out /\
    fileCountOf out = lengthN (storedFiles fs out) /\
    (forall f, f ∈ storedFiles fs out -> exists rawBytes, raw f = Some rawBytes) /\
    (forall f rawBytes, f ∈ fs -> raw f = Some rawBytes ->
       fileContents convertToUTF8 rawBytes <> [] -> f ∈ storedFiles fs out).
Proof.
  intros Hnd Hsmall Hfs.
  destruct (buildProject_counted ndebug kChunkSize convertToUTF8
              kChunkSize_pos kChunkSize_small fs Hnd Hsmall)
    as (b' & Hrun & HI & Hp & (_ & _ & Hcounted)).
  exists (outData b'). split; [exact Hrun|].
  set (R := emitted (outData b')).
  assert (Hsrc : forall r, r ∈ R ->
            exists f rawBytes, f ∈ fs /\ raw f = Some rawBytes /\ name r = path f).
  { intros r Hr. apply sources_names with (convertToUTF8 := convertToUTF8).
    apply (inv_names _ _ _ HI). unfold allRecords. apply elem_of_app. left. exact Hr. }
  assert (Hnames : forall r, r ∈ R -> name r ∈ map path fs).
  { intros r Hr. destruct (Hsrc r Hr) as (f & _ & Hf & _ & ->).
    apply list_elem_of_fmap. exists f. auto. }
  assert (Hunread : forall f, f ∈ fs -> raw f = None -> named (path f) R = []).
  { intros f Hf Hraw. apply named_nil_notin. intros Hin.
    apply list_elem_of_fmap in Hin as (r & Hname & Hr).
    destruct (Hsrc r Hr) as (g & rawBytes & Hg & Hrawg & Hpg).
    assert (f = g) by (apply (path_inj fs); congruence). congruence. }
  assert (Hper : forall f, f ∈ fs ->
            length (filter startsFile (named (path f) R))
            = if decide (named (path f) R <> []) then 1%nat else 0%nat).
  { intros f Hf. destruct (raw f) as [rawBytes|] eqn:Hraw.
    - pose proof (inv_chain _ _ _ HI _ _
                    (sources_elem convertToUTF8 fs f rawBytes Hf Hraw)) as Hc.
      unfold allRecords in Hc. rewrite named_app in Hc. fold R in Hc.
      apply chain_starts with (rs2 := named (path f) (pendingFiles b')).
      intros i r Hi.
      assert (Hd : lengthN (fileContents convertToUTF8 rawBytes) < UINT_MOD).
      { rewrite Forall_forall in Hsmall. specialize (Hsmall f Hf).
        unfold smallFile in Hsmall. rewrite Hraw in Hsmall. exact Hsmall. }
      destruct (CChain_lookup _ _ Hd _ _ _ Hc ltac:(lia) i r Hi) as [Hst _].
      rewrite Hst. lia.
    - rewrite (Hunread f Hf Hraw). rewrite decide_False by tauto. reflexivity. }
  pose proof (starts_by_file fs Hnd R Hnames Hper) as Hcount.
  assert (Hstored : lengthN (filter startsFile R) = lengthN (storedFiles fs (outData b'))).
  { unfold lengthN. rewrite Hcount. reflexivity. }
  assert (Hle : lengthN (storedFiles fs (outData b')) <= lengthN fs).
  { unfold lengthN, storedFiles.
    pose proof (length_filter (fun f => recordsOf (path f) (outData b') <> []) fs).
    lia. }
  split; [|split].
  - rewrite <- Hstored. apply fileCountOf_starts.
    + exact Hcounted.
    + apply Forall_forall. intros rec Hrec. destruct rec as [c|h i d]; [|reflexivity].
      cbn [recFiles].
      rewrite Forall_forall in Hcounted. destruct (Hcounted _ Hrec) as [_ Hndc].
      assert (Hsub : map name (files c) ⊆+ map path fs).
      { apply NoDup_submseteq; [exact Hndc|]. intros n Hn.
        apply list_elem_of_fmap in Hn as (r & -> & Hr). apply Hnames.
        apply (emitted_elem r c); assumption. }
      apply submseteq_length in Hsub. rewrite !length_map in Hsub.
      unfold lengthN in *. lia.
    + fold R. rewrite Hstored. assert (UINT_MOD < SIZE_MOD) by reflexivity. lia.
  - intros f Hf. unfold storedFiles in Hf. apply list_elem_of_filter in Hf as [Hne Hf].
    destruct (raw f) as [rawBytes|] eqn:Hraw; [eauto|].
    exfalso. apply Hne. exact (Hunread f Hf Hraw).
  - intros f rawBytes Hf Hraw Hd. unfold storedFiles. apply list_elem_of_filter.
    split; [|exact Hf]. intros Hnone.
    pose proof (inv_chain _ _ _ HI _ _
                  (sources_elem convertToUTF8 fs f rawBytes Hf Hraw)) as Hc.
    apply CChain_bytes in Hc as (Hb & _ & _).
    destruct (records_of_output kChunkSize kChunkSize_pos kChunkSize_small
                b' (path f) Hp (inv_wf _ _ _ HI)) as [E1 _].
    rewrite E1, Hnone in Hb. cbn in Hb. apply Hd. symmetry. exact Hb.
Qed.

End FileCount.

(** ** The lines of a match *)

Lemma dropN_takeN_slice (buf : list byte) (a b : N) :
  a <= b -> dropN a (takeN b buf) = slice buf a b.
Proof.
  intros H. unfold slice, takeN, dropN. rewrite take_drop_commute.
  do 2 f_equal. lia.
Qed.

Lemma lookup_slice_0 (buf : list byte) (a e : N) :
  a < e -> slice buf a e !! 0%nat = buf !! N.to_nat a.
Proof.
  intros H. unfold slice, takeN, dropN.
  rewrite lookup_take_lt by lia. rewrite lookup_drop. f_equal. lia.
Qed.

Lemma dropN_slice (buf : list byte) (a b k : N) :
  k <= b - a -> dropN k (slice buf a b) = slice buf (a + k) b.
Proof.
  intros H. unfold slice, dropN, takeN.
  replace (N.to_nat (b - a)) with (N.to_nat k + N.to_nat (b - (a + k)))%nat by lia.
  rewrite <- take_drop_commute, drop_drop. do 2 f_equal. lia.
Qed.

Lemma findLineStart_props (buf : list byte) (begin pos : N) :
  begin <= pos -> pos <= lengthN buf ->
  let s := findLineStart buf begin pos in
  begin <= s <= pos /\
  count_LF (slice buf s pos) = 0 /\
  ((s = begin /\ count_LF (slice buf begin pos) = 0) \/
   (begin < s /\ buf !! N.to_nat (s - 1) = Some LF)).
Proof.
  intros Hb Hp. cbv zeta. unfold findLineStart.
  pose proof (findLineStart_loop_spec (slice buf begin pos) begin) as Hspec.
  rewrite lengthN_slice in Hspec by lia.
  replace (begin + (pos - begin)) with pos in Hspec by lia.
  rewrite Hspec. clear Hspec.
  set (seg := slice buf begin pos).
  assert (Hlen : lengthN seg = pos - begin) by (apply lengthN_slice; lia).
  pose proof (lastLF_le seg) as Hle. rewrite Hlen in Hle.
  pose proof (count_LF_drop_lastLF seg) as Hdrop.
  assert (Hseg : dropN (lastLF seg) seg = slice buf (begin + lastLF seg) pos).
  { apply dropN_slice. lia. }
  destruct (0 <? lastLF seg) eqn:E.
  - apply N.ltb_lt in E. split; [lia|]. split; [rewrite <- Hseg; exact Hdrop|].
    right. split; [lia|].
    pose proof (lastLF_before seg E) as Hlf.
    replace (N.to_nat (lastLF seg - 1)) with (N.to_nat (lastLF seg - 1)) in Hlf by lia.
    apply lookup_slice in Hlf as [Hlf _].
    replace (begin + (lastLF seg - 1)) with (begin + lastLF seg - 1) in Hlf by lia.
    exact Hlf.
  - apply N.ltb_ge in E. assert (E0 : lastLF seg = 0) by lia.
    rewrite E0 in Hdrop. change (dropN 0 seg) with seg in Hdrop.
    split; [lia|]. split; [exact Hdrop|]. left. split; [reflexivity | exact Hdrop].
Qed.

Lemma findLineEnd_props (buf : list byte) (pos end_ : N) :
  pos <= end_ -> end_ <= lengthN buf ->
  let s := findLineEnd buf pos end_ in
  pos <= s <= end_ /\
  count_LF (slice buf pos s) = 0 /\
  ((s = end_ /\ count_LF (slice buf pos end_) = 0) \/
   (s < end_ /\ buf !! N.to_nat s = Some LF)).
Proof.
  intros Hp He. cbv zeta. unfold findLineEnd.
  pose proof (findLineEnd_loop_spec (slice buf pos end_) pos end_) as Hspec.
  rewrite lengthN_slice in Hspec by lia.
  specialize (Hspec ltac:(lia)). cbv zeta in Hspec.
  set (s := findLineEnd_loop (slice buf pos end_) pos end_) in *.
  destruct Hspec as (Hle & Hnone & Hstop).
  rewrite takeN_of_slice in Hnone by lia.
  replace (pos + (s - pos)) with s in Hnone by lia.
  split; [exact Hle|]. split; [exact Hnone|].
  destruct (N.eq_dec s end_) as [Heq | Hne].
  - destruct Hstop as [_ | (c & Hc & HLF)].
    + left. split; [exact Heq|]. rewrite <- Heq. exact Hnone.
    + apply lookup_slice in Hc as [_ Hc]. lia.
  - destruct Hstop as [Hs | (c & Hc & HLF)]; [congruence|].
    right. apply lookup_slice in Hc as [Hc Hlt].
    replace (pos + (s - pos)) with s in Hc by lia.
    apply is_LF_true in HLF. subst c. split; [lia | exact Hc].
Qed.

(** X13.  [findLineStart(begin, pos)] returns the start of the line of
    [pos]: the offset just after the last line feed between [begin] and
    [pos], and [begin] when there is none. *)
Theorem findLineStart_after_line_feed (buf : list byte) (begin pos : N) :
  begin <= pos -> pos <= lengthN buf ->
  let s := findLineStart buf begin pos in
  begin <= s <= pos /\
  count_LF (slice buf s pos) = 0 /\
  ((s = begin /\ count_LF (slice buf begin pos) = 0) \/
   (begin < s /\ buf !! N.to_nat (s - 1) = Some LF)).
Proof. apply findLineStart_props. Qed.

(** X14.  [findLineEnd(pos, end)] returns the end of the line of [pos]: the
    offset of the first line feed between [pos] and [end], and [end] when
    there is none. *)
Theorem findLineEnd_at_line_feed (buf : list byte) (pos end_ : N) :
  pos <= end_ -> end_ <= lengthN buf ->
  let s := findLineEnd buf pos end_ in
  pos <= s <= end_ /\
  count_LF (slice buf pos s) = 0 /\
  ((s = end_ /\ count_LF (slice buf pos end_) = 0) \/
   (s < end_ /\ buf !! N.to_nat s = Some LF)).
Proof. apply findLineEnd_props. Qed.

Lemma LF_map_lookup (a b : list byte) (i : nat) :
  map is_LF a = map is_LF b -> a !! i = Some LF -> b !! i = Some LF.
Proof.
  intros Hmap Ha.
  assert (H : map is_LF b !! i = Some true).
  { rewrite <- Hmap, list_lookup_fmap, Ha. reflexivity. }
  rewrite list_lookup_fmap in H. destruct (b !! i) as [c|]; [|discriminate].
  cbn in H. injection H as H. apply is_LF_true in H. subst c. reflexivity.
Qed.

Lemma LF_map_slice (a b : list byte) (x y : N) :
  map is_LF a = map is_LF b -> count_LF (slice a x y) = count_LF (slice b x y).
Proof.
  intros Hmap. apply LF_map_count. unfold slice, takeN, dropN.
  change (map is_LF) with (fmap (M:=list) is_LF).
  rewrite !fmap_take, !fmap_drop. change (fmap (M:=list) is_LF) with (map is_LF).
  rewrite Hmap. reflexivity.
Qed.

Lemma reportedText_LF_map (a b : list byte) (e : N * Report) :
  map is_LF a = map is_LF b -> reportedText a e -> reportedText b e.
Proof.
  intros Hmap (H1 & H2 & H3 & H4 & H5 & H6).
  assert (Hlen : lengthN a = lengthN b).
  { unfold lengthN. f_equal. rewrite <- (length_map is_LF a), Hmap. apply length_map. }
  unfold reportedText. cbv zeta. rewrite <- Hlen, <- (LF_map_slice a b _ _ Hmap).
  repeat split; try assumption.
  - destruct H5 as [H5 | H5]; [left; exact H5 | right; eapply LF_map_lookup; eassumption].
  - destruct H6 as [H6 | H6]; [left; exact H6 | right; eapply LF_map_lookup; eassumption].
Qed.

Lemma ascending_weaken (events : list (N * Report)) (a b : N) :
  a <= b -> ascending b events -> ascending a events.
Proof. destruct events as [|e rest]; [auto|]. cbn. intros H [H1 H2]. split; [lia | exact H2]. Qed.

Lemma ascending_lookup (events : list (N * Report)) : forall from,
  ascending from events ->
  (forall i e, events !! i = Some e -> from <= text (snd e)) /\
  (forall i j ei ej, events !! i = Some ei -> events !! j = Some ej -> (i < j)%nat ->
                     text (snd ei) + textLength (snd ei) < text (snd ej)).
Proof.
  induction events as [|e rest IH]; intros from Hasc.
  - split; intros; rewrite lookup_nil in *; discriminate.
  - destruct Hasc as [H1 H2]. destruct (IH _ H2) as [IHa IHb]. split.
    + intros [|i] x Hx; cbn in Hx.
      * injection Hx as <-. exact H1.
      * specialize (IHa i x Hx). lia.
    + intros [|i] [|j] ei ej Hi Hj Hij; cbn in Hi, Hj; try lia.
      * injection Hi as <-. specialize (IHa j ej Hj). lia.
      * eapply IHb; [exact Hi | exact Hj | lia].
Qed.

Section ScanLines.
Variable rangePrepare : list byte -> list byte.
Variable rangeSearch : list byte -> option (N * N).

Hypothesis rangePrepare_lines :
  forall data, map is_LF (rangePrepare data) = map is_LF data.
Hypothesis rangeSearch_inside :
  forall r off len, rangeSearch r = Some (off, len) -> off + len <= lengthN r.
Hypothesis rangeSearch_one_line :
  forall r off len, rangeSearch r = Some (off, len) ->
                    count_LF (takeN len (dropN off r)) = 0.

Lemma processFile_loop_lines (range : list byte) (fuel : nat) :
  forall begin ln,
    begin <= lengthN range ->
    (begin = 0 \/ range !! N.to_nat (begin - 1) = Some LF) ->
    (N.to_nat (lengthN range - begin) < fuel)%nat ->
    exists events,
      processFile_loop rangeSearch fuel range (lengthN range) begin ln = Some events /\
      Forall (reportedText range) events /\ ascending begin events.
Proof.
  set (size := lengthN range).
  induction fuel as [|fuel IH]; intros begin ln Hb Hstart Hfuel; [lia|].
  cbn [processFile_loop].
  destruct (rangeSearch (slice range begin size)) as [[off len]|] eqn:Hm.
  2:{ exists []. split; [reflexivity|]. split; constructor. }
  pose proof (rangeSearch_inside _ _ _ Hm) as Hin.
  pose proof (rangeSearch_one_line _ _ _ Hm) as Hone.
  rewrite lengthN_slice in Hin by (fold size; lia).
  rewrite slice_of_slice in Hone by lia.
  set (mdata := begin + off) in *.
  pose proof (findLineStart_props range begin mdata ltac:(unfold mdata; lia)
                ltac:(fold size; unfold mdata; lia)) as Hs.
  pose proof (findLineEnd_props range (mdata + len) size ltac:(unfold mdata; lia)
                ltac:(fold size; lia)) as He.
  cbv zeta in Hs, He.
  set (lbeg := findLineStart range begin mdata) in *.
  set (lend := findLineEnd range (mdata + len) size) in *.
  destruct Hs as (Hsb & Hs0 & Hsc). destruct He as (Heb & He0 & Hec).
  assert (Hnone : count_LF (slice range lbeg lend) = 0).
  { rewrite (slice_slice range lbeg mdata lend) by lia.
    rewrite (slice_slice range mdata (mdata + len) lend) by lia.
    rewrite !count_LF_app. lia. }
  assert (Hrep : reportedText range
            (mdata, {| line := u32 (ln + u32 (1 + countLines range begin mdata));
                       column := u32 (mdata - lbeg + 1);
                       text := lbeg;
                       textLength := lend - lbeg |})).
  { unfold reportedText. cbn [fst snd text textLength].
    replace (lbeg + (lend - lbeg)) with lend by lia. fold size.
    split; [lia|]. split; [lia|]. split; [lia|]. split; [exact Hnone|]. split.
    - destruct Hsc as [[Heq _] | [_ Hlf]]; [|right; exact Hlf].
      rewrite Heq. exact Hstart.
    - destruct Hec as [[Heq _] | [_ Hlf]]; [left; exact Heq | right; exact Hlf]. }
  destruct (lend =? size) eqn:Hlast.
  { eexists. split; [reflexivity|]. split; [constructor; [exact Hrep | constructor]|].
    cbn [ascending snd text]. split; [lia | exact I]. }
  apply N.eqb_neq in Hlast.
  destruct Hec as [[Heq _] | [Hlt Hlf]]; [congruence|].
  destruct (IH (lend + 1) (u32 (ln + u32 (1 + countLines range begin mdata))))
    as (rest & Hrun & Hall & Hasc).
  - fold size. lia.
  - right. replace (lend + 1 - 1) with lend by lia. exact Hlf.
  - fold size. lia.
  - rewrite Hrun. eexists. split; [reflexivity|].
    split; [constructor; assumption|].
    cbn [ascending snd text textLength]. split; [lia|].
    replace (lbeg + (lend - lbeg) + 1) with (lend + 1) by lia. exact Hasc.
Qed.

(** X15.  For every match that [processFile] reports, the text that it
    reports is the line of the match in the data of the record: from the
    start of the data or the byte after a line feed, up to the end of the
    data or the next line feed, the match start inside.  Every line is
    reported at most once, and the lines are reported in the order of the
    data.  (The engine is as for C4.) *)
Theorem reported_text_is_the_line (data : list byte) (startLine : N) :
  exists events,
    processFile rangePrepare rangeSearch data startLine = Some events /\
    (forall m r, (m, r) ∈ events ->
       text r <= m /\ m <= text r + textLength r /\
       text r + textLength r <= lengthN data /\
       count_LF (slice data (text r) (text r + textLength r)) = 0 /\
       (text r = 0 \/ data !! N.to_nat (text r - 1) = Some LF) /\
       (text r + textLength r = lengthN data \/
        data !! N.to_nat (text r + textLength r) = Some LF)) /\
    (forall i j mi ri mj rj,
       events !! i = Some (mi, ri) -> events !! j = Some (mj, rj) -> (i < j)%nat ->
       text ri + textLength ri < text rj).
Proof.
  assert (Hlen : lengthN (rangePrepare data) = lengthN data).
  { unfold lengthN. f_equal. rewrite <- (length_map is_LF), rangePrepare_lines.
    apply length_map. }
  destruct (processFile_loop_lines (rangePrepare data) (S (length data))
              0 (u32 startLine)) as (events & Hrun & Hall & Hasc).
  - lia.
  - left. reflexivity.
  - rewrite Hlen. unfold lengthN. lia.
  - exists events. rewrite Hlen in Hrun. split; [exact Hrun|]. split.
    + intros m r Hin. rewrite Forall_forall in Hall. specialize (Hall _ Hin).
      apply (reportedText_LF_map _ data _ (rangePrepare_lines data)) in Hall.
      exact Hall.
    + intros i j mi ri mj rj Hi Hj Hij.
      destruct (ascending_lookup events 0 Hasc) as [_ H].
      exact (H i j _ _ Hi Hj Hij).
Qed.

End ScanLines.

Import ChunkData.

(** ** The buffer of a chunk *)

Lemma length_nameBytes (f : File) : length (nameBytes f) = String.length (name f).
Proof.
  unfold nameBytes, String.list_byte_of_string. rewrite length_map.
  induction (name f) as [|c s IH]; cbn; [reflexivity | rewrite IH; reflexivity].
Qed.

Lemma copy_at_mid (a junk c src : list byte) (off : N) :
  off = lengthN a -> length junk = length src ->
  copy_at (a ++ junk ++ c) off src = a ++ src ++ c.
Proof.
  intros -> Hj. unfold copy_at, lengthN. rewrite Nat2N.id.
  rewrite take_app_length.
  rewrite <- Hj, <- length_app, (assoc_L (++) a junk c), drop_app_length.
  apply take_ge. rewrite !length_app. lia.
Qed.

Lemma split_length {A} (l : list A) (a b : nat) :
  length l = (a + b)%nat ->
  exists l1 l2, l = l1 ++ l2 /\ length l1 = a /\ length l2 = b.
Proof.
  intros H. exists (take a l), (drop a l).
  rewrite take_drop, length_take, length_drop. split; [reflexivity | lia].
Qed.

Lemma getChunkNameTotalSize_sum (fs : list File) : forall acc,
  acc + sumNames fs < SIZE_MOD ->
  fold_left (fun result f => sz_add result (N.of_nat (String.length (name f)))) fs acc
  = acc + sumNames fs.
Proof.
  induction fs as [|f fs IH]; intros acc H; cbn [fold_left sumNames] in *; [lia|].
  unfold sz_add at 2. rewrite sz_small by lia. rewrite IH by lia. lia.
Qed.

Lemma getChunkDataTotalSize_sum (fs : list File) : forall acc,
  acc + sumCount fs < SIZE_MOD ->
  fold_left (fun result f => sz_add result (Blob_size (contents f))) fs acc
  = acc + sumCount fs.
Proof.
  induction fs as [|f fs IH]; intros acc H; cbn [fold_left sumCount] in *; [lia|].
  unfold sz_add at 2, Blob_size. fold (sizeOf f). rewrite sz_small by lia.
  rewrite IH by lia. lia.
Qed.

Lemma length_names fs : lengthN (names fs) = sumNames fs.
Proof.
  induction fs as [|f fs IH]; [reflexivity|].
  unfold names in *. cbn [map concat sumNames]. rewrite lengthN_app, IH.
  unfold lengthN. rewrite length_nameBytes. reflexivity.
Qed.

Lemma length_datas fs :
  Forall wfFile fs -> lengthN (concat (map bytesOf fs)) = sumCount fs.
Proof.
  induction 1 as [|f fs Hf _ IH]; [reflexivity|].
  cbn [map concat sumCount]. rewrite lengthN_app, IH.
  rewrite (bytesOf_length f Hf). reflexivity.
Qed.

Lemma concat_map_middle {A} (g : A -> list byte) (l : list A) (i : nat) (x : A) :
  l !! i = Some x ->
  concat (map g l)
  = concat (map g (take i l)) ++ g x ++ concat (map g (drop (S i) l)).
Proof.
  intros H. rewrite <- (take_drop_middle l i x H) at 1.
  rewrite map_app, concat_app. reflexivity.
Qed.

Lemma slice_app_mid (a m c : list byte) (off len : N) :
  off = lengthN a -> len = lengthN m -> takeN len (dropN off (a ++ m ++ c)) = m.
Proof.
  intros -> ->. unfold takeN, dropN, lengthN. rewrite !Nat2N.id.
  rewrite drop_app_length. apply take_app_length.
Qed.

Section BufferProofs.
Variable ndebug : bool.
Variable encodeFileHeader : DataChunkFileHeader -> list byte.
Hypothesis encodeFileHeader_size :
  forall h, lengthN (encodeFileHeader h) = sizeof_DataChunkFileHeader.

Lemma length_headers (hs : list DataChunkFileHeader) :
  lengthN (concat (map encodeFileHeader hs)) = sizeof_DataChunkFileHeader * lengthN hs.
Proof.
  induction hs as [|h hs IH]; [reflexivity|].
  cbn [map concat]. rewrite lengthN_app, IH, encodeFileHeader_size, lengthN_cons. lia.
Qed.

Lemma length_prepareHeaders fs : forall no do_,
  length (prepareHeaders fs no do_) = length fs.
Proof. induction fs as [|f fs IH]; intros no do_; cbn; [reflexivity | rewrite IH; reflexivity]. Qed.

Lemma prepareChunkData_loop_spec (fs : list File) :
  forall (Hd Hz Nd Nz Dd Dz : list byte) (i no do_ : N),
    Forall wfFile fs ->
    lengthN Hd = sizeof_DataChunkFileHeader * i ->
    lengthN Hz = sizeof_DataChunkFileHeader * lengthN fs ->
    lengthN Nz = sumNames fs -> lengthN Dz = sumCount fs ->
    no = lengthN (Hd ++ Hz ++ Nd) ->
    do_ = lengthN (Hd ++ Hz ++ Nd ++ Nz ++ Dd) ->
    lengthN (Hd ++ Hz ++ Nd ++ Nz ++ Dd ++ Dz) < SIZE_MOD ->
    prepareChunkData_loop ndebug encodeFileHeader fs i
      (Hd ++ Hz ++ Nd ++ Nz ++ Dd ++ Dz) no do_
    = Done (Hd ++ concat (map encodeFileHeader (prepareHeaders fs no do_)) ++
            Nd ++ names fs ++ Dd ++ concat (map bytesOf fs),
            no + sumNames fs, do_ + sumCount fs).
Proof.
  induction fs as [|f fs IH];
    intros Hd Hz Nd Nz Dd Dz i no do_ Hwf HHd HHz HNz HDz Hno Hdo Htot.
  - cbn [prepareChunkData_loop prepareHeaders map concat names sumNames sumCount].
    destruct Hz; [|discriminate]. destruct Nz; [|discriminate].
    destruct Dz; [|discriminate]. cbn [app]. rewrite !N.add_0_r. reflexivity.
  - apply Forall_cons in Hwf as [Hf Hwf].
    rewrite lengthN_cons in HHz. cbn [sumNames] in HNz. rewrite sumCount_cons in HDz.
    destruct (split_length Hz (N.to_nat sizeof_DataChunkFileHeader)
                (N.to_nat (sizeof_DataChunkFileHeader * lengthN fs)))
      as (hz1 & Hz' & -> & Hhz1 & HHz'); [unfold lengthN in *; lia|].
    destruct (split_length Nz (String.length (name f)) (N.to_nat (sumNames fs)))
      as (nz1 & Nz' & -> & Hnz1 & HNz'); [unfold lengthN in *; lia|].
    destruct (split_length Dz (N.to_nat (sizeOf f)) (N.to_nat (sumCount fs)))
      as (dz1 & Dz' & -> & Hdz1 & HDz'); [unfold lengthN in *; lia|].
    assert (Hnl : lengthN (nameBytes f) = N.of_nat (String.length (name f)))
      by (unfold lengthN; rewrite length_nameBytes; reflexivity).
    pose proof (bytesOf_length f Hf) as Hbl.
    assert (E1 : lengthN hz1 = sizeof_DataChunkFileHeader) by (unfold lengthN; lia).
    assert (E2 : lengthN Hz' = sizeof_DataChunkFileHeader * lengthN fs)
      by (unfold lengthN in *; lia).
    assert (E3 : lengthN nz1 = N.of_nat (String.length (name f)))
      by (unfold lengthN; lia).
    assert (E4 : lengthN Nz' = sumNames fs) by (unfold lengthN; lia).
    assert (E5 : lengthN dz1 = sizeOf f) by (unfold lengthN; lia).
    assert (E6 : lengthN Dz' = sumCount fs) by (unfold lengthN; lia).
    clear Hhz1 HHz' Hnz1 HNz' Hdz1 HDz' HHz HNz HDz.
    rewrite !lengthN_app in *.
    cbn [prepareChunkData_loop].
    pose proof Hf as [Hf1 Hf2].
    unfold Blob_data. rewrite (assert_true ndebug)
      by (apply N.leb_le; unfold sz_add; rewrite sz_small; lia).
    rewrite !bind_Done. cbv zeta.
    change (takeN (Blob_size (contents f)) (Blob_ptr (contents f))) with (bytesOf f).
    set (h := fileHeader f no do_).
    pose proof (encodeFileHeader_size h) as He.
    assert (Hlen : forall x y : list byte, lengthN x = lengthN y -> length x = length y)
      by (unfold lengthN; intros; lia).
    (* the name *)
    replace (Hd ++ (hz1 ++ Hz') ++ Nd ++ (nz1 ++ Nz') ++ Dd ++ dz1 ++ Dz')
      with ((Hd ++ (hz1 ++ Hz') ++ Nd) ++ nz1 ++ (Nz' ++ Dd ++ dz1 ++ Dz'))
      by (rewrite <- !(assoc_L (++)); reflexivity).
    rewrite copy_at_mid; [|rewrite !lengthN_app; lia | apply Hlen; lia].
    (* the contents *)
    replace ((Hd ++ (hz1 ++ Hz') ++ Nd) ++ nameBytes f ++ Nz' ++ Dd ++ dz1 ++ Dz')
      with ((Hd ++ (hz1 ++ Hz') ++ Nd ++ nameBytes f ++ Nz' ++ Dd) ++ dz1 ++ Dz')
      by (rewrite <- !(assoc_L (++)); reflexivity).
    rewrite copy_at_mid; [|rewrite !lengthN_app; lia | apply Hlen; lia].
    (* the header *)
    replace ((Hd ++ (hz1 ++ Hz') ++ Nd ++ nameBytes f ++ Nz' ++ Dd) ++ bytesOf f ++ Dz')
      with (Hd ++ hz1 ++ (Hz' ++ Nd ++ nameBytes f ++ Nz' ++ Dd ++ bytesOf f ++ Dz'))
      by (rewrite <- !(assoc_L (++)); reflexivity).
    rewrite copy_at_mid;
      [|unfold sz_mul; rewrite sz_small by lia; lia | apply Hlen; lia].
    replace (Hd ++ encodeFileHeader h ++
             Hz' ++ Nd ++ nameBytes f ++ Nz' ++ Dd ++ bytesOf f ++ Dz')
      with ((Hd ++ encodeFileHeader h) ++
            Hz' ++ (Nd ++ nameBytes f) ++ Nz' ++ (Dd ++ bytesOf f) ++ Dz')
      by (rewrite <- !(assoc_L (++)); reflexivity).
    rewrite (IH (Hd ++ encodeFileHeader h) Hz' (Nd ++ nameBytes f) Nz'
                (Dd ++ bytesOf f) Dz').
    + cbn [prepareHeaders map concat names sumNames sumCount]. fold h. fold (names fs).
      unfold sz_add, Blob_size. fold (sizeOf f). rewrite !sz_small by lia.
      rewrite <- !(assoc_L (++)). do 2 f_equal; [f_equal|]; lia.
    + exact Hwf.
    + rewrite lengthN_app, He. lia.
    + exact E2.
    + exact E4.
    + exact E6.
    + unfold sz_add. rewrite sz_small by lia. rewrite !lengthN_app. lia.
    + unfold sz_add, Blob_size. fold (sizeOf f). rewrite sz_small by lia.
      rewrite !lengthN_app. lia.
    + rewrite !lengthN_app. lia.
Qed.

Lemma prepareHeaders_lookup (fs : list File) : forall no do_ i f,
  fs !! i = Some f ->
  no + sumNames fs < SIZE_MOD -> do_ + sumCount fs < SIZE_MOD ->
  prepareHeaders fs no do_ !! i
  = Some (fileHeader f (no + sumNames (take i fs)) (do_ + sumCount (take i fs))).
Proof.
  induction fs as [|g fs IH]; intros no do_ i f Hi Hno Hdo; [discriminate|].
  cbn [sumNames] in Hno. rewrite sumCount_cons in Hdo.
  destruct i as [|i]; cbn in Hi.
  - injection Hi as <-. cbn. rewrite !N.add_0_r. reflexivity.
  - cbn [prepareHeaders lookup list_lookup take sumNames]. rewrite sumCount_cons.
    rewrite (IH _ _ i f Hi).
    + unfold sz_add, Blob_size. fold (sizeOf g). rewrite !sz_small by lia.
      do 2 f_equal; lia.
    + unfold sz_add. rewrite sz_small by lia. lia.
    + unfold sz_add, Blob_size. fold (sizeOf g). rewrite sz_small by lia. lia.
Qed.

Lemma sumNames_app l1 l2 : sumNames (l1 ++ l2) = sumNames l1 + sumNames l2.
Proof. induction l1 as [|f l1 IH]; cbn; [reflexivity | rewrite IH; lia]. Qed.

Lemma prepareChunkData_run (chunk : Chunk) :
  Forall wfFile (files chunk) ->
  sizeof_DataChunkFileHeader * lengthN (files chunk)
  + sumNames (files chunk) + sumCount (files chunk) < SIZE_MOD ->
  prepareChunkData ndebug encodeFileHeader chunk
  = Done (concat (map encodeFileHeader (chunkFileHeaders chunk)) ++
          names (files chunk) ++ chunkData chunk,
          sizeof_DataChunkFileHeader * lengthN (files chunk) + sumNames (files chunk)) /\
  chunkUncompressedSize chunk
  = sizeof_DataChunkFileHeader * lengthN (files chunk)
    + sumNames (files chunk) + sumCount (files chunk).
Proof.
  intros Hwf Htot. unfold prepareChunkData, chunkUncompressedSize, chunkFileHeaders,
    chunkHeaderSize, getChunkNameTotalSize, getChunkDataTotalSize, chunkData.
  set (fs := files chunk) in *.
  set (hs := sizeof_DataChunkFileHeader * lengthN fs) in *.
  rewrite getChunkNameTotalSize_sum, getChunkDataTotalSize_sum by lia.
  rewrite !N.add_0_l. unfold sz_mul, sz_add. fold hs.
  rewrite (sz_small hs) by lia. rewrite (sz_small (hs + _)) by lia.
  rewrite sz_small by lia. split; [|reflexivity]. cbv zeta.
  replace (N.to_nat (hs + sumNames fs + sumCount fs))
    with (N.to_nat hs + (N.to_nat (sumNames fs) + N.to_nat (sumCount fs)))%nat by lia.
  rewrite !repeat_app.
  pose proof (prepareChunkData_loop_spec fs [] (repeat x00 (N.to_nat hs)) []
                (repeat x00 (N.to_nat (sumNames fs))) []
                (repeat x00 (N.to_nat (sumCount fs))) 0 hs (hs + sumNames fs) Hwf)
    as Hloop.
  cbn [app] in Hloop. rewrite Hloop; clear Hloop;
    try (unfold lengthN; rewrite ?length_app, ?repeat_length; cbn [length]; lia).
  - rewrite bind_Done. cbn beta iota.
    rewrite (assert_true ndebug)
      by (apply andb_true_iff; split; apply N.eqb_eq; lia).
    reflexivity.
  - unfold lengthN. rewrite repeat_length. unfold hs, lengthN. lia.
Qed.

(** X16.  The buffer that [prepareChunkData] makes of a chunk is the headers
    of its records, then their names, then their contents, each in the
    order of the records; the offset that it returns is that of the
    contents, and the length of the buffer is the [uncompressedSize] of the
    chunk. *)
Theorem prepareChunkData_layout (chunk : Chunk) :
  Forall wfFile (files chunk) ->
  sizeof_DataChunkFileHeader * lengthN (files chunk)
  + sumNames (files chunk) + sumCount (files chunk) < SIZE_MOD ->
  exists data offset,
    prepareChunkData ndebug encodeFileHeader chunk = Done (data, offset) /\
    data = concat (map encodeFileHeader (chunkFileHeaders chunk)) ++
           names (files chunk) ++ chunkData chunk /\
    lengthN data = chunkUncompressedSize chunk /\
    dropN offset data = chunkData chunk /\
    lengthN (chunkData chunk) = getChunkDataTotalSize chunk.
Proof.
  intros Hwf Htot. destruct (prepareChunkData_run chunk Hwf Htot) as [Hrun Hsize].
  eexists _, _. split; [exact Hrun|]. split; [reflexivity|].
  assert (Hh : lengthN (concat (map encodeFileHeader (chunkFileHeaders chunk)))
               = sizeof_DataChunkFileHeader * lengthN (files chunk)).
  { rewrite length_headers. unfold chunkFileHeaders, lengthN.
    rewrite length_prepareHeaders. reflexivity. }
  assert (Hd : lengthN (chunkData chunk) = sumCount (files chunk))
    by (apply length_datas; exact Hwf).
  split; [|split].
  - rewrite Hsize, !lengthN_app, Hh, length_names, Hd. lia.
  - rewrite (assoc_L (++)). unfold dropN.
    replace (N.to_nat (sizeof_DataChunkFileHeader * lengthN (files chunk)
                       + sumNames (files chunk)))
      with (length (concat (map encodeFileHeader (chunkFileHeaders chunk))
                    ++ names (files chunk))).
    + apply drop_app_length.
    + rewrite length_app. pose proof (length_names (files chunk)) as Hn.
      unfold lengthN in *. lia.
  - rewrite Hd. unfold getChunkDataTotalSize.
    rewrite getChunkDataTotalSize_sum by lia. lia.
Qed.

(** X17.  What a header of the buffer of [prepareChunkData] points to is its
    record: the bytes at [(nameOffset, nameLength)] are the name of the
    record, the bytes at [(dataOffset, dataSize)] its contents, and start
    line, file size and time stamp are those of the record.  The buffer is
    below 4 GiB, the range of the header fields. *)
Theorem prepareChunkData_headers_point_to_records (chunk : Chunk) :
  Forall wfFile (files chunk) ->
  sizeof_DataChunkFileHeader * lengthN (files chunk)
  + sumNames (files chunk) + sumCount (files chunk) < UINT_MOD ->
  exists data offset,
    prepareChunkData ndebug encodeFileHeader chunk = Done (data, offset) /\
    length (chunkFileHeaders chunk) = length (files chunk) /\
    forall i f h,
      files chunk !! i = Some f -> chunkFileHeaders chunk !! i = Some h ->
      nameOf data h = nameBytes f /\ dataOf data h = bytesOf f /\
      h_startLine h = startLine f /\ h_fileSize h = fileSize f /\
      h_timeStamp h = timeStamp f.
Proof.
  intros Hwf Htot. assert (Hu : UINT_MOD < SIZE_MOD) by reflexivity.
  destruct (prepareChunkData_run chunk Hwf ltac:(lia)) as [Hrun _].
  eexists _, _. split; [exact Hrun|].
  split; [apply length_prepareHeaders|].
  intros i f h Hf Hh. unfold chunkFileHeaders, chunkHeaderSize in Hh.
  set (fs := files chunk) in *.
  set (hs := sizeof_DataChunkFileHeader * lengthN fs) in *.
  assert (Hns : getChunkNameTotalSize chunk = sumNames fs).
  { unfold getChunkNameTotalSize. fold fs. rewrite getChunkNameTotalSize_sum by lia. lia. }
  unfold sz_mul, sz_add in Hh. fold hs in Hh. rewrite Hns in Hh.
  rewrite (sz_small hs), (sz_small (hs + _)) in Hh by lia.
  rewrite (prepareHeaders_lookup fs _ _ i f Hf) in Hh by lia.
  injection Hh as <-.
  assert (Hsplit : fs = take i fs ++ f :: drop (S i) fs)
    by (symmetry; apply take_drop_middle; exact Hf).
  pose proof (f_equal sumNames Hsplit) as Hsn. rewrite sumNames_app in Hsn.
  cbn [sumNames] in Hsn.
  pose proof (f_equal sumCount Hsplit) as Hsc. rewrite sumCount_app, sumCount_cons in Hsc.
  assert (Hwf' : Forall wfFile (take i fs) /\ wfFile f).
  { rewrite Hsplit in Hwf. apply Forall_app in Hwf as [H1 H2].
    apply Forall_cons in H2 as [H2 _]. auto. }
  destruct Hwf' as [Hwt Hwff].
  assert (Hh : lengthN (concat (map encodeFileHeader (chunkFileHeaders chunk))) = hs).
  { rewrite length_headers. unfold chunkFileHeaders, lengthN.
    rewrite length_prepareHeaders. reflexivity. }
  unfold nameOf, dataOf, fileHeader. simpl_rec.
  cbn [nameLength dataSize Build.nameOffset Build.dataOffset h_startLine h_fileSize
       h_timeStamp].
  unfold Blob_size. fold (sizeOf f).
  rewrite !u32_small by lia.
  split; [|split; [|auto]].
  - unfold names at 1. fold fs. rewrite (concat_map_middle nameBytes fs i f Hf).
    rewrite <- !(assoc_L (++)).
    rewrite (assoc_L (++) (concat (map encodeFileHeader _))).
    apply slice_app_mid.
    + rewrite lengthN_app, Hh. fold (names (take i fs)). rewrite length_names. reflexivity.
    + unfold lengthN. rewrite length_nameBytes. reflexivity.
  - unfold chunkData. fold fs.
    change (fun f0 : File => Blob_bytes (contents f0)) with bytesOf.
    rewrite (concat_map_middle bytesOf fs i f Hf).
    rewrite (assoc_L (++) (names fs)), (assoc_L (++) (concat (map encodeFileHeader _))).
    apply slice_app_mid.
    + rewrite !lengthN_app, Hh, length_names, (length_datas _ Hwt). lia.
    + symmetry. apply bytesOf_length. exact Hwff.
Qed.

End BufferProofs.

(** ** The n-gram set: [IntSet] *)

(** The stride of the probe, 7, is odd: from any slot of a table whose
    capacity is a power of two, the probe comes to any other slot in less
    steps than the capacity. *)
Lemma stride_reaches (k h z : N) :
  h < 2 ^ k -> z < 2 ^ k -> exists j, j < 2 ^ k /\ (h + 7 * j) mod 2 ^ k = z.
Proof.
  intros Hh Hz.
  assert (Hrel : Z.coprime 7 (2 ^ Z.of_N k)).
  { apply Z.coprime_pow_r; [lia | reflexivity]. }
  destruct (Z.Bezout_coprime _ _ Hrel) as (u & v & Huv).
  set (c := (2 ^ Z.of_N k)%Z) in *.
  assert (Hc : (0 < c)%Z) by (apply Z.pow_pos_nonneg; lia).
  set (j := (((Z.of_N z - Z.of_N h) * u) mod c)%Z).
  assert (Hj : (0 <= j < c)%Z) by (apply Z.mod_pos_bound; exact Hc).
  assert (HcN : Z.of_N (2 ^ k) = c) by (unfold c; rewrite N2Z.inj_pow; reflexivity).
  exists (Z.to_N j). split; [lia|].
  apply N2Z.inj. rewrite N2Z.inj_mod, N2Z.inj_add, N2Z.inj_mul, Z2N.id, HcN by lia.
  change (Z.of_N 7) with 7%Z. unfold j.
  rewrite <- Z.add_mod_idemp_r, Z.mul_mod_idemp_r, Z.add_mod_idemp_r by lia.
  replace (Z.of_N h + 7 * ((Z.of_N z - Z.of_N h) * u))%Z
    with (Z.of_N z + (- ((Z.of_N z - Z.of_N h) * v)) * c)%Z by nia.
  rewrite Z.mod_add by lia. apply Z.mod_small. lia.
Qed.

Section IntSetProofs.
Import Index.

Lemma slot_mod (d : list N) (k v : N) :
  lengthN d = 2 ^ k -> lengthN d < 2 ^ 31 -> slot d v = v mod 2 ^ k.
Proof.
  intros Hk Hc. unfold slot.
  assert (Hpos : 0 < 2 ^ k) by (apply N.neq_0_lt_0, N.pow_nonzero; discriminate).
  assert (H31 : 2 ^ 31 < SIZE_MOD) by reflexivity.
  rewrite sz_sub_le by lia. rewrite Hk.
  replace (2 ^ k - 1) with (N.ones k) by (rewrite N.ones_equiv; lia).
  rewrite N.land_ones. apply u32_small.
  pose proof (N.mod_lt v (2 ^ k) ltac:(lia)).
  assert (2 ^ 31 < UINT_MOD) by reflexivity. lia.
Qed.

Lemma slot_lt (d : list N) (k v : N) :
  lengthN d = 2 ^ k -> lengthN d < 2 ^ 31 -> slot d v < lengthN d.
Proof.
  intros Hk Hc. rewrite (slot_mod d k v Hk Hc), Hk.
  apply N.mod_lt, N.pow_nonzero. discriminate.
Qed.

Lemma slot_next (d : list N) (k h : N) :
  lengthN d = 2 ^ k -> lengthN d < 2 ^ 31 -> h < lengthN d ->
  slot d (u32 (h + 7)) = (h + 7) mod 2 ^ k.
Proof.
  intros Hk Hc Hh. rewrite (slot_mod d k _ Hk Hc). f_equal.
  apply u32_small. assert (2 ^ 31 + 7 < UINT_MOD) by reflexivity. lia.
Qed.

Lemma slot_insert (d : list N) (e : nat) (x v : N) :
  slot (<[e := x]> d) v = slot d v.
Proof. unfold slot, lengthN. rewrite length_insert. reflexivity. Qed.

Lemma at_lookup (d : list N) (h x : N) : d !! N.to_nat h = Some x -> at_ d h = x.
Proof. intros H. unfold at_. apply nth_lookup_Some with (d := 0) in H. exact H. Qed.

Lemma at_insert_eq (d : list N) (e x : N) :
  e < lengthN d -> at_ (<[N.to_nat e := x]> d) e = x.
Proof.
  intros He. apply at_lookup, list_lookup_insert_eq. unfold lengthN in He. lia.
Qed.

Lemma at_insert_ne (d : list N) (e h x : N) :
  h <> e -> at_ (<[N.to_nat e := x]> d) h = at_ d h.
Proof.
  intros Hne. unfold at_.
  destruct (d !! N.to_nat h) as [y|] eqn:E.
  - rewrite (nth_lookup_Some _ _ 0 _ E). apply nth_lookup_Some.
    rewrite list_lookup_insert_ne by lia. exact E.
  - rewrite !nth_overflow; [reflexivity| |].
    + apply lookup_ge_None in E. lia.
    + rewrite length_insert. apply lookup_ge_None in E. lia.
Qed.

Lemma at_nonzero_elem (d : list N) (h : N) : at_ d h <> 0 -> at_ d h ∈ d.
Proof.
  intros H. unfold at_ in *.
  destruct (d !! N.to_nat h) as [y|] eqn:E.
  - rewrite (nth_lookup_Some _ _ 0 _ E). eapply list_elem_of_lookup_2. exact E.
  - rewrite nth_overflow in H; [congruence|]. apply lookup_ge_None in E. lia.
Qed.

Lemma Probe_range (d : list N) (k key h e : N) :
  lengthN d = 2 ^ k -> lengthN d < 2 ^ 31 ->
  Probe d key h e -> h < lengthN d -> e < lengthN d.
Proof.
  intros Hk Hc. induction 1 as [h _|h e _ _ _ IH]; [auto|].
  intros _. apply IH. apply (slot_lt d k); assumption.
Qed.

Lemma Probe_det (d : list N) (key h e e' : N) :
  Probe d key h e -> Probe d key h e' -> e = e'.
Proof.
  induction 1 as [h Hh|h e H1 H2 _ IH]; inversion 1; subst; tauto.
Qed.

Lemma Probe_ends (d : list N) (key h e : N) :
  Probe d key h e -> at_ d e = key \/ at_ d e = 0.
Proof. induction 1; auto. Qed.

(** A key put into the free slot where its probe ended is found, and so are
    the keys that were found before. *)
Lemma Probe_insert_self (d : list N) (key h e : N) :
  Probe d key h e -> e < lengthN d -> at_ d e = 0 ->
  Probe (<[N.to_nat e := key]> d) key h e.
Proof.
  intros HP He H0. induction HP as [h Hh|h e H1 H2 HP IH].
  - apply Probe_end. left. apply at_insert_eq. exact He.
  - assert (Hne : h <> e) by congruence.
    apply Probe_step.
    + rewrite at_insert_ne by exact Hne. exact H1.
    + rewrite at_insert_ne by exact Hne. exact H2.
    + rewrite slot_insert. apply IH; assumption.
Qed.

Lemma Probe_insert_other (d : list N) (key x h e ex : N) :
  Probe d x h ex -> at_ d ex = x -> x <> 0 -> at_ d e = 0 ->
  Probe (<[N.to_nat e := key]> d) x h ex /\
  at_ (<[N.to_nat e := key]> d) ex = x.
Proof.
  intros HP Hx Hx0 H0. induction HP as [h Hh|h ex H1 H2 HP IH].
  - assert (Hne : h <> e) by congruence.
    split; [apply Probe_end; left|]; rewrite at_insert_ne by exact Hne; exact Hx.
  - assert (Hne : h <> e) by congruence.
    destruct (IH Hx) as [IH1 IH2]. split; [|exact IH2].
    apply Probe_step.
    + rewrite at_insert_ne by exact Hne. exact H1.
    + rewrite at_insert_ne by exact Hne. exact H2.
    + rewrite slot_insert. exact IH1.
Qed.

End IntSetProofs.

Section InsertProofs.
Import Index.

Lemma insert_loop_Probe (fuel : nat) (s : IntSet) (key h : N) (s' : IntSet) :
  insert_loop fuel s key h = Done s' ->
  exists e, Probe (data s) key h e /\
    ((at_ (data s) e = key /\ s' = s) \/
     (at_ (data s) e <> key /\ at_ (data s) e = 0 /\
      s' = {| data := <[N.to_nat e := key]> (data s); size := u32 (size s + 1) |})).
Proof.
  revert h. induction fuel as [|fuel IH]; intros h; cbn [insert_loop]; [discriminate|].
  destruct (at_ (data s) h =? key) eqn:E1.
  - apply N.eqb_eq in E1. intros [= <-]. exists h. split; [apply Probe_end; auto|].
    left. auto.
  - apply N.eqb_neq in E1. destruct (at_ (data s) h =? 0) eqn:E2.
    + apply N.eqb_eq in E2. intros [= <-]. exists h. split; [apply Probe_end; auto|].
      right. auto.
    + apply N.eqb_neq in E2. intros Hrun. destruct (IH _ Hrun) as (e & HP & Hcases).
      exists e. split; [apply Probe_step; assumption | exact Hcases].
Qed.

Lemma insert_loop_ends (k : N) (s : IntSet) (key : N) :
  lengthN (data s) = 2 ^ k -> lengthN (data s) < 2 ^ 31 ->
  forall (j fuel : nat) (h : N),
    (j < fuel)%nat -> h < lengthN (data s) ->
    at_ (data s) ((h + 7 * N.of_nat j) mod 2 ^ k) = 0 ->
    exists s', insert_loop fuel s key h = Done s'.
Proof.
  intros Hk Hc. induction j as [|j IH]; intros fuel h Hf Hh H0;
    (destruct fuel as [|fuel]; [lia|]); cbn [insert_loop].
  - rewrite N.mul_0_r, N.add_0_r, N.mod_small in H0 by lia.
    rewrite H0. destruct (0 =? key); [eauto|]. cbn. eauto.
  - destruct (at_ (data s) h =? key); [eauto|].
    destruct (at_ (data s) h =? 0); [eauto|].
    apply IH; [lia | apply (slot_lt _ k); assumption|].
    rewrite (slot_next _ k) by assumption.
    rewrite N.Div0.add_mod_idemp_l.
    replace (h + 7 + 7 * N.of_nat j) with (h + 7 * N.of_nat (S j)) by lia.
    exact H0.
Qed.

Lemma at_lookup_lt (d : list N) (h : N) :
  h < lengthN d -> d !! N.to_nat h = Some (at_ d h).
Proof.
  intros Hh. destruct (lookup_lt_is_Some_2 d (N.to_nat h)) as [y Hy].
  - unfold lengthN in Hh. lia.
  - rewrite (at_lookup _ _ _ Hy). exact Hy.
Qed.

Lemma free_slot (d : list N) :
  (length (filter (fun x : N => x <> 0%N) d) < length d)%nat ->
  exists z, z < lengthN d /\ at_ d z = 0.
Proof.
  induction d as [|x d IH]; cbn [length]; [lia|].
  destruct (decide (x = 0)) as [->|Hx].
  - intros _. exists 0. split; [unfold lengthN; cbn; lia | reflexivity].
  - rewrite filter_cons_True by exact Hx. cbn [length]. intros Hlt.
    destruct IH as (z & Hz & H0); [lia|].
    exists (z + 1). split; [unfold lengthN in *; cbn [length]; lia|].
    unfold at_ in *. replace (N.to_nat (z + 1)) with (S (N.to_nat z)) by lia.
    exact H0.
Qed.

Lemma keys_insert (d : list N) (e key : N) :
  e < lengthN d -> at_ d e = 0 -> key <> 0 ->
  filter (fun x => x <> 0) (<[N.to_nat e := key]> d)
  ≡ₚ key :: filter (fun x => x <> 0) d.
Proof.
  intros He H0 Hkey. pose proof (at_lookup_lt d e He) as Hl. rewrite H0 in Hl.
  rewrite insert_take_drop by (unfold lengthN in He; lia).
  rewrite <- (take_drop_middle d (N.to_nat e) 0 Hl) at 3.
  rewrite !filter_app, filter_cons_True by exact Hkey.
  rewrite (filter_cons_False _ 0) by tauto.
  symmetry. apply Permutation_middle.
Qed.

Lemma keys_le (d : list N) :
  (length (filter (fun x : N => x <> 0%N) d) <= length d)%nat.
Proof. apply length_filter. Qed.

End InsertProofs.

Section InsertTheorems.
Import Index.
Variable ndebug : bool.
Variable bloomHash2 : N -> N.

Lemma wfSet_size_le (s : IntSet) :
  wfSet bloomHash2 s -> size s <= lengthN (data s).
Proof.
  intros (_ & _ & Hs & _). rewrite Hs. unfold keysOf, lengthN.
  pose proof (keys_le (data s)). lia.
Qed.

Lemma elem_of_keysOf (s : IntSet) (x : N) :
  x ∈ keysOf s <-> x ∈ data s /\ x <> 0.
Proof. unfold keysOf. rewrite list_elem_of_filter. tauto. Qed.

(** The probe of [insert] in a table with a free slot. *)
Lemma insert_loop_spec (s : IntSet) (key : N) :
  wfSet bloomHash2 s -> lengthN (data s) < 2 ^ 31 -> size s < lengthN (data s) ->
  key <> 0 ->
  exists s',
    insert_loop (length (data s)) s key (slot (data s) (u32 (bloomHash2 key)))
    = Done s' /\
    wfSet bloomHash2 s' /\ lengthN (data s') = lengthN (data s) /\
    ((key ∈ keysOf s /\ s' = s) \/
     ((key ∉ keysOf s) /\ (keysOf s' ≡ₚ key :: keysOf s))).
Proof.
  intros Hwf Hc Hfree Hkey. pose proof Hwf as ((k & Hk) & Hnd & Hs & Hst).
  set (h0 := slot (data s) (u32 (bloomHash2 key))).
  assert (Hh0 : h0 < lengthN (data s)) by (apply (slot_lt _ k); assumption).
  destruct (free_slot (data s)) as (z & Hz & Hz0).
  { fold (keysOf s). unfold lengthN in *. lia. }
  destruct (stride_reaches k h0 z) as (j & Hj & Hjz); [lia | lia |].
  destruct (insert_loop_ends k s key Hk Hc (N.to_nat j) (length (data s)) h0)
    as (s' & Hrun).
  { unfold lengthN in *. lia. }
  { exact Hh0. }
  { rewrite N2Nat.id, Hjz. exact Hz0. }
  exists s'. split; [exact Hrun|].
  destruct (insert_loop_Probe _ _ _ _ _ Hrun) as (e & HP & [[He ->] | (He & He0 & ->)]).
  - split; [exact Hwf|]. split; [reflexivity|]. left. split; [|reflexivity].
    apply elem_of_keysOf. split; [|exact Hkey].
    rewrite <- He. apply at_nonzero_elem. congruence.
  - pose proof (Probe_range _ k _ _ _ Hk Hc HP Hh0) as Hrange.
    assert (Hnot : key ∉ keysOf s).
    { intros Hin. destruct (Hst key Hin) as (e' & HP' & He').
      fold h0 in HP'. rewrite (Probe_det _ _ _ _ _ HP HP') in He. congruence. }
    pose proof (keys_insert (data s) e key Hrange He0 Hkey) as Hperm.
    assert (Hlen : lengthN (<[N.to_nat e := key]> (data s)) = lengthN (data s))
      by (unfold lengthN; rewrite length_insert; reflexivity).
    split; [|split; [exact Hlen|right; split; [exact Hnot | exact Hperm]]].
    split; [exists k; cbn [data]; rewrite Hlen; exact Hk|].
    unfold keysOf at 1 2. cbn [data size].
    split; [rewrite Hperm; apply NoDup_cons; split; [exact Hnot | exact Hnd]|].
    split.
    + unfold lengthN. rewrite Hperm. cbn [length]. fold (keysOf s).
      unfold lengthN in Hs, Hfree, Hc. rewrite u32_small; [lia|].
      assert (2 ^ 31 < UINT_MOD) by reflexivity. lia.
    + intros x Hx. rewrite Hperm in Hx. unfold stored.
      rewrite !slot_insert. apply elem_of_cons in Hx as [-> | Hx].
      * exists e. split; [|apply at_insert_eq; exact Hrange].
        apply Probe_insert_self; assumption.
      * destruct (Hst x Hx) as (ex & HPx & Hex). exists ex.
        apply Probe_insert_other; try assumption.
        apply elem_of_keysOf in Hx. tauto.
Qed.

Lemma insert_rec_S (depth : nat) (s : IntSet) (key : N) :
  insert_rec ndebug bloomHash2 (S depth) s key
  = (assert ndebug (negb (key =? 0)) ;;
     s1 ← (if lengthN (data s) <? u32 (size s * 2)
           then grow_with (insert_rec ndebug bloomHash2 depth) s else Done s);
     insert_loop (length (data s1)) s1 key
                 (slot (data s1) (u32 (bloomHash2 key)))).
Proof. reflexivity. Qed.

(** [insert] on a table that is at most half full: it does not grow. *)
Lemma insert_rec_spec (depth : nat) (s : IntSet) (key : N) :
  wfSet bloomHash2 s -> lengthN (data s) < 2 ^ 31 ->
  2 * size s <= lengthN (data s) -> key <> 0 ->
  exists s',
    insert_rec ndebug bloomHash2 (S depth) s key = Done s' /\
    wfSet bloomHash2 s' /\ lengthN (data s') = lengthN (data s) /\
    ((key ∈ keysOf s /\ s' = s) \/
     ((key ∉ keysOf s) /\ (keysOf s' ≡ₚ key :: keysOf s))).
Proof.
  intros Hwf Hc Hhalf Hkey. pose proof Hwf as ((k & Hk) & _).
  assert (Hpos : 0 < 2 ^ k) by (apply N.neq_0_lt_0, N.pow_nonzero; discriminate).
  rewrite insert_rec_S.
  rewrite (assert_true ndebug) by (apply negb_true_iff, N.eqb_neq; exact Hkey).
  rewrite bind_Done.
  assert (Hu : u32 (size s * 2) = size s * 2).
  { apply u32_small. assert (2 ^ 31 < UINT_MOD) by reflexivity. lia. }
  rewrite Hu. replace (lengthN (data s) <? size s * 2) with false
    by (symmetry; apply N.ltb_ge; lia).
  rewrite bind_Done. apply insert_loop_spec; try assumption. lia.
Qed.

Lemma wfSet_size (s : IntSet) :
  wfSet bloomHash2 s -> size s = lengthN (keysOf s).
Proof. intros (_ & _ & Hs & _). exact Hs. Qed.

Lemma grow_loop_spec (depth : nat) (C : N) (old : list N) :
  C < 2 ^ 31 ->
  forall res,
    wfSet bloomHash2 res -> lengthN (data res) = C ->
    2 * (size res + lengthN old) <= C ->
    exists res',
      grow_loop (insert_rec ndebug bloomHash2 (S depth)) old res = Done res' /\
      wfSet bloomHash2 res' /\ lengthN (data res') = C /\
      forall x, x ∈ keysOf res' <-> x ∈ keysOf res \/ (x ∈ old /\ x <> 0).
Proof.
  intros HC. induction old as [|x old IH]; intros res Hwf Hcap Hroom;
    cbn [grow_loop].
  - exists res. split; [reflexivity|]. split; [exact Hwf|]. split; [exact Hcap|].
    intros y. rewrite elem_of_nil. tauto.
  - rewrite lengthN_cons in Hroom. destruct (x =? 0) eqn:Ex.
    + apply N.eqb_eq in Ex. subst x. rewrite bind_Done.
      destruct (IH res Hwf Hcap) as (res' & Hrun & Hwf' & Hcap' & Hkeys); [lia|].
      exists res'. split; [exact Hrun|]. split; [exact Hwf'|]. split; [exact Hcap'|].
      intros y. rewrite Hkeys, elem_of_cons. intuition congruence.
    + apply N.eqb_neq in Ex.
      destruct (insert_rec_spec depth res x Hwf) as (res1 & Hrun1 & Hwf1 & Hcap1 & Hcases);
        [lia | lia | exact Ex |].
      rewrite Hrun1, bind_Done.
      assert (Hsize1 : size res1 <= size res + 1).
      { destruct Hcases as [[_ ->] | [_ Hperm]]; [lia|].
        rewrite (wfSet_size res1 Hwf1), (wfSet_size res Hwf). unfold lengthN.
        rewrite Hperm. cbn [length]. lia. }
      destruct (IH res1 Hwf1) as (res' & Hrun & Hwf' & Hcap' & Hkeys); [lia | lia |].
      exists res'. split; [exact Hrun|]. split; [exact Hwf'|]. split; [exact Hcap'|].
      intros y. rewrite Hkeys, elem_of_cons.
      destruct Hcases as [[Hin ->] | [_ Hperm]].
      * intuition (subst; auto).
      * rewrite Hperm, elem_of_cons. intuition (subst; auto).
Qed.

Lemma keys_repeat_0 (n : nat) : filter (fun x : N => x <> 0) (repeat 0 n) = [].
Proof.
  induction n as [|n IH]; [reflexivity|].
  cbn [repeat]. rewrite filter_cons_False by tauto. exact IH.
Qed.

(** A new table is an empty set. *)
Lemma wfSet_new (k : N) : wfSet bloomHash2 (IntSet_new (2 ^ k)).
Proof.
  unfold wfSet, keysOf, IntSet_new. cbn [data size]. rewrite keys_repeat_0.
  split; [exists k; unfold lengthN; rewrite repeat_length; lia|].
  split; [constructor|]. split; [reflexivity|].
  intros x Hx. inversion Hx.
Qed.

(** [grow]: the same keys in a table of twice the capacity. *)
Lemma grow_spec (depth : nat) (s : IntSet) :
  wfSet bloomHash2 s -> 2 * lengthN (data s) < 2 ^ 31 ->
  exists s',
    grow_with (insert_rec ndebug bloomHash2 (S depth)) s = Done s' /\
    wfSet bloomHash2 s' /\ lengthN (data s') = 2 * lengthN (data s) /\
    keysOf s' ≡ₚ keysOf s /\ size s' = size s.
Proof.
  intros Hwf Hc. pose proof Hwf as ((k & Hk) & Hnd & Hs & _).
  unfold grow_with.
  assert (Hnew : sz_mul (lengthN (data s)) 2 = 2 ^ (k + 1)).
  { unfold sz_mul. rewrite sz_small, Hk, N.pow_add_r; [lia|].
    assert (2 ^ 31 < SIZE_MOD) by reflexivity. lia. }
  rewrite Hnew.
  destruct (grow_loop_spec depth (2 ^ (k + 1)) (data s)) with (res := IntSet_new (2 ^ (k + 1)))
    as (res & Hrun & Hwf' & Hcap & Hkeys).
  - rewrite N.pow_add_r. lia.
  - apply wfSet_new.
  - unfold IntSet_new, lengthN. cbn [data]. rewrite repeat_length. lia.
  - cbn [size IntSet_new]. rewrite N.pow_add_r. lia.
  - rewrite Hrun, bind_Done. eexists. split; [reflexivity|].
    assert (Hperm : keysOf res ≡ₚ keysOf s).
    { apply NoDup_Permutation; [apply Hwf' | exact Hnd |].
      intros x. rewrite Hkeys, (elem_of_keysOf s).
      unfold keysOf, IntSet_new. cbn [data]. rewrite keys_repeat_0, elem_of_nil. tauto. }
    destruct Hwf' as (Hk' & Hnd' & Hs' & Hst').
    split; [|split; [|split; [exact Hperm | reflexivity]]].
    + split; [exact Hk'|]. split; [exact Hnd'|]. split; [|exact Hst'].
      cbn [size]. rewrite Hs. unfold keysOf at 2. cbn [data]. fold (keysOf res).
      unfold lengthN. rewrite Hperm. reflexivity.
    + cbn [data]. rewrite Hcap, N.pow_add_r, Hk. lia.
Qed.

(** [insert]. *)
Lemma insert_spec (s : IntSet) (key : N) :
  wfSet bloomHash2 s -> lengthN (data s) < 2 ^ 30 -> key <> 0 ->
  exists s',
    insert ndebug bloomHash2 s key = Done s' /\
    wfSet bloomHash2 s' /\
    lengthN (data s')
    = (if lengthN (data s) <? 2 * size s then 2 * lengthN (data s)
       else lengthN (data s)) /\
    ((key ∈ keysOf s /\ (keysOf s' ≡ₚ keysOf s)) \/
     ((key ∉ keysOf s) /\ (keysOf s' ≡ₚ key :: keysOf s))).
Proof.
  intros Hwf Hc Hkey. pose proof (wfSet_size_le s Hwf) as Hle.
  unfold insert. rewrite insert_rec_S.
  rewrite (assert_true ndebug) by (apply negb_true_iff, N.eqb_neq; exact Hkey).
  rewrite bind_Done.
  assert (Hu : u32 (size s * 2) = 2 * size s).
  { rewrite u32_small; [lia|]. assert (2 ^ 31 < UINT_MOD) by reflexivity. lia. }
  rewrite Hu. destruct (lengthN (data s) <? 2 * size s) eqn:Eg.
  - apply N.ltb_lt in Eg.
    destruct (grow_spec 0 s Hwf) as (s1 & Hrun1 & Hwf1 & Hcap1 & Hperm1 & Hsize1); [lia|].
    rewrite Hrun1, bind_Done.
    destruct (insert_loop_spec s1 key Hwf1) as (s' & Hrun & Hwf' & Hcap' & Hcases);
      [lia | lia | exact Hkey |].
    exists s'. split; [exact Hrun|]. split; [exact Hwf'|].
    split; [rewrite Hcap', Hcap1; reflexivity|].
    destruct Hcases as [[Hin ->] | [Hnot Hperm]].
    + left. split; [rewrite <- Hperm1; exact Hin | exact Hperm1].
    + right. split; [rewrite <- Hperm1; exact Hnot|].
      rewrite Hperm, Hperm1. reflexivity.
  - apply N.ltb_ge in Eg. rewrite bind_Done.
    assert (Hpos : 0 < lengthN (data s)).
    { destruct Hwf as ((k & Hk) & _). rewrite Hk.
      apply N.neq_0_lt_0, N.pow_nonzero. discriminate. }
    destruct (insert_loop_spec s key Hwf) as (s' & Hrun & Hwf' & Hcap' & Hcases);
      [lia | lia | exact Hkey |].
    exists s'. split; [exact Hrun|]. split; [exact Hwf'|]. split; [exact Hcap'|].
    destruct Hcases as [[Hin ->] | [Hnot Hperm]]; [left | right]; auto.
Qed.

End InsertTheorems.

Section IndexTheorems.
Import Index.
Variable ndebug : bool.
Variable bloomHash2 : N -> N.
Variable ngram : byte -> byte -> byte -> byte -> N.
Variable casefold : byte -> byte.
Variable bloomFilterUpdate : list byte -> N -> N -> N -> list byte.

(** X19.  [IntSet::insert] is the insertion into a set.  On a table that
    keeps the invariant of [IntSet], of less than 2^30 slots, and for a key
    that is not 0, it returns, whatever the hash function; the keys of the
    table are then those of before and the key, none twice; [size] is their
    number; and the capacity has doubled if the table was more than half
    full, and is the same if not. *)
Theorem insert_adds_one_key (s : IntSet) (key : N) :
  wfSet bloomHash2 s -> lengthN (data s) < 2 ^ 30 -> key <> 0 ->
  exists s',
    insert ndebug bloomHash2 s key = Done s' /\
    wfSet bloomHash2 s' /\
    (forall x, x ∈ keysOf s' <-> x = key \/ x ∈ keysOf s) /\
    size s' = (if decide (key ∈ keysOf s) then size s else size s + 1) /\
    lengthN (data s')
    = (if lengthN (data s) <? 2 * size s then 2 * lengthN (data s)
       else lengthN (data s)).
Proof.
  intros Hwf Hc Hkey.
  destruct (insert_spec ndebug bloomHash2 s key Hwf Hc Hkey)
    as (s' & Hrun & Hwf' & Hcap & Hcases).
  exists s'. split; [exact Hrun|]. split; [exact Hwf'|].
  split; [|split; [|exact Hcap]].
  2: rewrite (wfSet_size bloomHash2 s' Hwf'), (wfSet_size bloomHash2 s Hwf).
  - intros x. destruct Hcases as [[Hin Hperm] | [Hnot Hperm]]; rewrite Hperm.
    + split; [auto|]. intros [-> | H]; assumption.
    + apply elem_of_cons.
  - destruct Hcases as [[Hin Hperm] | [Hnot Hperm]];
      unfold lengthN; rewrite Hperm.
    + rewrite decide_True by exact Hin. reflexivity.
    + rewrite decide_False by exact Hnot. cbn [length]. lia.
Qed.

(** The first loop of [prepareChunkIndex]: the set holds the n-grams of
    the data; a table of more than 16 slots is less than four times as large
    as the number of its keys. *)
Lemma collect_spec (filedata : list byte) :
  forall s,
    wfSet bloomHash2 s ->
    (lengthN (data s) <= 16 \/ lengthN (data s) < 4 * size s) ->
    4 * (size s + lengthN filedata) + 16 < 2 ^ 30 ->
    exists s',
      collect ndebug bloomHash2 ngram casefold filedata s = Done s' /\
      wfSet bloomHash2 s' /\
      (lengthN (data s') <= 16 \/ lengthN (data s') < 4 * size s') /\
      forall x, x ∈ keysOf s' <-> x ∈ keysOf s \/ x ∈ ngramsOf ngram casefold filedata.
Proof.
  induction filedata as [|a rest IH]; intros s Hwf Hcap Hroom.
  { exists s. cbn. split; [reflexivity|]. split; [exact Hwf|]. split; [exact Hcap|].
    intros x. rewrite elem_of_nil. tauto. }
  destruct rest as [|b [|c [|d tl]]];
    try (exists s; cbn; split; [reflexivity|]; split; [exact Hwf|];
         split; [exact Hcap|]; intros x; rewrite elem_of_nil; tauto).
  cbn [collect ngramsOf]. rewrite lengthN_cons in Hroom.
  set (n := u32 (ngram (casefold a) (casefold b) (casefold c) (casefold d))).
  set (rest := b :: c :: d :: tl) in *.
  destruct (negb (is_LF a) && negb (is_LF b) && negb (is_LF c) && negb (is_LF d));
    [destruct (n =? 0) eqn:En; cbn [negb]|].
  - rewrite bind_Done. destruct (IH s Hwf Hcap) as (s' & Hrun & Hwf' & Hcap' & Hkeys); [lia|].
    exists s'. split; [exact Hrun|]. split; [exact Hwf'|]. split; [exact Hcap'|].
    intros x. rewrite Hkeys. cbn [app]. tauto.
  - apply N.eqb_neq in En.
    destruct (insert_spec ndebug bloomHash2 s n Hwf) as (s1 & Hrun1 & Hwf1 & Hcap1 & Hcases);
      [lia | exact En |].
    assert (Hsize : size s <= size s1 <= size s + 1).
    { rewrite (wfSet_size bloomHash2 s1 Hwf1), (wfSet_size bloomHash2 s Hwf).
      unfold lengthN. destruct Hcases as [[_ Hperm] | [_ Hperm]]; rewrite Hperm;
        cbn [length]; lia. }
    rewrite Hrun1, bind_Done.
    destruct (IH s1 Hwf1) as (s' & Hrun & Hwf' & Hcap' & Hkeys).
    { rewrite Hcap1. destruct (lengthN (data s) <? 2 * size s) eqn:Eg.
      - apply N.ltb_lt in Eg. right. lia.
      - destruct Hcap as [H16 | Hlt]; [left; exact H16 | right; lia]. }
    { lia. }
    exists s'. split; [exact Hrun|]. split; [exact Hwf'|]. split; [exact Hcap'|].
    intros x. rewrite Hkeys. cbn [app]. rewrite elem_of_cons.
    destruct Hcases as [[Hin Hperm] | [_ Hperm]]; rewrite Hperm.
    + intuition (subst; auto).
    + rewrite elem_of_cons. tauto.
  - rewrite bind_Done. destruct (IH s Hwf Hcap) as (s' & Hrun & Hwf' & Hcap' & Hkeys); [lia|].
    exists s'. split; [exact Hrun|]. split; [exact Hwf'|]. split; [exact Hcap'|].
    intros x. rewrite Hkeys. cbn [app]. tauto.
Qed.

(** The second loop gives the keys of the table to the bloom filter. *)
Lemma fill_keys (indexSize iterations : N) (slots : list N) (index : list byte) :
  fill bloomFilterUpdate index indexSize iterations slots
  = fold_left (fun idx n => bloomFilterUpdate idx indexSize n iterations)
              (filter (fun x => x <> 0) slots) index.
Proof.
  revert index. induction slots as [|n slots IH]; intros index; [reflexivity|].
  cbn [fill]. destruct (n =? 0) eqn:En.
  - apply N.eqb_eq in En. subst n. rewrite filter_cons_False by tauto. apply IH.
  - apply N.eqb_neq in En. rewrite filter_cons_True by exact En. apply IH.
Qed.

(** X20.  [prepareChunkIndex] on [size] bytes of data, less than 2^27.  Below
    51200 bytes there is no index.  Else the index has [size / 50] bytes;
    every n-gram of four bytes of the data without a line feed, case-folded
    and not 0, is given to the bloom filter once, whatever the number of
    times it is in the data; and the number of hash iterations is that of
    [getIndexHashIterations] for the number of these n-grams. *)
Theorem prepareChunkIndex_distinct_ngrams (data : list byte) (offset size : N) :
  size < 2 ^ 27 ->
  (size < 51200 ->
   prepareChunkIndex ndebug bloomHash2 ngram casefold bloomFilterUpdate data offset size
   = Done ChunkIndex_empty) /\
  (51200 <= size ->
   exists keys,
     NoDup keys /\
     (forall x, x ∈ keys <->
                x ∈ ngramsOf ngram casefold (takeN size (dropN offset data))) /\
     let iterations := Bloom.getIndexHashIterations (size / 50) (lengthN keys) in
     prepareChunkIndex ndebug bloomHash2 ngram casefold bloomFilterUpdate data offset size
     = Done {| ci_data :=
                 fold_left (fun idx n => bloomFilterUpdate idx (size / 50) n iterations)
                           keys (repeat x00 (N.to_nat (size / 50)));
               ci_size := size / 50;
               ci_iterations := iterations |}).
Proof.
  intros Hsize. unfold prepareChunkIndex, getChunkIndexSize. split.
  - intros Hlt. assert (H : size / 50 < 1024) by (apply N.Div0.div_lt_upper_bound; lia).
    apply N.ltb_lt in H. rewrite H. reflexivity.
  - intros Hge. assert (H : 1024 <= size / 50) by (apply N.div_le_lower_bound; lia).
    pose proof H as H'. apply N.ltb_ge in H'. rewrite H'.
    replace (size / 50 =? 0) with false by (symmetry; apply N.eqb_neq; lia).
    destruct (collect_spec (takeN size (dropN offset data)) IntSet_default)
      as (s' & Hrun & Hwf' & _ & Hkeys).
    + exact (wfSet_new bloomHash2 4).
    + left. unfold IntSet_default, IntSet_new, lengthN. cbn [Index.data].
      rewrite repeat_length. lia.
    + assert (Hl : lengthN (takeN size (dropN offset data)) <= size).
      { unfold lengthN, takeN. rewrite length_take. lia. }
      cbn [Index.size IntSet_default IntSet_new]. lia.
    + rewrite Hrun, bind_Done. exists (keysOf s').
      split; [apply Hwf'|]. split.
      * intros x. rewrite Hkeys. unfold keysOf, IntSet_default, IntSet_new.
        cbn [Index.data]. rewrite keys_repeat_0, elem_of_nil. tauto.
      * cbv zeta. rewrite fill_keys, (wfSet_size bloomHash2 s' Hwf'). reflexivity.
Qed.

End IndexTheorems.


(** ** Examples *)

(** X1 on the first seven bytes of ["a\nb\nc\nd\ne"]. *)
Lemma skipByLines_last_line_witness :
  let skip := skipByLines lines5 7 in
  fst skip <= 7 /\
  snd skip = count_LF (takeN 7 lines5) /\
  (fst skip = 0 <-> snd skip = 0) /\
  (0 < fst skip -> lines5 !! N.to_nat (fst skip - 1) = Some LF) /\
  count_LF (slice lines5 (fst skip) 7) = 0.
Proof.
  apply (skipByLines_last_line lines5 7); [reflexivity | vm_compute; discriminate].
Defined.

(** X2 on the first seven bytes of ["a\nb\nc\nd\ne"]. *)
Lemma skipOneLine_first_line_witness :
  let k := skipOneLine lines5 7 in
  k <= 7 /\
  (0 < count_LF (takeN 7 lines5) ->
   1 <= k /\ lines5 !! N.to_nat (k - 1) = Some LF /\ count_LF (takeN (k - 1) lines5) = 0) /\
  (count_LF (takeN 7 lines5) = 0 -> k = 7).
Proof.
  apply (skipOneLine_first_line lines5 7). vm_compute; discriminate.
Defined.

Lemma wfFile_newRecord (p : string) (d : list byte) (t s : N) :
  lengthN d < SIZE_MOD -> wfFile (newRecord p d t s).
Proof. intros H. split; [cbn; lia | exact H]. Defined.

(** X3 on the record ["a\nb\nc\nd\ne"] and an empty chunk with four bytes
    left. *)
Lemma appendChunkFilePrefix_line_aligned_witness :
  let chunk := {| files := []; totalSize := 0 |} in
  let f := newRecord "a.txt" lines5 0 9 in
  (appendChunkFilePrefix false chunk f 4 = Done (chunk, f) /\
   files chunk <> [] /\ count_LF (takeN 4 (bytesOf f)) = 0)
  \/
  (exists p f',
     appendChunkFilePrefix false chunk f 4
     = Done ({| files := files chunk ++ [p];
                totalSize := totalSize chunk + sizeOf p |}, f') /\
     bytesOf p ++ bytesOf f' = bytesOf f /\
     1 <= sizeOf p /\
     (last (bytesOf p) = Some LF \/
      (bytesOf p = bytesOf f /\ count_LF (bytesOf f) = 0)) /\
     (sizeOf p <= 4 \/ files chunk = []) /\
     name p = name f /\ name f' = name f /\ startLine p = startLine f /\
     startLine f' = u32 (startLine f + N.max 1 (count_LF (bytesOf p)))).
Proof.
  apply (appendChunkFilePrefix_line_aligned false).
  - apply wfFile_newRecord. reflexivity.
  - reflexivity.
  - reflexivity.
  - reflexivity.
Defined.

(** X4 at a size of 4, with nine bytes pending. *)
Lemma flushChunk_moves_front_witness :
  exists b' moved,
    flushChunk false 4 over2C = Done b' /\
    outData b' = match moved with
                 | [] => outData over2C
                 | _ => outData over2C ++
                        [Built {| files := moved; totalSize := sumCount moved |}]
                 end /\
    sumCount moved <= pendingSize over2C /\
    pendingSize b' = pendingSize over2C - sumCount moved /\
    pendingSize b' = sumCount (pendingFiles b') /\
    concat (map bytesOf (moved ++ pendingFiles b'))
    = concat (map bytesOf (pendingFiles over2C)) /\
    (sumCount moved <= 4 \/ length moved = 1%nat) /\
    (0 < 4 -> pendingFiles over2C <> [] -> moved <> []).
Proof.
  apply (flushChunk_moves_front false 4 over2C); [reflexivity | exact WF_over2C].
Defined.



Lemma smallFile_splitProject : Forall (smallFile (fun x => x)) splitProject.
Proof. repeat constructor. Defined.

Lemma NoDup_splitProject : NoDup (map path splitProject).
Proof. apply (bool_decide_unpack _). vm_compute. exact I. Defined.

(** X7 at a chunk size of 4, on a file that is cut in three. *)
Lemma buildProject_keeps_contents_witness :
  exists out,
    buildProject false 4 (fun x => x) splitProject = Done out /\
    (forall f rawBytes, f ∈ splitProject -> raw f = Some rawBytes ->
       concat (map bytesOf (recordsOf (path f) out))
       = fileContents (fun x => x) rawBytes /\
       sumCount (recordsOf (path f) out)
       = lengthN (fileContents (fun x => x) rawBytes)) /\
    (forall r, r ∈ emitted out ->
       exists f rawBytes, f ∈ splitProject /\ raw f = Some rawBytes /\ name r = path f).
Proof.
  apply (buildProject_keeps_contents false 4 (fun x => x));
    [reflexivity | reflexivity | exact NoDup_splitProject | exact smallFile_splitProject].
Defined.

(** X8 at a chunk size of 4, on a file that is cut in three. *)
Lemma buildProject_cuts_at_line_ends_witness :
  exists out,
    buildProject false 4 (fun x => x) splitProject = Done out /\
    forall f rawBytes r,
      f ∈ splitProject -> raw f = Some rawBytes -> r ∈ recordsOf (path f) out ->
      let d := fileContents (fun x => x) rawBytes in
      storage (contents r) = d /\
      (offset (contents r) + sizeOf r = lengthN d \/ last (bytesOf r) = Some LF).
Proof.
  apply (buildProject_cuts_at_line_ends false 4 (fun x => x));
    [reflexivity | reflexivity | exact NoDup_splitProject | exact smallFile_splitProject].
Defined.

(** X9 at a chunk size of 4, on a file that is cut in three. *)
Lemma buildProject_bounds_chunks_witness :
  exists out,
    buildProject false 4 (fun x => x) splitProject = Done out /\
    forall rec, rec ∈ out ->
      exists c, rec = Built c /\ files c <> [] /\
                totalSize c = sumCount (files c) /\
                (totalSize c <= 4 \/ length (files c) = 1%nat).
Proof.
  apply (buildProject_bounds_chunks false 4 (fun x => x));
    [reflexivity | reflexivity | exact NoDup_splitProject | exact smallFile_splitProject].
Defined.

(** X10 at a chunk size of 4, on two empty files. *)
Lemma buildProject_of_empty_files_witness :
  buildProject false 4 (fun x => x) emptyProject = Done [].
Proof.
  apply (buildProject_of_empty_files false 4 (fun x => x)).
  - reflexivity.
  - reflexivity.
  - apply (bool_decide_unpack _). vm_compute. exact I.
  - intros f rawBytes Hf Hr. unfold emptyProject in Hf.
    rewrite !elem_of_cons, elem_of_nil in Hf.
    destruct Hf as [-> | [-> | []]]; injection Hr as <-; reflexivity.
Defined.

(** X11 for one more byte of [a.txt], the file of the record that is
    pending, at line 3. *)
Lemma appendFilePart_extends_last_record_witness :
  let file := newRecord "a.txt" [x61; x0a; x62; x0a; x63] 0 5 in
  let ok := (startLine file <? 3) &&
            ((timeStamp file =? 0) && (fileSize file =? 5)) in
  (false = false -> ok = false ->
   appendFilePart false 4 "a.txt" 3 [x64] 0 5 under = AssertFailed) /\
  (false = true \/ ok = true ->
   exists file',
     appendFilePart false 4 "a.txt" 3 [x64] 0 5 under
     = flushIfNeeded false 4
         {| pendingFiles := [] ++ [file'];
            pendingSize := sz_add (pendingSize under) (lengthN [x64]);
            outData := outData under |} /\
     bytesOf file' = bytesOf file ++ [x64] /\
     name file' = name file /\ startLine file' = startLine file /\
     wfFile file' /\ atEnd file').
Proof.
  apply (appendFilePart_extends_last_record false 4 under []
           (newRecord "a.txt" [x61; x0a; x62; x0a; x63] 0 5)).
  - reflexivity.
  - reflexivity.
  - apply wfFile_newRecord. reflexivity.
  - reflexivity.
  - reflexivity.
Defined.

Lemma WF_under : WF under.
Proof.
  unfold WF, under. simpl_rec. split; [|split; [reflexivity | reflexivity]].
  constructor; [|constructor]. split; reflexivity.
Defined.

(** X12 at a chunk size of 4, with five bytes pending. *)
Lemma appendChunk_writes_pending_first_witness :
  exists b3 recs,
    appendChunk true 4 hdr0 [x01; x02; x03] [] under
    = Done (true, writeChunk hdr0 [x01; x02; x03] [] b3) /\
    pendingSize b3 = 0 /\
    outData b3 = outData under ++ recs /\
    (length recs <= 2)%nat /\
    concat (map bytesOf (emitted recs)) = concat (map bytesOf (pendingFiles under)).
Proof.
  apply (appendChunk_writes_pending_first 4).
  - reflexivity.
  - reflexivity.
  - exact WF_under.
  - reflexivity.
  - vm_compute. discriminate.
  - reflexivity.
Defined.

(** X13 on ["a\nxb\nb"], for the offset 3 of the first ['b']. *)
Lemma findLineStart_after_line_feed_witness :
  let s := findLineStart twoHits 0 3 in
  0 <= s <= 3 /\
  count_LF (slice twoHits s 3) = 0 /\
  ((s = 0 /\ count_LF (slice twoHits 0 3) = 0) \/
   (0 < s /\ twoHits !! N.to_nat (s - 1) = Some LF)).
Proof.
  apply (findLineStart_after_line_feed twoHits 0 3); vm_compute; discriminate.
Defined.

(** X14 on ["a\nxb\nb"], for the offset 3 of the first ['b']. *)
Lemma findLineEnd_at_line_feed_witness :
  let s := findLineEnd twoHits 3 6 in
  3 <= s <= 6 /\
  count_LF (slice twoHits 3 s) = 0 /\
  ((s = 6 /\ count_LF (slice twoHits 3 6) = 0) \/
   (s < 6 /\ twoHits !! N.to_nat s = Some LF)).
Proof.
  apply (findLineEnd_at_line_feed twoHits 3 6); vm_compute; discriminate.
Defined.

(** X15 for the engine that finds the byte ['b'], on ["a\nxb\nb"]. *)
Lemma reported_text_is_the_line_witness :
  exists events,
    processFile (fun d => d) (searchByte x62) twoHits 7 = Some events /\
    (forall m r, (m, r) ∈ events ->
       text r <= m /\ m <= text r + textLength r /\
       text r + textLength r <= lengthN twoHits /\
       count_LF (slice twoHits (text r) (text r + textLength r)) = 0 /\
       (text r = 0 \/ twoHits !! N.to_nat (text r - 1) = Some LF) /\
       (text r + textLength r = lengthN twoHits \/
        twoHits !! N.to_nat (text r + textLength r) = Some LF)) /\
    (forall i j mi ri mj rj,
       events !! i = Some (mi, ri) -> events !! j = Some (mj, rj) -> (i < j)%nat ->
       text ri + textLength ri < text rj).
Proof.
  apply (reported_text_is_the_line (fun d => d) (searchByte x62)).
  - reflexivity.
  - apply searchByte_inside.
  - intros r off len. apply searchByte_one_line. reflexivity.
Defined.

Lemma length_littleEndian (n : nat) (x : N) : length (littleEndian n x) = n.
Proof.
  revert x. induction n as [|n IH]; intros x; [reflexivity|].
  cbn [littleEndian length]. rewrite IH. reflexivity.
Defined.

Lemma headerBytes_size (h : DataChunkFileHeader) :
  lengthN (headerBytes h) = sizeof_DataChunkFileHeader.
Proof.
  unfold lengthN, headerBytes. rewrite !length_app, !length_littleEndian. reflexivity.
Defined.

Lemma wfFile_twoRecords : Forall wfFile (files twoRecords).
Proof.
  repeat (constructor; [apply wfFile_newRecord; reflexivity|]). constructor.
Defined.

(** X16 for a chunk of two records and headers in little-endian bytes. *)
Lemma prepareChunkData_layout_witness :
  exists data offset,
    prepareChunkData false headerBytes twoRecords = Done (data, offset) /\
    data = concat (map headerBytes (chunkFileHeaders twoRecords)) ++
           names (files twoRecords) ++ chunkData twoRecords /\
    lengthN data = chunkUncompressedSize twoRecords /\
    dropN offset data = chunkData twoRecords /\
    lengthN (chunkData twoRecords) = getChunkDataTotalSize twoRecords.
Proof.
  apply (prepareChunkData_layout false headerBytes headerBytes_size twoRecords).
  - exact wfFile_twoRecords.
  - reflexivity.
Defined.

(** X17 for a chunk of two records and headers in little-endian bytes. *)
Lemma prepareChunkData_headers_point_to_records_witness :
  exists data offset,
    prepareChunkData false headerBytes twoRecords = Done (data, offset) /\
    length (chunkFileHeaders twoRecords) = length (files twoRecords) /\
    forall i f h,
      files twoRecords !! i = Some f -> chunkFileHeaders twoRecords !! i = Some h ->
      nameOf data h = nameBytes f /\ dataOf data h = bytesOf f /\
      h_startLine h = startLine f /\ h_fileSize h = fileSize f /\
      h_timeStamp h = timeStamp f.
Proof.
  apply (prepareChunkData_headers_point_to_records false headerBytes headerBytes_size
           twoRecords).
  - exact wfFile_twoRecords.
  - reflexivity.
Defined.

(** X19 for the key 5 and the empty set of 16 slots. *)
Lemma insert_adds_one_key_witness :
  exists s',
    Index.insert false (fun x => x) Index.IntSet_default 5 = Done s' /\
    wfSet (fun x => x) s' /\
    (forall x, x ∈ keysOf s' <-> x = 5 \/ x ∈ keysOf Index.IntSet_default) /\
    Index.size s'
    = (if decide (5 ∈ keysOf Index.IntSet_default)
       then Index.size Index.IntSet_default
       else Index.size Index.IntSet_default + 1) /\
    lengthN (Index.data s')
    = (if lengthN (Index.data Index.IntSet_default)
          <? 2 * Index.size Index.IntSet_default
       then 2 * lengthN (Index.data Index.IntSet_default)
       else lengthN (Index.data Index.IntSet_default)).
Proof.
  apply (insert_adds_one_key false (fun x => x) Index.IntSet_default 5).
  - exact (wfSet_new (fun x => x) 4).
  - reflexivity.
  - discriminate.
Defined.

(** X20 on 51200 bytes ['a']. *)
Lemma prepareChunkIndex_distinct_ngrams_witness :
  (51200 < 51200 ->
   Index.prepareChunkIndex false (fun x => x) packNgram (fun c => c) markByte
     (aFile 51200) 0 51200
   = Done Index.ChunkIndex_empty) /\
  (51200 <= 51200 ->
   exists keys,
     NoDup keys /\
     (forall x, x ∈ keys <->
                x ∈ ngramsOf packNgram (fun c => c)
                      (takeN 51200 (dropN 0 (aFile 51200)))) /\
     let iterations := Bloom.getIndexHashIterations (51200 / 50) (lengthN keys) in
     Index.prepareChunkIndex false (fun x => x) packNgram (fun c => c) markByte
       (aFile 51200) 0 51200
     = Done {| Index.ci_data :=
                 fold_left (fun idx n => markByte idx (51200 / 50) n iterations)
                           keys (repeat x00 (N.to_nat (51200 / 50)));
               Index.ci_size := 51200 / 50;
               Index.ci_iterations := iterations |}).
Proof.
  apply (prepareChunkIndex_distinct_ngrams false (fun x => x) packNgram (fun c => c)
           markByte (aFile 51200) 0 51200).
  reflexivity.
Defined.

(** X21 at a chunk size of 4, on a file that is cut in three. *)
Lemma fileCount_counts_stored_files_witness :
  exists out,
    buildProject false 4 (fun x => x) splitProject = Done out /\
    fileCountOf out = lengthN (storedFiles splitProject out) /\
    (forall f, f ∈ storedFiles splitProject out ->
               exists rawBytes, raw f = Some rawBytes) /\
    (forall f rawBytes, f ∈ splitProject -> raw f = Some rawBytes ->
       fileContents (fun x => x) rawBytes <> [] -> f ∈ storedFiles splitProject out).
Proof.
  apply (fileCount_counts_stored_files false 4 (fun x => x)).
  - reflexivity.
  - reflexivity.
  - apply (bool_decide_unpack _). vm_compute. exact I.
  - repeat constructor.
  - reflexivity.
Defined.
